(* ===== verification/_CoqProject ===== *)
-Q . S2P
Prelude.v
Protocol.v
Bincode.v
BincodeExt.v
PacketExt.v
InputState.v
Renderer.v
ClientLoop.v
ClientMain.v
FramePipeline.v
ServerLoop.v
ServerState.v
Orchestrator.v
ServerDrain.v
