(* ===== verification/Prelude.v ===== *)
(** * A verification development for rbmp-game

    rbmp-game is a Rust client/server skeleton for a real-time
    multiplayer game.  The crate [shared] holds the packet types and
    their wire format ([protocol.rs], [bincode_ext.rs], [packet_ext.rs]);
    the client ([src/client]) runs a winit event loop that samples the
    keyboard into a key table, calls [update], [ui] and [render] once per
    redraw with a fixed-tick flag, and queues outbound [PacketAction]s;
    the server ([src/server]) runs a fixed-rate loop whose tick drains
    the queue of connection events into a session registry.  Both
    [networking::init]s set up a QUIC connection and a handshake.

    ** Files, in dependency order, and what of the code each models
    - [Prelude] (this file): the [result] monad standing for Rust's
      [Result] and for panics ([let!] binds it); bytes as [Z] and their
      little/big-endian encodings ([le_bytes], [be_bytes]); saturating
      [Instant] subtraction [sat_sub]; the [rbmp] hint databases.
    - [Protocol]: [ReliablePacket], [UnreliablePacket], [PacketAction]
      ([protocol.rs]) and the ranges of their fields ([packet_wf]).
    - [Bincode]: what [#[derive(Encode, Decode)]] produces under
      [bincode::config::standard()] (varints, one-byte bools, f32 bit
      patterns, arrays without length); decoders are byte-list readers
      ([Dec]) failing with bincode's [DecodeError]; the [Codec] class and
      its law [CodecLaws] are the interface the framing relies on.
    - [BincodeExt]: [read_decoded] (through [decode_from_std_read], whose
      reader reports the end of input as [Io(UnexpectedEof)]),
      [write_encoded], [ToBuf::to_buf].
    - [PacketExt]: the [PacketStreamReadExt]/[PacketStreamWriteExt] traits
      as classes with their [TcpStream] (a byte stream) and [UdpSocket]
      (a datagram queue) instances; [spec_frame] is the framing the spec
      asks for.
    - [InputState]: [FrameContext], its key table of 163 entries
      indexed by winit 0.27 key codes, [handle_keyboard_event] and the
      four queries; the frame counter is a [u64] kept modulo 2^64.
    - [Renderer]: [Renderer::new], [resize], [get_output] of
      [renderer.rs], with wgpu's validation of surface configurations.
    - [ClientLoop]: [client_game_loop]'s closure as [handle_event] on
      [LoopState], generic over the class [ClientApp] (the callbacks and
      the window calls) and its laws [ClientAppLaws]; [run_events] runs
      a finite prefix of the event stream.
    - [ClientMain] ([Module Client]): [ClientState], the player's
      movement ([player.rs]), the callbacks of [main.rs] as the
      [ClientApp] instance.
    - [FramePipeline]: the same closure with every GPU and imgui call,
      recorded as a trace ([redraw_pipeline], [UiRenderer::render] as
      [ui_render]), and [UiRenderer::new]'s imgui set-up; it refines
      [ClientLoop].
    - [ServerLoop]: [server_game_loop], one [server_iteration] per clock
      sample, the callbacks as Section variables.
    - [ServerState] ([Module Server]): the registry ([gmap Z Player]),
      [fixed_update] and its [while let try_recv] drain, [Player]'s
      senders as channel ids into a shared store of queues.
    - [Orchestrator]: the server's accept task and the client's
      [networking::init], with [create_server]/[create_client], and the
      two [main]s ([client_main], [server_main]); the network's answers
      are inputs.
    - [ServerDrain]: the drain against a stdpp map reference, and
      against transport tasks that send while it runs; the whole server
      loop with [main.rs]'s callbacks fed by senders between its
      iterations ([run_server_fed]).

    ** How the parts interact, and where the theorems say so
    The framing layer is proved against the codec's interface
    ([CodecLaws]); the scheduler's theorems hold of every [ClientApp]
    that satisfies [ClientAppLaws], and [ClientMain] discharges the laws
    for the program's callbacks; [FramePipeline] shows the GPU-level
    loop reaches the states the scheduler model computes, so both
    apply to the program with its GPU work, and that imgui's format
    follows the renderer's surface; [Orchestrator] composes the client's
    handshake write with the server's read of it.

    ** Groups of theorems
    - round trip and error paths of the codec ([Bincode]):
      decode (encode p ++ rest) = Ok (p, rest); truncated input and
      unknown variants fail without panicking;
    - framing ([PacketExt], [BincodeExt]): the TCP reader implements the
      spec's 4-byte framing, and successive reads of a stream of frames
      return its packets in order, once each; the writer's 8-byte
      length makes write-then-read panic; the UDP writer's length is
      always zero and its readers lose the payload, so the UDP channel
      never carries a packet; [ToBuf::to_buf] always panics;
    - input edge detection and the key table's invariant ([InputState]);
    - scheduling ([ClientLoop], [ServerLoop]): frame counting, fixed-tick
      cadence bounds under clock jitter, no catch-up, zero durations on
      the server;
    - the client's movement packets and the renderer's invariant over
      every run ([ClientMain]), [Renderer::new] and [resize] on every
      branch ([Renderer]), the frame trace, the [UiRenderer]'s cursor
      cache, imgui's texture format and the refinement ([FramePipeline]);
    - the registry: tick semantics, fresh sessions, termination of the drain and its unboundedness under concurrent
      senders, and, over whole runs of the server loop, that no
      connection event is lost or applied twice ([ServerState],
      [ServerDrain]);
    - the handshake: nothing is read, one bad client stops the accept
      task ([Orchestrator]).

    ** Bounds, widths and fuel
    Every recursion is structural except [drain_racing], whose fuel
    counts [try_recv] calls: [drain_racing_terminates] shows that
    [n + m + 1] units suffice for [n] queued and [m] concurrently sent
    events, and [drain_racing_unbounded] that no fuel bound independent
    of the senders exists.  Infinite loops ([event_loop.run], the server
    loop, the accept loop, [loop {}]) are run over finite prefixes of
    their inputs; the theorems quantify over every prefix.  Instants and
    durations are nanosecond counts; [Instant - Instant] saturates at 0.
    [usize] is 64 bits (the TCP writer's length is 8 bytes); the frame
    counter wraps at 2^64; [INTERVAL] is [1000 / 60] ms, i.e. 16 ms.
    [UiRenderer::new] computes two [f64] values and converts them [as
    f32]: the model keeps them in [Q] with the conversion as a
    parameter [to_f32] (no theorem depends on its rounding).
    Versions assumed where the code does not pin them: bincode 2, winit
    0.27 key codes, wgpu's [Limits::default()] (8192 texels), quinn's
    [RecvStream::read] and [SendStream::write].

    ** Not modelled
    Tracing initialisation (no effect on the modelled state); TLS and
    certificate generation (library code; the client's verifier is
    modelled as accepting everything); GPU objects beyond the calls
    made on them, and the accessors returning their opaque handles
    ([surface()], [device()], [queue()]); on the client, the
    failure of [Sender::send] once its receiver is dropped (the
    client's queue is a list that always accepts; the server's channel
    store does model it).  The two [main]s are modelled, but they only call
    [networking::init] and spin in [loop {}] without ever starting a
    game loop, so no theorem about a composed running game is possible
    beyond the handshake. *)

From stdpp Require Export base list gmap.
From Stdlib Require Export ZArith Lia.

Declare Scope rbmp_scope.
Delimit Scope rbmp_scope with rbmp.
Open Scope Z_scope.

(** ** Rust's [Result], used for recoverable errors and panics. *)

Inductive result (T E : Type) : Type :=
| Ok (t : T)
| Err (e : E).
Arguments Ok {T E} t.
Arguments Err {T E} e.

Definition res_bind {T U E} (r : result T E) (k : T -> result U E) : result U E :=
  match r with
  | Ok t => k t
  | Err e => Err e
  end.

Definition res_map_err {T E F} (f : E -> F) (r : result T E) : result T F :=
  match r with
  | Ok t => Ok t
  | Err e => Err (f e)
  end.

Definition is_ok {T E} (r : result T E) : bool :=
  match r with Ok _ => true | Err _ => false end.

Notation "'let!' x ':=' c 'in' k" := (res_bind c (fun x => k))
  (at level 10, x pattern, c at level 100, k at level 200) : rbmp_scope.

Open Scope rbmp_scope.

Lemma res_bind_ok {T U E} (t : T) (k : T -> result U E) :
  res_bind (Ok t) k = k t.
Proof. reflexivity. Qed.

Lemma res_bind_err {T U E} (e : E) (k : T -> result U E) :
  res_bind (Err e) k = Err e.
Proof. reflexivity. Qed.

Lemma Ok_inj {T E} (a b : T) : @Ok T E a = Ok b -> a = b.
Proof. congruence. Qed.

Lemma res_bind_Ok_inv {T U E} (r : result T E) (k : T -> result U E) u :
  res_bind r k = Ok u -> exists t, r = Ok t /\ k t = Ok u.
Proof. destruct r; simpl; [eauto | discriminate]. Qed.

(** ** Bytes and fixed-width byte encodings.

    A byte is a [Z] in [0, 256).  [le_bytes n v] is the [n]-byte
    little-endian encoding of [v] (Rust's [to_le_bytes] at width [8 n]
    bits, [v] taken modulo [2^(8 n)]), [be_bytes] its big-endian
    reverse, and [le_value]/[be_value] read them back ([from_le_bytes],
    [from_be_bytes]). *)

Definition is_byte (b : Z) : Prop := 0 <= b < 256.

Fixpoint le_bytes (n : nat) (v : Z) : list Z :=
  match n with
  | O => []
  | S n' => Z.land v 255 :: le_bytes n' (Z.shiftr v 8)
  end.

Fixpoint le_value (bs : list Z) : Z :=
  match bs with
  | [] => 0
  | b :: bs' => b + 256 * le_value bs'
  end.

Definition be_bytes (n : nat) (v : Z) : list Z := rev (le_bytes n v).
Definition be_value (bs : list Z) : Z := le_value (rev bs).

(** Instants and durations are nanosecond counts.  Rust's
    [Instant - Instant] (and so [Instant::elapsed]) saturates at zero. *)
Definition sat_sub (a b : Z) : Z := Z.max 0 (a - b).

Create HintDb rbmp.
Create Rewrite HintDb rbmp_rw.

Lemma length_le_bytes n v : length (le_bytes n v) = n.
Proof. revert v; induction n; intros v; simpl; auto. Qed.

Lemma length_be_bytes n v : length (be_bytes n v) = n.
Proof. unfold be_bytes. rewrite length_rev. apply length_le_bytes. Qed.

Lemma land_255_mod v : Z.land v 255 = v mod 256.
Proof. apply (Z.land_ones v 8). lia. Qed.

Lemma shiftr_8_div v : Z.shiftr v 8 = v / 256.
Proof. rewrite Z.shiftr_div_pow2 by lia. reflexivity. Qed.

Lemma le_bytes_bytes n v : Forall is_byte (le_bytes n v).
Proof.
  revert v; induction n; intros v; constructor; auto.
  unfold is_byte. rewrite land_255_mod. apply Z.mod_pos_bound. lia.
Qed.

Lemma be_bytes_bytes n v : Forall is_byte (be_bytes n v).
Proof. unfold be_bytes. apply Forall_rev, le_bytes_bytes. Qed.

Lemma le_value_le_bytes n v : le_value (le_bytes n v) = v mod 2 ^ (8 * Z.of_nat n).
Proof.
  revert v; induction n; intros v; simpl le_bytes; simpl le_value.
  - rewrite Z.mod_1_r. reflexivity.
  - rewrite IHn, land_255_mod, shiftr_8_div.
    replace (8 * Z.of_nat (S n)) with (8 + 8 * Z.of_nat n) by lia.
    rewrite Z.pow_add_r by lia. change (2 ^ 8) with 256.
    rewrite Z.rem_mul_r by (try apply Z.pow_pos_nonneg; lia).
    reflexivity.
Qed.

Lemma le_value_le_bytes_small n v :
  0 <= v < 2 ^ (8 * Z.of_nat n) -> le_value (le_bytes n v) = v.
Proof. intros H. rewrite le_value_le_bytes. apply Z.mod_small. exact H. Qed.

Lemma be_value_be_bytes_small n v :
  0 <= v < 2 ^ (8 * Z.of_nat n) -> be_value (be_bytes n v) = v.
Proof.
  intros H. unfold be_value, be_bytes. rewrite rev_involutive.
  apply le_value_le_bytes_small. exact H.
Qed.

Lemma le_value_bound bs :
  Forall is_byte bs -> 0 <= le_value bs < 2 ^ (8 * Z.of_nat (length bs)).
Proof.
  induction 1 as [|b bs Hb _ IH]; simpl; [lia|].
  unfold is_byte in Hb.
  replace (8 * Z.of_nat (S (length bs))) with (8 + 8 * Z.of_nat (length bs)) by lia.
  rewrite Z.pow_add_r by lia. change (2 ^ 8) with 256. lia.
Qed.

Lemma le_bytes_le_value bs :
  Forall is_byte bs -> le_bytes (length bs) (le_value bs) = bs.
Proof.
  induction 1 as [|b bs Hb _ IH]; simpl; [reflexivity|].
  unfold is_byte in Hb. rewrite land_255_mod, shiftr_8_div.
  f_equal.
  - rewrite Z.mul_comm, Z.mod_add by lia. apply Z.mod_small. lia.
  - rewrite Z.mul_comm, Z.div_add by lia.
    rewrite (Z.div_small b 256) by lia. exact IH.
Qed.

Lemma le_bytes_zero n : le_bytes n 0 = repeat 0 n.
Proof. induction n; simpl; [reflexivity | f_equal; exact IHn]. Qed.

Lemma le_bytes_add a b v :
  le_bytes (a + b) v = le_bytes a v ++ le_bytes b (Z.shiftr v (8 * Z.of_nat a)).
Proof.
  revert v; induction a as [|a IH]; intros v; [reflexivity|].
  simpl le_bytes. rewrite IH, Z.shiftr_shiftr by lia.
  replace (8 * Z.of_nat (S a)) with (8 + 8 * Z.of_nat a) by lia. reflexivity.
Qed.

(** An [n + 4]-byte big-endian encoding of a value below [2^32] starts
    with [n] zero bytes. *)
Lemma be_bytes_high_zero n v :
  0 <= v < 2 ^ 32 -> be_bytes (n + 4) v = repeat 0 n ++ be_bytes 4 v.
Proof.
  intros Hv. unfold be_bytes. rewrite Nat.add_comm, le_bytes_add.
  rewrite Z.shiftr_div_pow2 by lia. rewrite Z.div_small by (simpl Z.of_nat; lia).
  rewrite le_bytes_zero, rev_app_distr, rev_repeat. reflexivity.
Qed.

(** Adding [n] to a residue [f] modulo [m] gives [f] back exactly when
    [n] is a multiple of [m]. *)
Lemma mod_add_eq_self f n m :
  0 < m -> 0 <= f < m -> (f + n) mod m = f <-> n mod m = 0.
Proof.
  intros Hm Hf. rewrite Z.add_mod, (Z.mod_small f) by lia.
  pose proof (Z.mod_pos_bound n m Hm). set (r := n mod m) in *.
  destruct (Z.ltb_spec (f + r) m).
  - rewrite Z.mod_small by lia. lia.
  - replace (f + r) with ((f + r - m) + 1 * m) by lia.
    rewrite Z.mod_add, Z.mod_small by lia. lia.
Qed.

#[export] Hint Rewrite length_le_bytes length_be_bytes @res_bind_ok @res_bind_err : rbmp_rw.
#[export] Hint Resolve le_bytes_bytes be_bytes_bytes : rbmp.

(** [take]/[drop] of a split append, the two facts every decoder proof
    uses to step over the bytes an encoder produced. *)
Lemma take_app_length' {A} (l k : list A) n : n = length l -> take n (l ++ k) = l.
Proof. intros ->. apply take_app_length. Qed.

Lemma drop_app_length' {A} (l k : list A) n : n = length l -> drop n (l ++ k) = k.
Proof. intros ->. apply drop_app_length. Qed.

Ltac rbmp_simpl := repeat (autorewrite with rbmp_rw in *; simpl in *).
