(* ===== verification/Protocol.v ===== *)
(** * The packet taxonomy of [src/shared/src/protocol.rs]

    [ReliablePacket] and [UnreliablePacket] are the two packet unions
    and [PacketAction] the outbound-queue element that tags a packet
    with its channel.  Rust's [u16]/[u32] fields are [Z]; an [f32] is
    its IEEE-754 bit pattern ([f32::to_bits]), which is what the codec
    transmits; the fixed arrays [[bool; 6]] and [[f32; 2]] are lists
    whose lengths [packet_wf] pins. *)

From S2P Require Import Prelude.

(** [f32] as the 32-bit pattern of the float. *)
Abbreviation f32 := Z (only parsing).

Inductive ReliablePacket : Type :=
| Handshake (udp_port : Z)
| HandshakeRes (player_id : Z)
| MovementInput (directions : list bool) (rotations : list f32).

(** [pub enum UnreliablePacket {}]: no variant yet. *)
Inductive UnreliablePacket : Type := .

Inductive PacketAction : Type :=
| Reliable (p : ReliablePacket)
| Unreliable (p : UnreliablePacket).

#[export] Instance ReliablePacket_eq_dec : EqDecision ReliablePacket.
Proof. solve_decision. Defined.

#[export] Instance UnreliablePacket_eq_dec : EqDecision UnreliablePacket.
Proof. intros []. Defined.

(** The values a Rust [ReliablePacket] can hold: integer fields in the
    range of their width and arrays of their declared length. *)
Definition u16_range (v : Z) : bool := (0 <=? v) && (v <? 2 ^ 16).
Definition u32_range (v : Z) : bool := (0 <=? v) && (v <? 2 ^ 32).

Definition packet_wf (p : ReliablePacket) : bool :=
  match p with
  | Handshake port => u16_range port
  | HandshakeRes id => u32_range id
  | MovementInput ds rs =>
      (length ds =? 6)%nat && (length rs =? 2)%nat && forallb u32_range rs
  end.

Lemma u16_range_spec v : u16_range v = true <-> 0 <= v < 2 ^ 16.
Proof. unfold u16_range. rewrite andb_true_iff, Z.leb_le, Z.ltb_lt. reflexivity. Qed.

Lemma u32_range_spec v : u32_range v = true <-> 0 <= v < 2 ^ 32.
Proof. unfold u32_range. rewrite andb_true_iff, Z.leb_le, Z.ltb_lt. reflexivity. Qed.

(** [packet_wf] unfolded, one conjunct per field. *)
Lemma packet_wf_spec p :
  packet_wf p = true <->
  match p with
  | Handshake port => 0 <= port < 2 ^ 16
  | HandshakeRes id => 0 <= id < 2 ^ 32
  | MovementInput ds rs =>
      length ds = 6%nat /\ length rs = 2%nat /\ Forall (fun r => 0 <= r < 2 ^ 32) rs
  end.
Proof.
  destruct p as [port|id|ds rs]; simpl; [apply u16_range_spec | apply u32_range_spec|].
  rewrite !andb_true_iff, !Nat.eqb_eq, forallb_forall, List.Forall_forall.
  setoid_rewrite u32_range_spec. tauto.
Qed.
