(* ===== verification/Bincode.v ===== *)
(** * The bincode encoding of the packets

    [protocol.rs] derives [bincode::Encode] and [bincode::Decode] for
    both packet unions, and every caller encodes with
    [bincode::config::standard()]: little-endian, variable-length
    integers.  This file writes out what the derive produces under that
    configuration (bincode 2, where fixed-size arrays carry no length):
    - an unsigned integer is a varint: one byte up to 250, otherwise a
      marker byte (251 for u16, 252 for u32, 253 for u64) followed by
      the value in little-endian at that width;
    - an enum is its variant index as a [u32] varint, then its fields in
      declaration order; a [bool] is one byte 0 or 1; an [f32] is its
      four bit-pattern bytes in little-endian; an array is its elements.
    Decoders are state-passing readers over the remaining bytes
    ([Dec A]), failing with bincode's [DecodeError] constructors.
    The [Codec] class is the interface the framing layer relies on:
    its law is the prefix round trip [decode (encode a ++ rest) =
    Ok (a, rest)]. *)

From S2P Require Import Prelude Protocol.

Inductive IntegerType := U16 | U32 | U64.

(** The [std::io] errors the model raises: a read past the end of the
    data ([ErrorKind::UnexpectedEof]). *)
Inductive IoError := UnexpectedEof.

(** bincode's [DecodeError], with the cases the derive can raise.  The
    slice decoders of this file end their input with [UnexpectedEnd];
    a decoder run through an [IoReader] ([decode_from_std_read]) reports
    the same condition as [Io] (bincode's [Io { inner, additional }];
    the count [additional] is not kept). *)
Inductive DecodeError : Type :=
| UnexpectedEnd
| Io (inner : IoError)
| InvalidIntegerType (expected : IntegerType) (found_marker : Z)
| InvalidBooleanValue (v : Z)
| UnexpectedVariant (found : Z)
| EmptyEnum.

(** ** The reader monad. *)

Definition Dec (A : Type) : Type := list Z -> result (A * list Z) DecodeError.

Definition dec_ret {A} (a : A) : Dec A := fun bs => Ok (a, bs).
Definition dec_fail {A} (e : DecodeError) : Dec A := fun _ => Err e.
Definition dec_bind {A B} (d : Dec A) (k : A -> Dec B) : Dec B :=
  fun bs => let! (a, rest) := d bs in k a rest.

Notation "x <-- d ;; k" := (dec_bind d (fun x => k))
  (at level 100, d at next level, right associativity) : rbmp_scope.

(** [Reader::read] of [n] bytes. *)
Definition read_bytes (n : nat) : Dec (list Z) :=
  fun bs => if (length bs <? n)%nat then Err UnexpectedEnd else Ok (take n bs, drop n bs).

Definition read_u8 : Dec Z :=
  fun bs => match bs with [] => Err UnexpectedEnd | b :: rest => Ok (b, rest) end.

Definition read_le (n : nat) : Dec Z := bs <-- read_bytes n ;; dec_ret (le_value bs).

(** ** Varint integers ([varint/encode_unsigned.rs], [decode_unsigned.rs]). *)

Definition SINGLE_BYTE_MAX : Z := 250.
Definition U16_BYTE : Z := 251.
Definition U32_BYTE : Z := 252.
Definition U64_BYTE : Z := 253.

Definition varint_encode (v : Z) : list Z :=
  if v <=? SINGLE_BYTE_MAX then [v]
  else if v <? 2 ^ 16 then U16_BYTE :: le_bytes 2 v
  else if v <? 2 ^ 32 then U32_BYTE :: le_bytes 4 v
  else U64_BYTE :: le_bytes 8 v.

Definition int_max (w : IntegerType) : Z :=
  match w with U16 => 2 ^ 16 | U32 => 2 ^ 32 | U64 => 2 ^ 64 end.

(** A marker wider than the target type is [InvalidIntegerType]; so are
    the u128 marker 254 and the reserved 255. *)
Definition varint_decode (w : IntegerType) : Dec Z :=
  b <-- read_u8 ;;
  if b <=? SINGLE_BYTE_MAX then dec_ret b
  else if b =? U16_BYTE then read_le 2
  else if b =? U32_BYTE then
    match w with U16 => dec_fail (InvalidIntegerType w b) | _ => read_le 4 end
  else if b =? U64_BYTE then
    match w with U64 => read_le 8 | _ => dec_fail (InvalidIntegerType w b) end
  else dec_fail (InvalidIntegerType w b).

(** ** [bool], [f32] and fixed arrays. *)

Definition encode_bool (b : bool) : list Z := [if b then 1 else 0].

Definition decode_bool : Dec bool :=
  b <-- read_u8 ;;
  if b =? 0 then dec_ret false
  else if b =? 1 then dec_ret true
  else dec_fail (InvalidBooleanValue b).

Definition encode_f32 (bits : f32) : list Z := le_bytes 4 bits.
Definition decode_f32 : Dec f32 := read_le 4.

Definition encode_array {A} (enc : A -> list Z) (xs : list A) : list Z :=
  concat (map enc xs).

Fixpoint decode_array {A} (n : nat) (d : Dec A) : Dec (list A) :=
  match n with
  | O => dec_ret []
  | S n' => x <-- d ;; xs <-- decode_array n' d ;; dec_ret (x :: xs)
  end.

(** ** The derived codecs of the two packet unions. *)

Definition encode_ReliablePacket (p : ReliablePacket) : list Z :=
  match p with
  | Handshake port => varint_encode 0 ++ varint_encode port
  | HandshakeRes id => varint_encode 1 ++ varint_encode id
  | MovementInput ds rs =>
      varint_encode 2 ++ encode_array encode_bool ds ++ encode_array encode_f32 rs
  end.

Definition decode_ReliablePacket : Dec ReliablePacket :=
  tag <-- varint_decode U32 ;;
  if tag =? 0 then port <-- varint_decode U16 ;; dec_ret (Handshake port)
  else if tag =? 1 then id <-- varint_decode U32 ;; dec_ret (HandshakeRes id)
  else if tag =? 2 then
    ds <-- decode_array 6 decode_bool ;;
    rs <-- decode_array 2 decode_f32 ;;
    dec_ret (MovementInput ds rs)
  else dec_fail (UnexpectedVariant tag).

Definition encode_UnreliablePacket (p : UnreliablePacket) : list Z := match p with end.

(** The derive of an enum without variants refuses every input. *)
Definition decode_UnreliablePacket : Dec UnreliablePacket := dec_fail EmptyEnum.

(** ** The codec interface. *)

Class Codec (A : Type) := {
  encode : A -> list Z;
  decode : Dec A;
  codec_wf : A -> bool;
}.

#[export] Instance ReliablePacket_codec : Codec ReliablePacket :=
  {| encode := encode_ReliablePacket; decode := decode_ReliablePacket;
     codec_wf := packet_wf |}.

#[export] Instance UnreliablePacket_codec : Codec UnreliablePacket :=
  {| encode := encode_UnreliablePacket; decode := decode_UnreliablePacket;
     codec_wf := fun _ => true |}.

(** The laws a lawful codec satisfies: it emits bytes, and decoding
    what it emitted, whatever follows, gives the value back and leaves
    the rest. *)
Class CodecLaws (A : Type) `{Codec A} := {
  encode_is_bytes : forall a, codec_wf a = true -> Forall is_byte (encode a);
  decode_encode : forall a rest, codec_wf a = true -> decode (encode a ++ rest) = Ok (a, rest);
}.

(** ** Decoder lemmas. *)

#[local] Arguments le_bytes : simpl never.
#[local] Arguments read_le : simpl never.
#[local] Arguments varint_encode : simpl never.
#[local] Arguments encode_array : simpl never.

Lemma dec_bind_Ok {A B} (d : Dec A) (k : A -> Dec B) bs a r :
  d bs = Ok (a, r) -> dec_bind d k bs = k a r.
Proof. unfold dec_bind. intros ->. reflexivity. Qed.

Lemma dec_bind_Err {A B} (d : Dec A) (k : A -> Dec B) bs e :
  d bs = Err e -> dec_bind d k bs = Err e.
Proof. unfold dec_bind. intros ->. reflexivity. Qed.

Lemma read_bytes_app n l rest :
  length l = n -> read_bytes n (l ++ rest) = Ok (l, rest).
Proof.
  intros <-. unfold read_bytes. rewrite length_app.
  destruct (Nat.ltb_spec (length l + length rest) (length l)); [lia|].
  rewrite take_app_length, drop_app_length. reflexivity.
Qed.

Lemma read_bytes_short n l : (length l < n)%nat -> read_bytes n l = Err UnexpectedEnd.
Proof. intros H. unfold read_bytes. destruct (Nat.ltb_spec (length l) n); [reflexivity | lia]. Qed.

Lemma read_le_bytes n v rest :
  0 <= v < 2 ^ (8 * Z.of_nat n) -> read_le n (le_bytes n v ++ rest) = Ok (v, rest).
Proof.
  intros Hv. unfold read_le.
  rewrite (dec_bind_Ok _ _ _ (le_bytes n v) rest) by (apply read_bytes_app, length_le_bytes).
  unfold dec_ret. rewrite le_value_le_bytes_small by exact Hv. reflexivity.
Qed.

#[export] Hint Resolve read_bytes_app read_le_bytes : rbmp.

(** Every integer of the target width survives a varint round trip. *)
(** After the marker byte, a varint decoder reads [n] little-endian
    bytes; the encoder's bytes are hidden behind a variable so that
    [simpl] computes the marker tests and nothing else. *)
Ltac varint_case n :=
  let Hr := fresh "Hr" in
  match goal with
  | |- context [le_bytes n ?v ++ ?rest] =>
      pose proof (read_le_bytes n v rest ltac:(simpl Z.of_nat; lia)) as Hr;
      revert Hr; generalize (le_bytes n v ++ rest); intros ? Hr;
      unfold varint_decode, dec_bind; simpl; exact Hr
  end.

Lemma varint_roundtrip w v rest :
  0 <= v < int_max w -> varint_decode w (varint_encode v ++ rest) = Ok (v, rest).
Proof.
  intros Hv. unfold varint_encode.
  destruct (Z.leb_spec v SINGLE_BYTE_MAX) as [H1|H1].
  { unfold varint_decode, dec_bind; simpl. rewrite (proj2 (Z.leb_le _ _) H1). reflexivity. }
  destruct (Z.ltb_spec v (2 ^ 16)) as [H2|H2];
    [cbv beta iota; rewrite <- app_comm_cons; varint_case 2%nat|].
  destruct (Z.ltb_spec v (2 ^ 32)) as [H3|H3];
    destruct w; simpl in Hv; try lia; cbv beta iota; rewrite <- app_comm_cons;
    [varint_case 4%nat | varint_case 4%nat | varint_case 8%nat].
Qed.

Lemma varint_encode_bytes v : 0 <= v -> Forall is_byte (varint_encode v).
Proof.
  intros Hv. unfold varint_encode, is_byte, SINGLE_BYTE_MAX, U16_BYTE, U32_BYTE, U64_BYTE.
  destruct (Z.leb_spec v 250); [repeat constructor; lia|].
  destruct (Z.ltb_spec v (2 ^ 16)); [|destruct (Z.ltb_spec v (2 ^ 32))];
    (constructor; [lia | apply le_bytes_bytes]).
Qed.

Lemma bool_roundtrip b rest : decode_bool (encode_bool b ++ rest) = Ok (b, rest).
Proof. destruct b; reflexivity. Qed.

Lemma f32_roundtrip x rest :
  0 <= x < 2 ^ 32 -> decode_f32 (encode_f32 x ++ rest) = Ok (x, rest).
Proof. intros Hx. apply read_le_bytes. exact Hx. Qed.

(** A fixed array decodes element by element: what each element's
    decoder gives back, the array's decoder gives back. *)
Lemma array_roundtrip {A} (enc : A -> list Z) (d : Dec A) (xs : list A) rest :
  Forall (fun x => forall r, d (enc x ++ r) = Ok (x, r)) xs ->
  decode_array (length xs) d (encode_array enc xs ++ rest) = Ok (xs, rest).
Proof.
  intros Hall. revert rest. induction Hall as [|x xs Hx _ IH]; intros rest; [reflexivity|].
  unfold encode_array in *. cbn [decode_array length map concat]. rewrite <- app_assoc.
  rewrite (dec_bind_Ok _ _ _ x (concat (map enc xs) ++ rest)) by apply Hx.
  rewrite (dec_bind_Ok _ _ _ xs rest) by apply IH. reflexivity.
Qed.

(** One decoding step over bytes an encoder produced. *)
Ltac dec_step lem :=
  rewrite <- ?app_assoc;
  erewrite dec_bind_Ok; [| apply lem]; cbn beta.

(** The packet codec's prefix round trip, shared by the codec laws and
    the framing layer. *)
Lemma decode_encode_ReliablePacket p rest :
  packet_wf p = true ->
  decode_ReliablePacket (encode_ReliablePacket p ++ rest) = Ok (p, rest).
Proof.
  rewrite packet_wf_spec. unfold decode_ReliablePacket.
  destruct p as [port|id|ds rs]; unfold encode_ReliablePacket; cbv beta iota.
  - intros Hp. dec_step varint_roundtrip; [|simpl; lia]. simpl.
    dec_step varint_roundtrip; [reflexivity | simpl; lia].
  - intros Hi. dec_step varint_roundtrip; [|simpl; lia]. simpl.
    dec_step varint_roundtrip; [reflexivity | simpl; lia].
  - intros (Hds & Hrs & Hr). rewrite <- Hds, <- Hrs.
    dec_step varint_roundtrip; [|simpl; lia]. simpl.
    dec_step @array_roundtrip; [| apply Forall_forall; intros; apply bool_roundtrip].
    dec_step @array_roundtrip; [reflexivity|].
    eapply Forall_impl; [exact Hr|]. intros x Hx r. apply f32_roundtrip, Hx.
Qed.

(** C1: every well-formed [ReliablePacket] survives the derived codec: the
    decoder gives back the packet and exactly the bytes that followed. *)
Theorem reliable_packet_roundtrip p rest :
  packet_wf p = true ->
  decode_ReliablePacket (encode_ReliablePacket p ++ rest) = Ok (p, rest).
Proof. apply decode_encode_ReliablePacket. Qed.

Lemma encode_ReliablePacket_bytes p :
  packet_wf p = true -> Forall is_byte (encode_ReliablePacket p).
Proof.
  rewrite packet_wf_spec. unfold encode_ReliablePacket, encode_array.
  destruct p as [port|id|ds rs]; intros Hp; rewrite ?Forall_app;
    repeat split; try (apply varint_encode_bytes; lia).
  - apply Forall_concat, Forall_map, Forall_forall. intros [] _; repeat constructor; unfold is_byte; lia.
  - apply Forall_concat, Forall_map, Forall_forall. intros x _. apply le_bytes_bytes.
Qed.

#[export] Instance ReliablePacket_codec_laws : CodecLaws ReliablePacket.
Proof.
  split; [apply encode_ReliablePacket_bytes|].
  intros a rest H. apply decode_encode_ReliablePacket, H.
Qed.

#[export] Instance UnreliablePacket_codec_laws : CodecLaws UnreliablePacket.
Proof. split; intros []. Qed.

(** Every encoding starts with the variant tag, so none is empty. *)
Lemma encode_ReliablePacket_nonempty p : encode_ReliablePacket p <> [].
Proof. destruct p; simpl; discriminate. Qed.

(** C29: a varint-encoded variant index outside [0..=2] is refused as
    [UnexpectedVariant], whatever follows it. *)
Theorem decode_unknown_variant tag rest :
  3 <= tag < 2 ^ 32 ->
  decode_ReliablePacket (varint_encode tag ++ rest) = Err (UnexpectedVariant tag).
Proof.
  intros Ht. unfold decode_ReliablePacket.
  erewrite dec_bind_Ok by (apply varint_roundtrip; simpl; lia). cbn beta.
  destruct (Z.eqb_spec tag 0), (Z.eqb_spec tag 1), (Z.eqb_spec tag 2); try lia.
  reflexivity.
Qed.

(** ** Truncated input.

    [refuses_prefixes d bs]: on every strict prefix of [bs], [d] fails
    with [UnexpectedEnd] and returns nothing. *)
Definition refuses_prefixes {A} (d : Dec A) (bs : list Z) : Prop :=
  forall l extra, l ++ extra = bs -> extra <> [] -> d l = Err UnexpectedEnd.

Lemma refuses_prefixes_ret {A} (a : A) : refuses_prefixes (dec_ret a) [].
Proof. intros l extra Heq Hne. apply app_nil in Heq. tauto. Qed.

Lemma refuses_prefixes_read_u8 b : refuses_prefixes read_u8 [b].
Proof.
  intros [|c l] extra Heq Hne; [reflexivity|].
  destruct l; simpl in Heq; [|discriminate]. injection Heq as _ Hx. contradiction.
Qed.

Lemma refuses_prefixes_read_le n bs : length bs = n -> refuses_prefixes (read_le n) bs.
Proof.
  intros Hlen l extra Heq Hne. unfold read_le. apply dec_bind_Err, read_bytes_short.
  destruct extra; [congruence|]. apply (f_equal length) in Heq.
  rewrite length_app in Heq. simpl in Heq. lia.
Qed.

(** Sequencing: once the first decoder has consumed its whole encoding,
    the second one's refusal takes over. *)
Lemma refuses_prefixes_bind {A B} (d : Dec A) (k : A -> Dec B) e1 x e2 :
  (forall r, d (e1 ++ r) = Ok (x, r)) ->
  refuses_prefixes d e1 -> refuses_prefixes (k x) e2 ->
  refuses_prefixes (dec_bind d k) (e1 ++ e2).
Proof.
  intros Hd H1 H2 l extra Heq Hne.
  destruct (app_eq_inv _ _ _ _ Heq) as [(m & -> & ->) | (m & -> & ->)].
  - erewrite dec_bind_Ok by apply Hd. apply (H2 m extra); auto.
  - destruct m as [|b m].
    + rewrite app_nil_r in Hd. erewrite dec_bind_Ok by (rewrite <- (app_nil_r l); apply Hd).
      apply (H2 [] e2); auto.
    + apply dec_bind_Err, (H1 l (b :: m)); [reflexivity | discriminate].
Qed.

Ltac refuse_bind lem :=
  eapply refuses_prefixes_bind; [intros ?; apply lem | | cbn beta].

Lemma varint_refuses_prefixes w v :
  0 <= v < int_max w -> refuses_prefixes (varint_decode w) (varint_encode v).
Proof.
  intros Hv. unfold varint_decode, varint_encode.
  destruct (Z.leb_spec v SINGLE_BYTE_MAX) as [H1|H1].
  { rewrite <- (app_nil_r [v]). eapply refuses_prefixes_bind;
      [reflexivity | apply refuses_prefixes_read_u8 | cbn beta].
    rewrite (proj2 (Z.leb_le _ _) H1). apply refuses_prefixes_ret. }
  destruct (Z.ltb_spec v (2 ^ 16)); [|destruct (Z.ltb_spec v (2 ^ 32))];
    [| destruct w; simpl in Hv; try lia | destruct w; simpl in Hv; try lia];
    (match goal with |- context [?m :: le_bytes ?n v] =>
       change (m :: le_bytes n v) with ([m] ++ le_bytes n v) end);
    (eapply refuses_prefixes_bind; [reflexivity | apply refuses_prefixes_read_u8 | cbn beta]);
    simpl; apply refuses_prefixes_read_le, length_le_bytes.
Qed.

Lemma array_refuses_prefixes {A} (enc : A -> list Z) (d : Dec A) (xs : list A) :
  Forall (fun x => (forall r, d (enc x ++ r) = Ok (x, r)) /\ refuses_prefixes d (enc x)) xs ->
  refuses_prefixes (decode_array (length xs) d) (encode_array enc xs).
Proof.
  induction 1 as [|x xs [Hx Hx'] Hall IH]; [apply refuses_prefixes_ret|].
  unfold encode_array in *. cbn [decode_array length map concat].
  eapply refuses_prefixes_bind; [apply Hx | exact Hx' | cbn beta].
  rewrite <- (app_nil_r (concat (map enc xs))).
  eapply refuses_prefixes_bind; [| exact IH | apply refuses_prefixes_ret].
  intros r. apply (array_roundtrip enc d xs r).
  eapply Forall_impl; [exact Hall | intros y Hy; apply Hy].
Qed.

Lemma bool_refuses_prefixes b : refuses_prefixes decode_bool (encode_bool b).
Proof.
  intros [|c l] extra Heq Hne; [reflexivity|].
  destruct b, l; simpl in Heq; injection Heq as _ Hx; try discriminate Hx; contradiction.
Qed.

Ltac refuse_step rt rf :=
  eapply refuses_prefixes_bind; [intros ?; apply rt | apply rf | simpl].

(** C13: the decoder never returns a partial packet: on every strict
    prefix of a well-formed packet's encoding it fails with
    [UnexpectedEnd]. *)
Theorem decode_truncated_fails p l extra :
  packet_wf p = true -> l ++ extra = encode_ReliablePacket p -> extra <> [] ->
  decode_ReliablePacket l = Err UnexpectedEnd.
Proof.
  intros Hp. revert l extra.
  enough (refuses_prefixes decode_ReliablePacket (encode_ReliablePacket p)) by eauto.
  apply packet_wf_spec in Hp. unfold decode_ReliablePacket.
  destruct p as [port|id|ds rs]; unfold encode_ReliablePacket; cbv beta iota.
  1, 2: match goal with |- refuses_prefixes _ (_ ++ ?e) => rewrite <- (app_nil_r e) end;
    refuse_step varint_roundtrip varint_refuses_prefixes; try (simpl; lia);
    refuse_step varint_roundtrip varint_refuses_prefixes; try (simpl; lia);
    apply refuses_prefixes_ret.
  destruct Hp as (Hds & Hrs & Hr). rewrite <- Hds, <- Hrs.
  rewrite <- (app_nil_r (encode_array encode_f32 rs)).
  refuse_step varint_roundtrip varint_refuses_prefixes; try (simpl; lia).
  eapply refuses_prefixes_bind;
    [intros ?; apply array_roundtrip | apply array_refuses_prefixes | simpl].
  1, 2: apply Forall_forall; intros b _; auto using bool_roundtrip, bool_refuses_prefixes.
  eapply refuses_prefixes_bind;
    [intros ?; apply array_roundtrip | apply array_refuses_prefixes | apply refuses_prefixes_ret].
  1, 2: eapply Forall_impl; [exact Hr|]; intros x Hx; simpl.
  - intros r'. apply f32_roundtrip, Hx.
  - split; [intros r'; apply f32_roundtrip, Hx | apply refuses_prefixes_read_le, length_le_bytes].
Qed.

Lemma varint_encode_length v : (length (varint_encode v) <= 9)%nat.
Proof.
  unfold varint_encode.
  repeat case_match; simpl; rewrite ?length_le_bytes; lia.
Qed.

Lemma encode_ReliablePacket_length p :
  packet_wf p = true -> (length (encode_ReliablePacket p) <= 18)%nat.
Proof.
  rewrite packet_wf_spec. unfold encode_ReliablePacket, encode_array.
  destruct p as [port|id|ds rs]; intros Hp; rewrite ?length_app.
  1, 2: simpl; match goal with |- context [varint_encode ?v] =>
          pose proof (varint_encode_length v) end; lia.
  destruct Hp as (Hds & Hrs & _).
  do 6 (destruct ds as [|? ds]; [discriminate|]; simpl in Hds); destruct ds; [|discriminate].
  do 2 (destruct rs as [|? rs]; [discriminate|]; simpl in Hrs); destruct rs; [|discriminate].
  simpl. rewrite ?length_app, ?length_le_bytes. simpl. lia.
Qed.

(** ** Witnesses at concrete inputs. *)

(** The spec's scenario packet, followed by one unrelated byte. *)
Lemma reliable_packet_roundtrip_witness :
  decode_ReliablePacket
    (encode_ReliablePacket (MovementInput [true; false; false; false; false; false] [0; 0]) ++ [7])
  = Ok (MovementInput [true; false; false; false; false; false] [0; 0], [7]).
Proof. apply reliable_packet_roundtrip. reflexivity. Defined.

Lemma decode_unknown_variant_witness :
  decode_ReliablePacket (varint_encode 3 ++ [0]) = Err (UnexpectedVariant 3).
Proof. apply decode_unknown_variant. lia. Defined.

(** [HandshakeRes 300] is [1; 251; 44; 1]; its first two bytes alone. *)
Lemma decode_truncated_fails_witness :
  decode_ReliablePacket [1; 251] = Err UnexpectedEnd.
Proof.
  apply (decode_truncated_fails (HandshakeRes 300) [1; 251] [44; 1]);
    [reflexivity | vm_compute; reflexivity | discriminate].
Defined.
