(* ===== verification/BincodeExt.v ===== *)
(** * The stream helpers of [src/shared/src/bincode_ext.rs]

    [read_decoded] decodes a value from a reader and [write_encoded]
    appends a value's encoding to a writer; both [unwrap] the bincode
    result, so a decoding error is a panic.  [ToBuf::to_buf] encodes
    into a slice borrowed from an empty [Vec].  Panics are values of
    [Panic]: the error a [.unwrap()] hit, or the message of an explicit
    [panic!].  [ReliablePacket::to_buf] of [protocol.rs] is here too,
    since it is [write_encoded] into a fresh buffer. *)

From stdpp Require Import strings.
From S2P Require Import Prelude Protocol Bincode.

(** bincode's [EncodeError::UnexpectedEnd]: the target slice is full. *)
Inductive EncodeError := EncodeUnexpectedEnd.

Inductive Panic : Type :=
| unwrap_decode_error (e : DecodeError)
| unwrap_encode_error (e : EncodeError)
| unwrap_io_error (e : IoError)
| explicit_panic (msg : string).

(** The error [decode_from_std_read] returns for a decoder's error: its
    [IoReader] turns running out of input into [Io(UnexpectedEof)]. *)
Definition std_read_error (e : DecodeError) : DecodeError :=
  match e with UnexpectedEnd => Io UnexpectedEof | e => e end.

(** [BincodeStreamReadExt::read_decoded] on a byte reader
    ([bincode::decode_from_std_read(self, standard()).unwrap()]): the
    decoder reads what it needs and leaves the rest of the reader. *)
Definition read_decoded {D} `{Codec D} (reader : list Z) : result (D * list Z) Panic :=
  res_map_err (fun e => unwrap_decode_error (std_read_error e)) (decode reader).

(** [BincodeStreamWriteExt::write_encoded] on a [Vec<u8>] writer, which
    never fails: the encoding is appended. *)
Definition write_encoded {E} `{Codec E} (data : E) (writer : list Z) : list Z :=
  writer ++ encode data.

(** [bincode::encode_into_slice] into a slice of [slice_len] bytes: the
    encoding must fit, or it fails with [UnexpectedEnd]. *)
Definition encode_into_slice {E} `{Codec E} (data : E) (slice_len : nat)
  : result nat EncodeError :=
  let bytes := encode data in
  if (length bytes <=? slice_len)%nat then Ok (length bytes) else Err EncodeUnexpectedEnd.

(** [impl<D: Encode> ToBuf for &D]: [buf] is a new, empty [Vec], and
    [&mut buf] coerces to a slice of its length, zero. *)
Definition ToBuf_to_buf {D} `{Codec D} (self : D) : result (list Z) Panic :=
  let buf : list Z := [] in
  match encode_into_slice self (length buf) with
  | Ok _ => Ok buf
  | Err e => Err (unwrap_encode_error e)
  end.

(** [ReliablePacket::to_buf] and [UnreliablePacket::to_buf]
    ([protocol.rs]): [write_encoded] into a new [Vec]. *)
Definition ReliablePacket_to_buf (self : ReliablePacket) : list Z := write_encoded self [].
Definition UnreliablePacket_to_buf (self : UnreliablePacket) : list Z := write_encoded self [].

Section Lawful.
Context {A : Type} `{CodecLaws A}.

(** For a lawful codec, [read_decoded] gives back what [write_encoded]
    wrote into an empty buffer, leaving whatever followed. *)
Lemma read_decoded_write_encoded (a : A) rest :
  codec_wf a = true -> read_decoded (write_encoded a [] ++ rest) = Ok (a, rest).
Proof.
  intros Hwf. unfold read_decoded, write_encoded. simpl.
  rewrite decode_encode by exact Hwf. reflexivity.
Qed.
End Lawful.

(** C34: [ToBuf::to_buf] panics on every packet: the encoding of a
    [ReliablePacket] is never empty and the slice it is written into
    has length zero. *)
Theorem ToBuf_to_buf_panics (p : ReliablePacket) :
  ToBuf_to_buf p = Err (unwrap_encode_error EncodeUnexpectedEnd).
Proof.
  unfold ToBuf_to_buf, encode_into_slice. simpl.
  destruct (encode_ReliablePacket p) eqn:E; [by apply encode_ReliablePacket_nonempty in E|].
  reflexivity.
Qed.
