(* ===== verification/PacketExt.v ===== *)
(** * Packet framing over the two transports ([src/shared/src/packet_ext.rs])

    The two traits [PacketStreamReadExt] and [PacketStreamWriteExt] are
    classes, with one instance for [TcpStream] and one for [UdpSocket],
    as in the source.
    - A [TcpStream] is the bytes still to be read from the peer
      ([tcp_rx]: everything it sends before closing) and the bytes
      written so far ([tcp_tx]).  [read_exact] past the end of [tcp_rx]
      is [UnexpectedEof]; writes do not fail (network errors are not
      modelled).
    - A [UdpSocket] is the queue of datagrams still to arrive, with
      their source address, and the datagrams sent.  [recv] into a
      buffer of [k] bytes pops one datagram and copies at most [k]
      bytes of it into the buffer, the rest of the datagram is lost.
      A [recv] with no datagram left blocks: reads return [None].
    Targets are 64-bit: [usize::to_be_bytes] gives [USIZE_BYTES = 8]
    bytes.  [tcp_read_reliable_n] is a caller reading [n] packets one
    after the other, and [spec_frames] a stream of spec frames; they
    state the order in which the reliable channel is read. *)

From stdpp Require Import strings.
From S2P Require Import Prelude Protocol Bincode BincodeExt.

Record SocketAddr := { addr_ip : Z; addr_port : Z }.

Record TcpStream := { tcp_rx : list Z; tcp_tx : list Z }.

Record UdpSocket := { udp_rx : list (SocketAddr * list Z); udp_tx : list (list Z) }.

Definition USIZE_BYTES : nat := 8.

(** ** The transport primitives. *)

Definition tcp_read_exact (n : nat) (s : TcpStream) : result (list Z * TcpStream) IoError :=
  if (length (tcp_rx s) <? n)%nat then Err UnexpectedEof
  else Ok (take n (tcp_rx s), {| tcp_rx := drop n (tcp_rx s); tcp_tx := tcp_tx s |}).

Definition tcp_write_all (bytes : list Z) (s : TcpStream) : TcpStream :=
  {| tcp_rx := tcp_rx s; tcp_tx := tcp_tx s ++ bytes |}.

(** [recv]/[recv_from] into [buf]: the first [n] bytes of [buf] are
    overwritten by the datagram's, [n] bytes are reported, and the
    sender's address is returned. *)
Definition udp_recv_into (buf : list Z) (s : UdpSocket)
  : option (list Z * nat * SocketAddr * UdpSocket) :=
  match udp_rx s with
  | [] => None
  | (a, d) :: ds =>
      let n := Nat.min (length buf) (length d) in
      Some (take n d ++ drop n buf, n, a, {| udp_rx := ds; udp_tx := udp_tx s |})
  end.

Definition udp_send (bytes : list Z) (s : UdpSocket) : UdpSocket :=
  {| udp_rx := udp_rx s; udp_tx := udp_tx s ++ [bytes] |}.

Definition unwrap_io {T} (r : result T IoError) : result T Panic :=
  res_map_err unwrap_io_error r.

(** ** The two traits. *)

Class PacketStreamReadExt (S : Type) := {
  read_reliable : S -> option (result (ReliablePacket * S) Panic);
  read_unreliable : S -> option (result (UnreliablePacket * S) Panic);
  read_unreliable_from : S -> option (result ((UnreliablePacket * SocketAddr) * S) Panic);
}.

Class PacketStreamWriteExt (S : Type) := {
  write_reliable : ReliablePacket -> S -> result S Panic;
  write_unreliable : UnreliablePacket -> S -> result S Panic;
}.

(** [impl PacketStreamReadExt for TcpStream]: a 4-byte big-endian
    length, then that many bytes, decoded. *)
Definition tcp_read_reliable (s : TcpStream) : result (ReliablePacket * TcpStream) Panic :=
  let! (buf, s) := unwrap_io (tcp_read_exact 4 s) in
  let size := be_value buf in
  let! (buf, s) := unwrap_io (tcp_read_exact (Z.to_nat size) s) in
  let! (p, _) := read_decoded buf in
  Ok (p, s).

Definition tcp_panic_unreliable_recv {T} : result T Panic :=
  Err (explicit_panic "unreliable packets should not be received through TCP.").

#[export] Instance TcpStream_read : PacketStreamReadExt TcpStream := {|
  read_reliable s := Some (tcp_read_reliable s);
  read_unreliable _ := Some tcp_panic_unreliable_recv;
  read_unreliable_from _ := Some tcp_panic_unreliable_recv;
|}.

(** [impl PacketStreamReadExt for UdpSocket]: [recv] into a 4-byte array
    for the length (which is then unused), then [recv] into
    [Vec::new()], a buffer of length zero. *)
Definition udp_read_payload (s : UdpSocket) : option (list Z * SocketAddr * UdpSocket) :=
  '(buf, _, addr, s) ← udp_recv_into (repeat 0 4) s;
  let _size := be_value buf in
  '(buf, _, _, s) ← udp_recv_into [] s;
  Some (buf, addr, s).

Definition udp_read_unreliable_from (s : UdpSocket)
  : option (result ((UnreliablePacket * SocketAddr) * UdpSocket) Panic) :=
  '(buf, addr, s) ← udp_read_payload s;
  Some (let! (p, _) := read_decoded buf in Ok ((p, addr), s)).

#[export] Instance UdpSocket_read : PacketStreamReadExt UdpSocket := {|
  read_reliable _ :=
    Some (Err (explicit_panic "reliable packets should not be received through UDP."));
  read_unreliable s :=
    '(buf, _, s) ← udp_read_payload s;
    Some (let! (p, _) := read_decoded buf in Ok (p, s));
  read_unreliable_from := udp_read_unreliable_from;
|}.

(** [impl PacketStreamWriteExt for TcpStream]: the encoding's length as a
    [usize] in big-endian, then the encoding. *)
Definition tcp_write_reliable (packet : ReliablePacket) (s : TcpStream) : result TcpStream Panic :=
  let buf := write_encoded packet [] in
  let s := tcp_write_all (be_bytes USIZE_BYTES (Z.of_nat (length buf))) s in
  let s := tcp_write_all buf s in
  Ok s.

#[export] Instance TcpStream_write : PacketStreamWriteExt TcpStream := {|
  write_reliable := tcp_write_reliable;
  write_unreliable _ _ := Err (explicit_panic "unreliable packets should not be sent through TCP.");
|}.

(** [impl PacketStreamWriteExt for UdpSocket], lines 84-88 on the
    encoded [buf]: [reserve] leaves the contents alone, [split_off(0)]
    moves all of [buf] into [v] and leaves [buf] empty, the length of
    that empty [buf] is appended, then [v]. *)
Definition udp_frame (buf : list Z) : list Z :=
  let v := drop 0 buf in
  let buf := take 0 buf in
  let buf := buf ++ be_bytes USIZE_BYTES (Z.of_nat (length buf)) in
  buf ++ v.

#[export] Instance UdpSocket_write : PacketStreamWriteExt UdpSocket := {|
  write_reliable _ _ := Err (explicit_panic "reliable packets should not be sent through UDP.");
  write_unreliable packet s := Ok (udp_send (udp_frame (write_encoded packet [])) s);
|}.

(** The wire format of spec section 6: a 4-byte big-endian length, then
    the payload. *)
Definition spec_frame (payload : list Z) : list Z :=
  be_bytes 4 (Z.of_nat (length payload)) ++ payload.

(** A caller of the reliable channel reading [n] packets, one
    [read_reliable] after the other; the first panic ends it. *)
Fixpoint tcp_read_reliable_n (n : nat) (s : TcpStream)
  : result (list ReliablePacket * TcpStream) Panic :=
  match n with
  | O => Ok ([], s)
  | S n =>
      let! (p, s) := tcp_read_reliable s in
      let! (ps, s) := tcp_read_reliable_n n s in
      Ok (p :: ps, s)
  end.

(** The bytes of a sequence of spec frames, one per packet. *)
Definition spec_frames (ps : list ReliablePacket) : list Z :=
  concat (map (fun p => spec_frame (encode_ReliablePacket p)) ps).

(** ** Lemmas on the primitives. *)

Lemma tcp_read_exact_app n l rest tx :
  length l = n ->
  tcp_read_exact n {| tcp_rx := l ++ rest; tcp_tx := tx |}
  = Ok (l, {| tcp_rx := rest; tcp_tx := tx |}).
Proof.
  intros <-. unfold tcp_read_exact. simpl. rewrite length_app.
  destruct (Nat.ltb_spec (length l + length rest) (length l)); [lia|].
  rewrite take_app_length, drop_app_length. reflexivity.
Qed.

Lemma tcp_read_exact_short n rx tx :
  (length rx < n)%nat -> tcp_read_exact n {| tcp_rx := rx; tcp_tx := tx |} = Err UnexpectedEof.
Proof. intros H. unfold tcp_read_exact. simpl. destruct (Nat.ltb_spec (length rx) n); [reflexivity | lia]. Qed.

(** What one [write_reliable] puts on a TCP stream. *)
Lemma tcp_write_reliable_tx p s :
  tcp_write_reliable p s =
  Ok {| tcp_rx := tcp_rx s;
        tcp_tx := tcp_tx s ++ be_bytes USIZE_BYTES (Z.of_nat (length (encode_ReliablePacket p)))
                           ++ encode_ReliablePacket p |}.
Proof.
  unfold tcp_write_reliable, tcp_write_all, write_encoded. cbn [tcp_tx tcp_rx app].
  rewrite app_assoc. reflexivity.
Qed.

Lemma encode_length_u32 p :
  packet_wf p = true -> 0 <= Z.of_nat (length (encode_ReliablePacket p)) < 2 ^ 32.
Proof. intros Hp. pose proof (encode_ReliablePacket_length p Hp). lia. Qed.

(** One frame of the spec, read by [read_reliable]. *)
Lemma tcp_read_reliable_frame p rest tx :
  packet_wf p = true ->
  tcp_read_reliable {| tcp_rx := spec_frame (encode_ReliablePacket p) ++ rest; tcp_tx := tx |}
  = Ok (p, {| tcp_rx := rest; tcp_tx := tx |}).
Proof.
  intros Hp. unfold tcp_read_reliable, spec_frame. rewrite <- app_assoc.
  rewrite tcp_read_exact_app by apply length_be_bytes. simpl.
  rewrite be_value_be_bytes_small by (apply encode_length_u32, Hp).
  rewrite Nat2Z.id, tcp_read_exact_app by reflexivity. simpl.
  unfold read_decoded. cbn [decode ReliablePacket_codec].
  rewrite <- (app_nil_r (encode_ReliablePacket p)), decode_encode_ReliablePacket by exact Hp.
  reflexivity.
Qed.

(** Reading past a sequence of frames: the packets come out in order,
    then the reads go on in what follows. *)
Lemma tcp_read_reliable_n_frames ps n rest tx :
  Forall (fun p => packet_wf p = true) ps ->
  tcp_read_reliable_n (length ps + n) {| tcp_rx := spec_frames ps ++ rest; tcp_tx := tx |}
  = let! (qs, s) := tcp_read_reliable_n n {| tcp_rx := rest; tcp_tx := tx |} in Ok (ps ++ qs, s).
Proof.
  induction 1 as [|p ps Hp _ IH].
  - simpl. destruct (tcp_read_reliable_n n _) as [[qs s]|e]; reflexivity.
  - unfold spec_frames in *. cbn [map concat]. rewrite <- app_assoc.
    change (length (p :: ps) + n)%nat with (S (length ps + n)). cbn [tcp_read_reliable_n].
    rewrite tcp_read_reliable_frame by exact Hp.
    simpl. rewrite IH. destruct (tcp_read_reliable_n n _) as [[qs s]|e]; reflexivity.
Qed.

(** C3: the TCP reader implements the framing of the spec: from a 4-byte
    big-endian length followed by a well-formed packet's encoding it
    returns the packet and leaves exactly the bytes after the frame. *)
Theorem tcp_read_reliable_spec_frame p rest tx :
  packet_wf p = true ->
  tcp_read_reliable {| tcp_rx := spec_frame (encode_ReliablePacket p) ++ rest; tcp_tx := tx |}
  = Ok (p, {| tcp_rx := rest; tcp_tx := tx |}).
Proof. apply tcp_read_reliable_frame. Qed.

(** C11: the reliable channel is read in order and exactly once: on a
    stream holding the spec frames of well-formed packets [ps], one
    after the other, [length ps] calls of [read_reliable] return [ps]
    in the order they were framed and leave exactly the bytes after the
    last frame; when nothing follows, one more call hits the end of the
    stream and panics instead of returning a packet. *)
Theorem tcp_read_reliable_ordered ps rest tx :
  Forall (fun p => packet_wf p = true) ps ->
  tcp_read_reliable_n (length ps) {| tcp_rx := spec_frames ps ++ rest; tcp_tx := tx |}
  = Ok (ps, {| tcp_rx := rest; tcp_tx := tx |}) /\
  tcp_read_reliable_n (S (length ps)) {| tcp_rx := spec_frames ps; tcp_tx := tx |}
  = Err (unwrap_io_error UnexpectedEof).
Proof.
  intros Hps. split.
  - rewrite <- (Nat.add_0_r (length ps)), tcp_read_reliable_n_frames by exact Hps.
    simpl. rewrite app_nil_r. reflexivity.
  - rewrite <- (app_nil_r (spec_frames ps)), <- Nat.add_1_r, tcp_read_reliable_n_frames by exact Hps.
    reflexivity.
Qed.

(** C2: the TCP writer and reader disagree on the length prefix: the
    writer sends [buf.len()] as an 8-byte [usize], the reader takes the
    first 4 bytes as the length.  Reading back exactly what one
    [write_reliable] wrote, whatever follows it, reads a length of zero,
    decodes an empty buffer and panics on bincode's [Io(UnexpectedEof)]. *)
Theorem tcp_write_read_reliable_panics p s s' rest tx :
  packet_wf p = true -> tcp_write_reliable p s = Ok s' ->
  tcp_read_reliable {| tcp_rx := drop (length (tcp_tx s)) (tcp_tx s') ++ rest; tcp_tx := tx |}
  = Err (unwrap_decode_error (Io UnexpectedEof)).
Proof.
  intros Hp Hw. rewrite tcp_write_reliable_tx in Hw. apply Ok_inj in Hw. subst s'. cbn [tcp_tx].
  rewrite drop_app_length.
  change USIZE_BYTES with (4 + 4)%nat. rewrite be_bytes_high_zero by (apply encode_length_u32, Hp).
  unfold tcp_read_reliable. rewrite <- !app_assoc.
  rewrite tcp_read_exact_app by reflexivity. simpl.
  reflexivity.
Qed.

(** C30: a length prefix that announces more bytes than the stream holds
    makes [read_exact] hit end-of-file, and [unwrap] panics: no packet,
    partial or whole, is returned. *)
Theorem tcp_read_reliable_truncated_panics n body tx :
  0 <= n < 2 ^ 32 -> (length body < Z.to_nat n)%nat ->
  tcp_read_reliable {| tcp_rx := be_bytes 4 n ++ body; tcp_tx := tx |}
  = Err (unwrap_io_error UnexpectedEof).
Proof.
  intros Hn Hb. unfold tcp_read_reliable.
  rewrite tcp_read_exact_app by apply length_be_bytes. simpl.
  rewrite be_value_be_bytes_small by exact Hn.
  rewrite tcp_read_exact_short by exact Hb. reflexivity.
Qed.

(** C33: the UDP transport never carries a packet.  Its writer frames
    every buffer with eight zero bytes, because [split_off(0)] empties
    [buf] before its length is taken.  Its readers block while fewer
    than two datagrams are queued; otherwise they consume exactly two,
    take the length from the first (and report the first's sender),
    receive the second into [Vec::new()], a zero-length buffer that
    loses all of it, and hand the decoder no byte, so decoding panics. *)
Theorem udp_channel_spec (s : UdpSocket) (buf : list Z) :
  udp_frame buf = repeat 0 USIZE_BYTES ++ buf /\
  match udp_rx s with
  | (a1, _) :: _ :: ds =>
      udp_read_payload s = Some ([], a1, {| udp_rx := ds; udp_tx := udp_tx s |}) /\
      read_unreliable s = Some (Err (unwrap_decode_error EmptyEnum)) /\
      read_unreliable_from s = Some (Err (unwrap_decode_error EmptyEnum))
  | _ => read_unreliable s = None /\ read_unreliable_from s = None
  end.
Proof.
  split; [unfold udp_frame; rewrite drop_0, take_0; reflexivity|].
  destruct s as [[|[a1 d1] [|[a2 d2] ds]] tx]; split; try split; reflexivity.
Qed.

(** ** Witnesses at concrete inputs. *)

Lemma tcp_read_reliable_spec_frame_witness :
  tcp_read_reliable {| tcp_rx := spec_frame (encode_ReliablePacket (Handshake 8081)) ++ [9];
                       tcp_tx := [] |}
  = Ok (Handshake 8081, {| tcp_rx := [9]; tcp_tx := [] |}).
Proof. apply tcp_read_reliable_spec_frame. reflexivity. Defined.

Lemma tcp_write_read_reliable_panics_witness :
  tcp_read_reliable
    {| tcp_rx := drop 0 (tcp_tx {| tcp_rx := [];
                                   tcp_tx := be_bytes USIZE_BYTES 4
                                             ++ encode_ReliablePacket (Handshake 8081) |}) ++ [];
       tcp_tx := [] |}
  = Err (unwrap_decode_error (Io UnexpectedEof)).
Proof.
  apply (tcp_write_read_reliable_panics (Handshake 8081) {| tcp_rx := []; tcp_tx := [] |});
    reflexivity.
Defined.

Lemma tcp_read_reliable_ordered_witness :
  Forall (fun p => packet_wf p = true) [Handshake 8081; HandshakeRes 7] /\
  tcp_read_reliable_n 2 {| tcp_rx := spec_frames [Handshake 8081; HandshakeRes 7] ++ [9]; tcp_tx := [] |}
  = Ok ([Handshake 8081; HandshakeRes 7], {| tcp_rx := [9]; tcp_tx := [] |}) /\
  tcp_read_reliable_n 3 {| tcp_rx := spec_frames [Handshake 8081; HandshakeRes 7]; tcp_tx := [] |}
  = Err (unwrap_io_error UnexpectedEof).
Proof.
  assert (H : Forall (fun p => packet_wf p = true) [Handshake 8081; HandshakeRes 7])
    by (repeat constructor).
  split; [exact H|]. exact (tcp_read_reliable_ordered _ [9] [] H).
Defined.

(** The spec's malformed frame: length 10, four bytes. *)
Lemma tcp_read_reliable_truncated_panics_witness :
  tcp_read_reliable {| tcp_rx := be_bytes 4 10 ++ [1; 2; 3; 4]; tcp_tx := [] |}
  = Err (unwrap_io_error UnexpectedEof).
Proof. apply tcp_read_reliable_truncated_panics; simpl; lia. Defined.
