(* ===== verification/InputState.v ===== *)
(** * The key-state table of the client ([src/client/src/game_loop.rs], lines 12-72)

    [FrameContext] holds, per virtual key code, the last transition of
    the key and the frame it happened in, plus the frame counter.  The
    table is a list of 163 entries indexed by the key code
    ([keycode as usize]); an index outside the table is Rust's bounds
    check panic, [None] here.  The frame counter is a [u64]: the loop's
    [ctx.frame += 1] is taken with wrap-around (release build), as
    [advance_frame].  Durations are nanosecond counts. *)

From S2P Require Import Prelude.

Inductive KeyState := Pressed | Released.

#[export] Instance KeyState_eq_dec : EqDecision KeyState.
Proof. solve_decision. Defined.

(** winit's [ElementState] and the two fields of [KeyboardInput] the
    handler reads. *)
Module ElementState.
Inductive t := Pressed | Released.
End ElementState.

Record KeyboardInput := { input_state : ElementState.t; virtual_keycode : option nat }.

Definition KEY_COUNT : nat := 163.
Definition U64_MOD : Z := 2 ^ 64.

Record FrameContext := {
  is_fixed : bool;
  delta_time : Z;
  fixed_delta_time : Z;
  key_states : list (KeyState * Z);
  frame : Z;
}.

(** The context [client_game_loop] starts from (lines 83-89). *)
Definition initial_ctx : FrameContext := {|
  is_fixed := true; delta_time := 0; fixed_delta_time := 0;
  key_states := replicate KEY_COUNT (Released, 0); frame := 1 |}.

Definition set_key_states (ks : list (KeyState * Z)) (c : FrameContext) : FrameContext :=
  {| is_fixed := is_fixed c; delta_time := delta_time c; fixed_delta_time := fixed_delta_time c;
     key_states := ks; frame := frame c |}.

Definition set_frame (f : Z) (c : FrameContext) : FrameContext :=
  {| is_fixed := is_fixed c; delta_time := delta_time c; fixed_delta_time := fixed_delta_time c;
     key_states := key_states c; frame := f |}.

(** ** The four queries (lines 31-45). *)

Definition just_pressed (c : FrameContext) (keycode : nat) : option bool :=
  (fun st => bool_decide (st = (Pressed, frame c))) <$> key_states c !! keycode.

Definition pressed (c : FrameContext) (keycode : nat) : option bool :=
  (fun st => bool_decide (st.1 = Pressed)) <$> key_states c !! keycode.

Definition just_released (c : FrameContext) (keycode : nat) : option bool :=
  (fun st => bool_decide (st = (Released, frame c))) <$> key_states c !! keycode.

Definition released (c : FrameContext) (keycode : nat) : option bool :=
  (fun st => bool_decide (st.1 = Released)) <$> key_states c !! keycode.

(** ** [handle_keyboard_event] (lines 47-71): a press is recorded only
    on a released key and a release only on a pressed key, stamped with
    the current frame; an event without a virtual key code is ignored. *)
Definition handle_keyboard_event (c : FrameContext) (input : KeyboardInput)
  : option FrameContext :=
  match virtual_keycode input with
  | None => Some c
  | Some k =>
      st ← key_states c !! k;
      match input_state input with
      | ElementState.Pressed =>
          if decide (st.1 = Released)
          then Some (set_key_states (<[k := (Pressed, frame c)]> (key_states c)) c)
          else Some c
      | ElementState.Released =>
          if decide (st.1 = Pressed)
          then Some (set_key_states (<[k := (Released, frame c)]> (key_states c)) c)
          else Some c
      end
  end.

(** [ctx.frame += 1] (line 154). *)
Definition advance_frame (c : FrameContext) : FrameContext :=
  set_frame ((frame c + 1) mod U64_MOD) c.

(** What happens to the table between two queries: keyboard events and
    frame advances, in order. *)
Inductive InputStep := KeyEvent (input : KeyboardInput) | NextFrame.

Fixpoint run_inputs (steps : list InputStep) (c : FrameContext) : option FrameContext :=
  match steps with
  | [] => Some c
  | KeyEvent i :: rest => c' ← handle_keyboard_event c i; run_inputs rest c'
  | NextFrame :: rest => run_inputs rest (advance_frame c)
  end.

Definition press (k : nat) : KeyboardInput :=
  {| input_state := ElementState.Pressed; virtual_keycode := Some k |}.
Definition release (k : nat) : KeyboardInput :=
  {| input_state := ElementState.Released; virtual_keycode := Some k |}.

(** The table's invariant: one entry per key code, a [u64] frame. *)
Definition ctx_wf (c : FrameContext) : Prop :=
  length (key_states c) = KEY_COUNT /\ 0 <= frame c < U64_MOD.

Fixpoint count_frames (steps : list InputStep) : Z :=
  match steps with
  | [] => 0
  | NextFrame :: rest => 1 + count_frames rest
  | KeyEvent _ :: rest => count_frames rest
  end.

(** ** The handler's effect on one entry. *)

Lemma handle_keyboard_event_shape c i c' :
  handle_keyboard_event c i = Some c' ->
  frame c' = frame c /\ length (key_states c') = length (key_states c).
Proof.
  unfold handle_keyboard_event. destruct i as [st [k|]]; simpl; [|by intros [= <-]].
  destruct (key_states c !! k); simpl; [|discriminate].
  destruct st; case_decide; intros [= <-]; simpl; rewrite ?length_insert; done.
Qed.

(** A pressed key stays pressed with its stamp under every event but
    its own release: a repeated press of a held key (the OS key repeat)
    does not refresh the stamp. *)
Lemma handle_keeps_held c i c' k t :
  handle_keyboard_event c i = Some c' -> i <> release k ->
  key_states c !! k = Some (Pressed, t) -> key_states c' !! k = Some (Pressed, t).
Proof.
  unfold handle_keyboard_event, release. destruct i as [st [k'|]]; simpl; [|by intros [= <-]].
  destruct (key_states c !! k') as [p|] eqn:E; simpl; [|discriminate].
  intros Hh Hne Hk. destruct (decide (k' = k)) as [->|Hkk].
  - rewrite Hk in E. injection E as <-.
    destruct st; simpl in Hh; [by injection Hh as <-|congruence].
  - destruct st; case_decide; injection Hh as <-; simpl; rewrite ?list_lookup_insert_ne; done.
Qed.

Lemma advance_frame_mod c :
  0 <= frame c < U64_MOD -> forall n, 0 <= n ->
  (frame (advance_frame c) + n) mod U64_MOD = (frame c + (1 + n)) mod U64_MOD.
Proof.
  intros Hf n Hn. unfold advance_frame, set_frame; simpl.
  rewrite Z.add_mod_idemp_l by (unfold U64_MOD; lia). f_equal. lia.
Qed.

Lemma count_frames_nonneg steps : 0 <= count_frames steps.
Proof. induction steps as [|[] ?]; simpl; lia. Qed.

(** Over a run without a release of [k], a pressed [k] keeps its stamp,
    the table keeps its length, and the frame advances by the number of
    [NextFrame] steps, modulo [2^64]. *)
Lemma run_inputs_held steps : forall c c' k t,
  ctx_wf c -> run_inputs steps c = Some c' ->
  Forall (fun s => s <> KeyEvent (release k)) steps ->
  key_states c !! k = Some (Pressed, t) ->
  ctx_wf c' /\ key_states c' !! k = Some (Pressed, t) /\
  frame c' = (frame c + count_frames steps) mod U64_MOD.
Proof.
  induction steps as [|[i|] steps IH]; intros c c' k t Hwf Hrun Hsteps Hk; simpl in Hrun.
  - injection Hrun as <-. destruct Hwf as [? Hf].
    rewrite Z.add_0_r, Z.mod_small by exact Hf. done.
  - destruct (handle_keyboard_event c i) as [c1|] eqn:Hh; simpl in Hrun; [|discriminate].
    apply Forall_cons in Hsteps as [Hi Hsteps].
    destruct (handle_keyboard_event_shape _ _ _ Hh) as [Hf Hl].
    destruct Hwf as [Hlen Hfr].
    destruct (IH c1 c' k t) as (Hwf' & Hk' & Hfr'); auto.
    + split; congruence.
    + eapply handle_keeps_held; eauto. congruence.
    + split; [done|]. split; [done|]. rewrite Hfr', Hf. reflexivity.
  - apply Forall_cons in Hsteps as [_ Hsteps]. destruct Hwf as [Hlen Hfr].
    assert (Hadv : ctx_wf (advance_frame c)).
    { split; [exact Hlen|]. unfold advance_frame, set_frame; simpl.
      apply Z.mod_pos_bound. unfold U64_MOD; lia. }
    destruct (IH (advance_frame c) c' k t) as (Hwf' & Hk' & Hfr'); auto.
    split; [done|]. split; [done|].
    rewrite Hfr', advance_frame_mod by (auto using count_frames_nonneg). reflexivity.
Qed.

(** C4: edge-triggered input.  A key released at frame [F] and pressed
    during [F] is [just_pressed] in the frames [F + n] exactly when
    [n] is a multiple of [2^64] (so only in [F] itself for every
    reachable [n]), and [pressed] throughout, as long as no release of
    the key arrives; before the press it was not [just_pressed]. *)
Theorem edge_trigger c k c1 steps c2 :
  ctx_wf c -> released c k = Some true ->
  handle_keyboard_event c (press k) = Some c1 ->
  run_inputs steps c1 = Some c2 ->
  Forall (fun s => s <> KeyEvent (release k)) steps ->
  just_pressed c k = Some false /\
  pressed c2 k = Some true /\
  frame c2 = (frame c + count_frames steps) mod U64_MOD /\
  (just_pressed c2 k = Some true <-> count_frames steps mod U64_MOD = 0).
Proof.
  intros Hwf Hrel Hh Hrun Hsteps.
  unfold released, just_pressed in *.
  destruct (key_states c !! k) as [[st t]|] eqn:Hk; simpl in Hrel; [|discriminate].
  injection Hrel as Hrel. apply bool_decide_eq_true in Hrel. simpl in Hrel. subst st.
  unfold handle_keyboard_event in Hh. simpl in Hh. rewrite Hk in Hh. simpl in Hh.
  injection Hh as <-.
  assert (Hlt : (k < length (key_states c))%nat) by (apply lookup_lt_is_Some; eauto).
  destruct (run_inputs_held steps (set_key_states (<[k:=(Pressed, frame c)]> (key_states c)) c)
              c2 k (frame c)) as (_ & Hk2 & Hf2); auto.
  - destruct Hwf. split; simpl; [rewrite length_insert|]; done.
  - simpl. apply list_lookup_insert_eq. exact Hlt.
  - simpl in Hf2. unfold pressed. rewrite Hk2. simpl.
    split; [reflexivity|].
    split; [reflexivity|]. split; [exact Hf2|].
    rewrite Hf2, <- (mod_add_eq_self (frame c) _ U64_MOD) by (unfold U64_MOD; lia || apply Hwf).
    split; [intros [= Hb]; apply bool_decide_eq_true in Hb; congruence|].
    intros Heq. rewrite Heq, bool_decide_true; reflexivity.
Qed.

(** C22: the key table's invariant holds for every event: the handler
    keeps one entry per key code and the frame, and it panics (Rust's
    bounds check) exactly on an event whose key code is outside the
    163-entry table. *)
Theorem handle_keyboard_event_wf c i :
  ctx_wf c ->
  (handle_keyboard_event c i = None <->
     exists k, virtual_keycode i = Some k /\ (KEY_COUNT <= k)%nat) /\
  (forall c', handle_keyboard_event c i = Some c' -> ctx_wf c' /\ frame c' = frame c).
Proof.
  intros [Hlen Hf]. split.
  - unfold handle_keyboard_event. destruct (virtual_keycode i) as [k|]; simpl.
    + destruct (key_states c !! k) eqn:E; simpl.
      * apply lookup_lt_Some in E.
        split; [destruct (input_state i); case_decide; intros Hn; discriminate|].
        intros (k' & [= <-] & Hk). lia.
      * apply lookup_ge_None in E. split; [intros _; exists k; split; [done|lia] | done].
    + split; [discriminate|]. intros (k & ? & _). discriminate.
  - intros c' Hh. destruct (handle_keyboard_event_shape _ _ _ Hh) as [Hf' Hl].
    unfold ctx_wf. rewrite Hf', Hl. auto.
Qed.

Lemma initial_ctx_wf : ctx_wf initial_ctx.
Proof. split; [apply length_replicate | cbn; unfold U64_MOD; lia]. Qed.

(** The loop's initial context is well formed and quiet: every key is
    released and, because the counter starts at 1 while the stamps are
    0, no key is [just_pressed] or [just_released]. *)
Theorem initial_ctx_quiet k :
  (k < KEY_COUNT)%nat ->
  ctx_wf initial_ctx /\ released initial_ctx k = Some true /\
  just_pressed initial_ctx k = Some false /\ just_released initial_ctx k = Some false.
Proof.
  intros Hk. unfold released, just_pressed, just_released; cbn [initial_ctx key_states frame].
  rewrite lookup_replicate_2 by exact Hk. cbn [fmap option_fmap option_map].
  split; [apply initial_ctx_wf|].
  rewrite !bool_decide_true, !bool_decide_false by (simpl; congruence). done.
Qed.

(** ** Witnesses at concrete inputs. *)

(** Key 10 (winit's [A]) pressed in frame 1, then two frames pass and a
    repeated press of the held key arrives. *)
Lemma edge_trigger_witness :
  exists c1 c2,
    handle_keyboard_event initial_ctx (press 10) = Some c1 /\
    run_inputs [NextFrame; KeyEvent (press 10); NextFrame] c1 = Some c2 /\
    just_pressed initial_ctx 10 = Some false /\ pressed c2 10 = Some true /\
    frame c2 = (frame initial_ctx + count_frames [NextFrame; KeyEvent (press 10); NextFrame])
               mod U64_MOD /\
    (just_pressed c2 10 = Some true <->
       count_frames [NextFrame; KeyEvent (press 10); NextFrame] mod U64_MOD = 0).
Proof.
  eexists _, _. split; [reflexivity|]. split; [reflexivity|].
  eapply (edge_trigger initial_ctx 10); [apply initial_ctx_wf
    | reflexivity | reflexivity | reflexivity | repeat constructor; discriminate].
Defined.

Lemma handle_keyboard_event_wf_witness :
  (handle_keyboard_event initial_ctx (press 200) = None <->
     exists k, virtual_keycode (press 200) = Some k /\ (KEY_COUNT <= k)%nat) /\
  (forall c', handle_keyboard_event initial_ctx (press 200) = Some c' ->
     ctx_wf c' /\ frame c' = frame initial_ctx).
Proof. apply handle_keyboard_event_wf. apply initial_ctx_wf. Defined.

Lemma initial_ctx_quiet_witness :
  ctx_wf initial_ctx /\ released initial_ctx 32 = Some true /\
  just_pressed initial_ctx 32 = Some false /\ just_released initial_ctx 32 = Some false.
Proof. apply initial_ctx_quiet. unfold KEY_COUNT; lia. Defined.
