(* ===== verification/Renderer.v ===== *)
(** * The GPU renderer ([src/client/src/renderer.rs])

    [Renderer] keeps what the code reads back: the surface configuration,
    the window size, and, as [configured], every configuration handed
    to [surface.configure] in order (the GPU handles themselves are
    opaque).  The GPU is the environment: [GpuEnv] gives the outcome of
    the three set-up calls the code [unwrap]s and the surface's
    capabilities.  wgpu validates a configuration before applying it
    ([configure_check]): a zero dimension, or one beyond
    [max_texture_dimension_2d] of [Limits::default()] (8192), is a
    validation error, which wgpu's default error handler turns into a
    panic.  A [TextureFormat] is its identity and whether it is sRGB,
    the only property [Renderer::new] asks of it. *)

From Stdlib Require Import QArith.
From S2P Require Import Prelude.

Record TextureFormat := { format_id : Z; is_srgb : bool }.

Inductive PresentMode := AutoVsync | AutoNoVsync | Fifo | FifoRelaxed | Immediate | Mailbox.

Inductive CompositeAlphaMode := AlphaAuto | Opaque | PreMultiplied | PostMultiplied | Inherit.

Record SurfaceCapabilities := {
  formats : list TextureFormat;
  present_modes : list PresentMode;
  alpha_modes : list CompositeAlphaMode;
}.

(** [TextureUsages::RENDER_ATTACHMENT] is bit 4. *)
Definition RENDER_ATTACHMENT : Z := 16.

(** [Limits::default().max_texture_dimension_2d]. *)
Definition MAX_TEXTURE_DIMENSION_2D : Z := 8192.

Record SurfaceConfiguration := {
  usage : Z;
  format : TextureFormat;
  width : Z;
  height : Z;
  present_mode : PresentMode;
  alpha_mode : CompositeAlphaMode;
  view_formats : list TextureFormat;
}.

Record Renderer := {
  surface_configuration : SurfaceConfiguration;
  size : Z * Z;
  configured : list SurfaceConfiguration;
}.

Inductive SurfaceError := SurfaceTimeout | SurfaceOutdated | SurfaceLost | SurfaceOutOfMemory.

Inductive RendererPanic :=
| unwrap_create_surface
| unwrap_request_adapter
| unwrap_request_device
| index_out_of_bounds
| configure_zero_area
| configure_too_large
| unwrap_surface_error (e : SurfaceError).

(** The outcomes of [create_surface], [request_adapter] and
    [request_device], and [surface.get_capabilities(&adapter)]. *)
Record GpuEnv := {
  env_surface : bool;
  env_adapter : bool;
  env_device : bool;
  capabilities : SurfaceCapabilities;
}.

Definition ok_or {T E} (e : E) (o : option T) : result T E :=
  match o with Some x => Ok x | None => Err e end.

(** Lines 52-57: the first sRGB format, else [formats[0]]; the argument
    of [unwrap_or] is evaluated first, so an empty list panics. *)
Definition choose_surface_format (caps : SurfaceCapabilities) : result TextureFormat RendererPanic :=
  let! fallback := ok_or index_out_of_bounds (formats caps !! 0%nat) in
  Ok (match List.find is_srgb (formats caps) with Some f => f | None => fallback end).

(** wgpu's validation of [surface.configure]. *)
Definition configure_check (cfg : SurfaceConfiguration) : result unit RendererPanic :=
  if (width cfg <=? 0) || (height cfg <=? 0) then Err configure_zero_area
  else if (MAX_TEXTURE_DIMENSION_2D <? width cfg) || (MAX_TEXTURE_DIMENSION_2D <? height cfg)
  then Err configure_too_large
  else Ok tt.

(** [Renderer::new] (lines 23-78) for a window of inner size [(w, h)]. *)
Definition Renderer_new (w h : Z) (env : GpuEnv) : result Renderer RendererPanic :=
  let! _ := ok_or unwrap_create_surface (if env_surface env then Some tt else None) in
  let! _ := ok_or unwrap_request_adapter (if env_adapter env then Some tt else None) in
  let! _ := ok_or unwrap_request_device (if env_device env then Some tt else None) in
  let caps := capabilities env in
  let! fmt := choose_surface_format caps in
  let! pm := ok_or index_out_of_bounds (present_modes caps !! 0%nat) in
  let! am := ok_or index_out_of_bounds (alpha_modes caps !! 0%nat) in
  let cfg := {| usage := RENDER_ATTACHMENT; format := fmt; width := w; height := h;
                present_mode := pm; alpha_mode := am; view_formats := [] |} in
  let! _ := configure_check cfg in
  Ok {| surface_configuration := cfg; size := (w, h); configured := [cfg] |}.

Definition with_size (w h : Z) (cfg : SurfaceConfiguration) : SurfaceConfiguration :=
  {| usage := usage cfg; format := format cfg; width := w; height := h;
     present_mode := present_mode cfg; alpha_mode := alpha_mode cfg;
     view_formats := view_formats cfg |}.

(** [Renderer::resize] (lines 80-88): a zero dimension is ignored;
    otherwise the size and the configuration change and the surface is
    reconfigured. *)
Definition resize (w h : Z) (r : Renderer) : result Renderer RendererPanic :=
  if (0 <? w) && (0 <? h) then
    let cfg := with_size w h (surface_configuration r) in
    let! _ := configure_check cfg in
    Ok {| surface_configuration := cfg; size := (w, h); configured := configured r ++ [cfg] |}
  else Ok r.

(** [Renderer::get_output] (lines 90-92). *)
Definition get_output (surface : result unit SurfaceError) : result unit RendererPanic :=
  res_map_err unwrap_surface_error surface.

(** [wgpu::Color] of [create_render_pass] (lines 118-123), exactly. *)
Record Color := { cr : Q; cg : Q; cb : Q; ca : Q }.

Definition CLEAR_COLOR : Color := {| cr := 1#10; cg := 2#10; cb := 3#10; ca := 1 |}.

(** The renderer's invariant: the configuration matches the size, it is
    the last one applied, and every applied one passed validation. *)
Definition valid_extent (cfg : SurfaceConfiguration) : Prop :=
  0 < width cfg <= MAX_TEXTURE_DIMENSION_2D /\ 0 < height cfg <= MAX_TEXTURE_DIMENSION_2D.

Definition renderer_wf (r : Renderer) : Prop :=
  size r = (width (surface_configuration r), height (surface_configuration r)) /\
  last (configured r) = Some (surface_configuration r) /\
  Forall valid_extent (configured r).

(** A renderer as [Renderer::new] builds it for an 800x600 window on a
    surface offering one sRGB format. *)
Definition sample_format : TextureFormat := {| format_id := 1; is_srgb := true |}.

Definition sample_env : GpuEnv := {|
  env_surface := true; env_adapter := true; env_device := true;
  capabilities := {| formats := [{| format_id := 0; is_srgb := false |}; sample_format];
                     present_modes := [Fifo]; alpha_modes := [Opaque] |} |}.

Definition sample_config : SurfaceConfiguration := {|
  usage := RENDER_ATTACHMENT; format := sample_format; width := 800; height := 600;
  present_mode := Fifo; alpha_mode := Opaque; view_formats := [] |}.

Definition sample_renderer : Renderer :=
  {| surface_configuration := sample_config; size := (800, 600); configured := [sample_config] |}.

(** ** Lemmas. *)

Lemma configure_check_ok cfg : configure_check cfg = Ok tt <-> valid_extent cfg.
Proof.
  unfold configure_check, valid_extent, MAX_TEXTURE_DIMENSION_2D.
  destruct (Z.leb_spec (width cfg) 0), (Z.leb_spec (height cfg) 0),
    (Z.ltb_spec 8192 (width cfg)), (Z.ltb_spec 8192 (height cfg));
    simpl; split; intros; try discriminate; try reflexivity; lia.
Qed.

Lemma configure_check_cases cfg :
  (configure_check cfg = Ok tt /\ valid_extent cfg) \/
  (configure_check cfg = Err configure_zero_area /\ (width cfg <= 0 \/ height cfg <= 0)) \/
  (configure_check cfg = Err configure_too_large /\ 0 < width cfg /\ 0 < height cfg /\
   (MAX_TEXTURE_DIMENSION_2D < width cfg \/ MAX_TEXTURE_DIMENSION_2D < height cfg)).
Proof.
  unfold configure_check, valid_extent, MAX_TEXTURE_DIMENSION_2D.
  destruct (Z.leb_spec (width cfg) 0), (Z.leb_spec (height cfg) 0),
    (Z.ltb_spec 8192 (width cfg)), (Z.ltb_spec 8192 (height cfg)); simpl;
    first [ left; split; [reflexivity|lia]
          | right; left; split; [reflexivity|lia]
          | right; right; split; [reflexivity|lia] ].
Qed.

Lemma last_snoc {A} (l : list A) x : last (l ++ [x]) = Some x.
Proof. induction l as [|y [|z l] IH]; simpl in *; auto. Qed.

Lemma choose_surface_format_spec caps f :
  choose_surface_format caps = Ok f ->
  In f (formats caps) /\
  ((exists g, In g (formats caps) /\ is_srgb g = true) -> is_srgb f = true) /\
  ((forall g, In g (formats caps) -> is_srgb g = false) -> formats caps !! 0%nat = Some f).
Proof.
  unfold choose_surface_format.
  destruct (List.find is_srgb (formats caps)) as [g|] eqn:Eg;
    destruct (formats caps) as [|f0 fs] eqn:Ef; simpl; intros H; try discriminate;
    apply Ok_inj in H; subst f.
  - apply List.find_some in Eg as [Hin Hs]. split; [exact Hin|]. split; [auto|].
    intros Hno. rewrite (Hno g Hin) in Hs. discriminate.
  - pose proof (List.find_none _ _ Eg) as Hn. split; [left; reflexivity|]. split; [|auto].
    intros (g & Hg & Hs). rewrite (Hn g Hg) in Hs. discriminate.
Qed.

(** A resize that returns keeps the invariant and only appends to the
    configurations applied. *)
Lemma resize_preserves_wf r w h r' :
  renderer_wf r -> resize w h r = Ok r' ->
  renderer_wf r' /\ prefix (configured r) (configured r').
Proof.
  intros Hwf. unfold resize. destruct ((0 <? w) && (0 <? h)).
  - destruct (configure_check (with_size w h (surface_configuration r))) as [[]|e] eqn:Ec;
      simpl; [|discriminate].
    intros Hok. apply Ok_inj in Hok. subst r'. apply configure_check_ok in Ec.
    destruct Hwf as (_ & _ & Hv). split; [|eexists; reflexivity].
    split; [reflexivity|]. split; [apply last_snoc|]. apply Forall_app; auto.
  - intros Hok. apply Ok_inj in Hok. subst r'. split; [exact Hwf|reflexivity].
Qed.

(** [resize] never changes the texture format. *)
Lemma resize_format r w h r' :
  resize w h r = Ok r' -> format (surface_configuration r') = format (surface_configuration r).
Proof.
  unfold resize. destruct ((0 <? w) && (0 <? h)).
  - destruct (configure_check _) as [[]|e]; simpl; [|discriminate].
    intros Hok. apply Ok_inj in Hok. subst r'. reflexivity.
  - intros Hok. apply Ok_inj in Hok. subst r'. reflexivity.
Qed.

(** ** Theorems. *)

(** C20: [Renderer::resize] on every branch, and the renderer's
    invariant: from a well-formed renderer, a size with a zero
    dimension leaves it unchanged, a size within wgpu's limits becomes
    the renderer's size and its surface's new configuration (appended
    to the configurations applied), and a larger one makes [configure]
    panic; the invariant holds after every resize that returns. *)
Theorem resize_wf r w h :
  renderer_wf r ->
  ((w <= 0 \/ h <= 0) -> resize w h r = Ok r) /\
  (0 < w <= MAX_TEXTURE_DIMENSION_2D -> 0 < h <= MAX_TEXTURE_DIMENSION_2D ->
   exists r', resize w h r = Ok r' /\ renderer_wf r' /\ size r' = (w, h) /\
              configured r' = configured r ++ [surface_configuration r']) /\
  (0 < w -> 0 < h -> (MAX_TEXTURE_DIMENSION_2D < w \/ MAX_TEXTURE_DIMENSION_2D < h) ->
   resize w h r = Err configure_too_large).
Proof.
  intros (Hs & Hl & Hv). unfold resize.
  split; [|split].
  - intros Hz. replace ((0 <? w) && (0 <? h)) with false; [reflexivity|].
    symmetry. apply andb_false_iff. destruct Hz; [left|right]; apply Z.ltb_ge; lia.
  - intros Hw Hh. replace ((0 <? w) && (0 <? h)) with true
      by (symmetry; apply andb_true_iff; split; apply Z.ltb_lt; lia).
    assert (Hc : valid_extent (with_size w h (surface_configuration r))) by (split; simpl; lia).
    apply configure_check_ok in Hc. rewrite Hc. simpl.
    eexists. split; [reflexivity|]. split; [|auto].
    split; [reflexivity|]. split; [apply last_snoc|].
    apply Forall_app; split; [exact Hv|]. constructor; [split; simpl; lia|constructor].
  - intros Hw Hh Hbig. replace ((0 <? w) && (0 <? h)) with true
      by (symmetry; apply andb_true_iff; split; apply Z.ltb_lt; lia).
    destruct (configure_check_cases (with_size w h (surface_configuration r)))
      as [(_ & Hv')|[(_ & Hz)|(-> & _)]]; simpl in *; [unfold valid_extent in Hv'; simpl in Hv'; lia|lia|].
    reflexivity.
Qed.

(** C31: [Renderer::new] on a window within wgpu's limits, with the three
    set-up calls succeeding and every capability list non-empty, builds
    a well-formed renderer of the window's size whose surface was
    configured once, with a format the surface offers: an sRGB one
    whenever the surface offers one, else the first. *)
Theorem Renderer_new_spec w h env :
  env_surface env = true -> env_adapter env = true -> env_device env = true ->
  formats (capabilities env) <> [] -> present_modes (capabilities env) <> [] ->
  alpha_modes (capabilities env) <> [] ->
  0 < w <= MAX_TEXTURE_DIMENSION_2D -> 0 < h <= MAX_TEXTURE_DIMENSION_2D ->
  exists r, Renderer_new w h env = Ok r /\ renderer_wf r /\ size r = (w, h) /\
    configured r = [surface_configuration r] /\
    In (format (surface_configuration r)) (formats (capabilities env)) /\
    ((exists g, In g (formats (capabilities env)) /\ is_srgb g = true) ->
     is_srgb (format (surface_configuration r)) = true) /\
    ((forall g, In g (formats (capabilities env)) -> is_srgb g = false) ->
     formats (capabilities env) !! 0%nat = Some (format (surface_configuration r))).
Proof.
  intros Hs Ha Hd Hf Hp Hal Hw Hh. unfold Renderer_new. rewrite Hs, Ha, Hd. simpl.
  destruct (choose_surface_format (capabilities env)) as [f|e] eqn:Ec.
  2:{ unfold choose_surface_format in Ec.
      destruct (formats (capabilities env)); [contradiction|discriminate]. }
  destruct (present_modes (capabilities env)) as [|pm pms]; [contradiction|].
  destruct (alpha_modes (capabilities env)) as [|am ams]; [contradiction|]. simpl.
  match goal with |- context [configure_check ?c] =>
    assert (Hc : valid_extent c) by (split; simpl; lia) end.
  apply configure_check_ok in Hc. rewrite Hc. simpl.
  eexists. split; [reflexivity|].
  split; [split; [reflexivity|split; [reflexivity|repeat constructor; simpl; lia]]|].
  split; [reflexivity|]. split; [reflexivity|]. simpl. exact (choose_surface_format_spec _ _ Ec).
Qed.

(** C27: [Renderer::new] has no guard against a zero-sized window, unlike
    [resize]: on a minimised window (a zero dimension) it configures a
    zero-area surface and panics, even when every GPU call succeeds. *)
Theorem Renderer_new_zero_size_panics w h env :
  env_surface env = true -> env_adapter env = true -> env_device env = true ->
  formats (capabilities env) <> [] -> present_modes (capabilities env) <> [] ->
  alpha_modes (capabilities env) <> [] ->
  (w <= 0 \/ h <= 0) ->
  Renderer_new w h env = Err configure_zero_area.
Proof.
  intros Hs Ha Hd Hf Hp Hal Hz. unfold Renderer_new. rewrite Hs, Ha, Hd. simpl.
  destruct (choose_surface_format (capabilities env)) as [f|e] eqn:Ec.
  2:{ unfold choose_surface_format in Ec.
      destruct (formats (capabilities env)); [contradiction|discriminate]. }
  destruct (present_modes (capabilities env)) as [|pm pms]; [contradiction|].
  destruct (alpha_modes (capabilities env)) as [|am ams]; [contradiction|]. simpl.
  unfold configure_check. simpl.
  destruct Hz as [Hz|Hz]; [rewrite (proj2 (Z.leb_le w 0) Hz)|rewrite (proj2 (Z.leb_le h 0) Hz), orb_true_r];
    reflexivity.
Qed.

(** ** Witnesses. *)

Lemma resize_wf_witness :
  renderer_wf sample_renderer /\
  exists r', resize 1024 768 sample_renderer = Ok r' /\ renderer_wf r' /\ size r' = (1024, 768) /\
             configured r' = configured sample_renderer ++ [surface_configuration r'].
Proof.
  assert (Hwf : renderer_wf sample_renderer)
    by (split; [reflexivity|split; [reflexivity|repeat constructor; simpl; unfold MAX_TEXTURE_DIMENSION_2D; lia]]).
  split; [exact Hwf|].
  apply (resize_wf sample_renderer 1024 768 Hwf); unfold MAX_TEXTURE_DIMENSION_2D; lia.
Defined.

Lemma Renderer_new_spec_witness :
  exists r, Renderer_new 800 600 sample_env = Ok r /\ renderer_wf r /\ size r = (800, 600) /\
    configured r = [surface_configuration r] /\
    In (format (surface_configuration r)) (formats (capabilities sample_env)) /\
    ((exists g, In g (formats (capabilities sample_env)) /\ is_srgb g = true) ->
     is_srgb (format (surface_configuration r)) = true) /\
    ((forall g, In g (formats (capabilities sample_env)) -> is_srgb g = false) ->
     formats (capabilities sample_env) !! 0%nat = Some (format (surface_configuration r))).
Proof.
  apply Renderer_new_spec; try reflexivity; try discriminate; unfold MAX_TEXTURE_DIMENSION_2D; lia.
Defined.

Lemma Renderer_new_zero_size_panics_witness :
  Renderer_new 0 600 sample_env = Err configure_zero_area.
Proof. apply Renderer_new_zero_size_panics; try reflexivity; try discriminate. left; lia. Defined.
