(* ===== verification/ClientLoop.v ===== *)
(** * The client scheduler: [client_game_loop] ([src/client/src/game_loop.rs], lines 74-160)

    The closure passed to [event_loop.run] is [handle_event]: one call
    per winit event, threading the loop's state ([LoopState]: the frame
    context, the application state, the two instants and the control
    flow).  The callbacks and the windowing calls are the class
    [ClientApp], an interface: the scheduler's theorems hold for every
    instance that satisfies [ClientAppLaws], and [ClientMain] gives the
    program's own instance.  GPU work ([get_output], the render pass,
    [present]) and imgui's bookkeeping do not touch this state; the
    file [FramePipeline] runs the closure with them and proves that it
    refines this one.

    Time: instants are nanosecond counts.  Each call of [Instant::now]
    or [elapsed] in the redraw branch reads the clock anew, so a
    [RedrawRequested] event carries the four readings in the order the
    code takes them: [now] (line 123), [last_tick.elapsed()] (125),
    [last_fixed_tick.elapsed()] in the test (128) and in the fixed
    delta (130).  [Instant - Instant] saturates at zero ([sat_sub]).

    The ghost output of [run_events] records, per redraw, whether it
    was a fixed tick; the code keeps no such list. *)

From S2P Require Import Prelude InputState.

Inductive ControlFlow := Poll | Exit.

Record RedrawClock := { t_now : Z; t_delta : Z; t_check : Z; t_fixed : Z }.

Inductive WindowEvent :=
| Resized (width height : Z)
| CloseRequested
| KeyboardInputEvent (input : KeyboardInput)
| OtherWindowEvent.

Inductive Event :=
| WindowEv (window_id : nat) (event : WindowEvent)
| MainEventsCleared
| RedrawRequested (window_id : nat) (clock : RedrawClock)
| OtherEvent.

(** The callbacks [on_update], [on_ui], [on_render] take the frame
    context and the client state by [&mut]: each returns both, or
    [None] when it panics. *)
Class ClientApp (S : Type) := {
  app_window_id : S -> nat;
  app_resize : Z -> Z -> S -> option S;
  app_request_redraw : S -> S;
  on_update : FrameContext -> S -> option (FrameContext * S);
  on_ui : FrameContext -> S -> option (FrameContext * S);
  on_render : FrameContext -> S -> option (FrameContext * S);
}.

(** What the scheduler needs of the callbacks: they leave the key table,
    the frame counter and the window alone, and they do not panic on a
    table of 163 entries. *)
Definition keeps_table {S} (f : FrameContext -> S -> option (FrameContext * S)) : Prop :=
  forall c s c' s', f c s = Some (c', s') -> key_states c' = key_states c /\ frame c' = frame c.

Definition keeps_window {S} `{ClientApp S} (f : FrameContext -> S -> option (FrameContext * S))
  : Prop :=
  forall c s c' s', f c s = Some (c', s') -> app_window_id s' = app_window_id s.

Definition total_on_wf {S} (f : FrameContext -> S -> option (FrameContext * S)) : Prop :=
  forall c s, length (key_states c) = KEY_COUNT -> exists r, f c s = Some r.

Class ClientAppLaws (S : Type) `{ClientApp S} := {
  on_update_keeps : keeps_table on_update;
  on_ui_keeps : keeps_table on_ui;
  on_render_keeps : keeps_table on_render;
  on_update_window : keeps_window on_update;
  on_ui_window : keeps_window on_ui;
  on_render_window : keeps_window on_render;
  on_update_total : total_on_wf on_update;
  on_ui_total : total_on_wf on_ui;
  on_render_total : total_on_wf on_render;
}.

Record LoopState (S : Type) := {
  ctx : FrameContext;
  app : S;
  last_tick : Z;
  last_fixed_tick : Z;
  control_flow : ControlFlow;
}.
Arguments ctx {S}. Arguments app {S}. Arguments last_tick {S}.
Arguments last_fixed_tick {S}. Arguments control_flow {S}.

Definition set_times (dt fdt : Z) (fixed : bool) (c : FrameContext) : FrameContext :=
  {| is_fixed := fixed; delta_time := dt; fixed_delta_time := fdt;
     key_states := key_states c; frame := frame c |}.

Section Scheduler.
Context {S : Type} `{ClientApp S}.
Variable interval : Z.

Definition with_ctx (c : FrameContext) (st : LoopState S) : LoopState S :=
  {| ctx := c; app := app st; last_tick := last_tick st;
     last_fixed_tick := last_fixed_tick st; control_flow := control_flow st |}.

Definition with_app (s : S) (st : LoopState S) : LoopState S :=
  {| ctx := ctx st; app := s; last_tick := last_tick st;
     last_fixed_tick := last_fixed_tick st; control_flow := control_flow st |}.

(** Lines 123-134: the render delta, and the fixed-tick decision. *)
Definition tick_times (clk : RedrawClock) (st : LoopState S) : FrameContext * Z :=
  let c := ctx st in
  let dt := sat_sub (t_delta clk) (last_tick st) in
  if interval <? sat_sub (t_check clk) (last_fixed_tick st)
  then (set_times dt (sat_sub (t_fixed clk) (last_fixed_tick st)) true c, t_now clk)
  else (set_times dt (fixed_delta_time c) false c, last_fixed_tick st).

(** Lines 122-155: the redraw branch ([on_ui] runs inside
    [ui_renderer.render], [ui_renderer.rs] line 102). *)
Definition redraw (clk : RedrawClock) (st : LoopState S) : option (LoopState S) :=
  let '(c, last_fixed) := tick_times clk st in
  '(c, s) ← on_update c (app st);
  '(c, s) ← on_ui c s;
  '(c, s) ← on_render c s;
  Some {| ctx := advance_frame c; app := s; last_tick := t_now clk;
          last_fixed_tick := last_fixed; control_flow := control_flow st |}.

(** Lines 96-159: the closure, one event at a time; [None] is a panic
    (a key code outside the table, or a callback's). *)
Definition handle_event (e : Event) (st : LoopState S) : option (LoopState S) :=
  match e with
  | WindowEv wid we =>
      if Nat.eqb wid (app_window_id (app st)) then
        match we with
        | Resized w h => s ← app_resize w h (app st); Some (with_app s st)
        | CloseRequested =>
            Some {| ctx := ctx st; app := app st; last_tick := last_tick st;
                    last_fixed_tick := last_fixed_tick st; control_flow := Exit |}
        | KeyboardInputEvent input =>
            c ← handle_keyboard_event (ctx st) input; Some (with_ctx c st)
        | OtherWindowEvent => Some st
        end
      else Some st
  | MainEventsCleared => Some (with_app (app_request_redraw (app st)) st)
  | RedrawRequested wid clk =>
      if Nat.eqb wid (app_window_id (app st)) then redraw clk st else Some st
  | OtherEvent => Some st
  end.

Definition is_redraw_of (st : LoopState S) (e : Event) : option RedrawClock :=
  match e with
  | RedrawRequested wid clk => if Nat.eqb wid (app_window_id (app st)) then Some clk else None
  | _ => None
  end.

(** The ghost record of one event: for a redraw of the window, whether
    it was a fixed tick. *)
Definition tick_of (st : LoopState S) (e : Event) : list bool :=
  match is_redraw_of st e with
  | Some clk => [is_fixed (tick_times clk st).1]
  | None => []
  end.

(** The event loop until [ControlFlow::Exit]. *)
Fixpoint run_events (evs : list Event) (st : LoopState S) : option (LoopState S * list bool) :=
  match control_flow st, evs with
  | Exit, _ | _, [] => Some (st, [])
  | Poll, e :: rest =>
      st' ← handle_event e st;
      '(st'', ticks) ← run_events rest st';
      Some (st'', tick_of st e ++ ticks)
  end.

End Scheduler.

(** The state the loop starts in at instant [t0] (lines 82-94). *)
Definition initial_loop_state {S} (s : S) (t0 : Z) : LoopState S :=
  {| ctx := initial_ctx; app := s; last_tick := t0; last_fixed_tick := t0; control_flow := Poll |}.

(** The readings of one redraw are taken in order, at most [jitter]
    nanoseconds apart between [now] and the tick test. *)
Definition clock_ok (jitter : Z) (clk : RedrawClock) : Prop :=
  t_now clk <= t_delta clk <= t_check clk /\ t_check clk <= t_fixed clk /\
  t_check clk <= t_now clk + jitter.

(** Every redraw of a trace reads its clock in order, with the given
    jitter, and no later than [T]. *)
Definition redraw_readings_ok (jitter T : Z) (e : Event) : Prop :=
  match e with
  | RedrawRequested _ clk => clock_ok jitter clk /\ t_fixed clk <= T
  | _ => True
  end.

(** [k] redraws of window [wid], [period] nanoseconds apart from [t0],
    each reading one instant for all four clock calls. *)
Definition periodic_redraws (wid : nat) (t0 period : Z) (start k : nat) : list Event :=
  map (fun i => let t := t0 + period * Z.of_nat (S i) in
                RedrawRequested wid {| t_now := t; t_delta := t; t_check := t; t_fixed := t |})
      (seq start k).

Definition count_true (bs : list bool) : Z := Z.of_nat (length (filter (fun b => b = true) bs)).

(** ** Lemmas on one event. *)

Section Props.
Context {S : Type} `{ClientAppLaws S}.
Variable interval : Z.

(** The fixed-tick decision: a fixed tick moves [last_fixed_tick] to
    [now] and happens only when the tested elapsed time exceeds the
    interval; a render-only frame keeps it. *)
Lemma tick_times_cases clk (st : LoopState S) :
  let '(c, lf) := tick_times interval clk st in
  key_states c = key_states (ctx st) /\ frame c = frame (ctx st) /\
  ((is_fixed c = true /\ lf = t_now clk /\ interval < sat_sub (t_check clk) (last_fixed_tick st)) \/
   (is_fixed c = false /\ lf = last_fixed_tick st /\ sat_sub (t_check clk) (last_fixed_tick st) <= interval)).
Proof.
  unfold tick_times. destruct (Z.ltb_spec interval (sat_sub (t_check clk) (last_fixed_tick st)));
    simpl; auto 10.
Qed.

(** A redraw that does not panic advances the frame by one, sets
    [last_fixed_tick] as decided, and keeps the table, the control flow
    and the window. *)
Lemma redraw_spec clk (st st' : LoopState S) :
  redraw interval clk st = Some st' ->
  last_fixed_tick st' = (tick_times interval clk st).2 /\
  key_states (ctx st') = key_states (ctx st) /\
  frame (ctx st') = (frame (ctx st) + 1) mod U64_MOD /\
  control_flow st' = control_flow st /\
  app_window_id (app st') = app_window_id (app st).
Proof.
  unfold redraw. pose proof (tick_times_cases clk st) as T.
  destruct (tick_times interval clk st) as [c lf]. destruct T as (Tk & Tf & _).
  destruct (on_update c (app st)) as [[c1 s1]|] eqn:E1; simpl; [|discriminate].
  destruct (on_ui c1 s1) as [[c2 s2]|] eqn:E2; simpl; [|discriminate].
  destruct (on_render c2 s2) as [[c3 s3]|] eqn:E3; simpl; [|discriminate].
  intros [= <-].
  destruct (on_update_keeps _ _ _ _ E1), (on_ui_keeps _ _ _ _ E2), (on_render_keeps _ _ _ _ E3).
  pose proof (on_update_window _ _ _ _ E1). pose proof (on_ui_window _ _ _ _ E2).
  pose proof (on_render_window _ _ _ _ E3).
  unfold advance_frame, set_frame; simpl. split_and!; congruence.
Qed.

(** On a table of 163 entries, a redraw does not panic. *)
Lemma redraw_total clk (st : LoopState S) :
  length (key_states (ctx st)) = KEY_COUNT -> exists st', redraw interval clk st = Some st'.
Proof.
  intros Hl. unfold redraw. pose proof (tick_times_cases clk st) as T.
  destruct (tick_times interval clk st) as [c lf]. destruct T as (Tk & _ & _).
  destruct (on_update_total c (app st)) as [[c1 s1] E1]; [congruence|]. rewrite E1. simpl.
  destruct (on_update_keeps _ _ _ _ E1) as [K1 _].
  destruct (on_ui_total c1 s1) as [[c2 s2] E2]; [congruence|]. rewrite E2. simpl.
  destruct (on_ui_keeps _ _ _ _ E2) as [K2 _].
  destruct (on_render_total c2 s2) as [[c3 s3] E3]; [congruence|]. rewrite E3. simpl. eauto.
Qed.

(** Every event but a redraw of the window keeps [last_fixed_tick] and
    the frame counter; a redraw advances the counter by one.  The table
    keeps its length. *)
Lemma handle_event_spec e (st st' : LoopState S) :
  handle_event interval e st = Some st' ->
  length (key_states (ctx st')) = length (key_states (ctx st)) /\
  match is_redraw_of st e with
  | Some clk => last_fixed_tick st' = (tick_times interval clk st).2 /\
                frame (ctx st') = (frame (ctx st) + 1) mod U64_MOD
  | None => last_fixed_tick st' = last_fixed_tick st /\ frame (ctx st') = frame (ctx st)
  end.
Proof.
  destruct e as [wid [w h| |input|]| |wid clk|]; simpl;
    try destruct (Nat.eqb wid (app_window_id (app st)));
    try (destruct (app_resize w h (app st)); simpl; [intros [= <-]; auto|discriminate]; fail);
    try (intros [= <-]; auto; fail).
  - destruct (handle_keyboard_event (ctx st) input) as [c|] eqn:E; simpl; [|discriminate].
    intros [= <-]. destruct (handle_keyboard_event_shape _ _ _ E) as [Hf Hl]. simpl. auto.
  - intros Hr. destruct (redraw_spec clk st st' Hr) as (Hl & Hk & Hf & _).
    rewrite Hk, Hl, Hf. auto.
Qed.

Lemma is_redraw_of_inv (st : LoopState S) e clk :
  is_redraw_of st e = Some clk -> exists wid, e = RedrawRequested wid clk.
Proof.
  destruct e; simpl; try discriminate.
  destruct (Nat.eqb _ _); [intros [= <-]; eauto | discriminate].
Qed.

Lemma count_true_app bs1 bs2 : count_true (bs1 ++ bs2) = count_true bs1 + count_true bs2.
Proof. unfold count_true. rewrite filter_app, length_app. lia. Qed.

(** One event's share of the cadence bound: a fixed tick moves
    [last_fixed_tick] forward by more than [interval - jitter]. *)
Lemma handle_event_cadence jitter T e (st st' : LoopState S) :
  0 <= interval -> redraw_readings_ok jitter T e -> handle_event interval e st = Some st' ->
  count_true (tick_of interval st e) * (interval + 1 - jitter) <= last_fixed_tick st' - last_fixed_tick st /\
  (last_fixed_tick st' = last_fixed_tick st \/ last_fixed_tick st' <= T).
Proof.
  intros HI Hok Hh. destruct (handle_event_spec _ _ _ Hh) as [_ Hs]. unfold tick_of.
  destruct (is_redraw_of st e) as [clk|] eqn:E;
    [|destruct Hs as [-> _]; unfold count_true; simpl; lia].
  destruct Hs as [Hlf _]. destruct (is_redraw_of_inv _ _ _ E) as [wid ->].
  destruct Hok as [(H1 & H2 & H3) HT].
  pose proof (tick_times_cases clk st) as T'.
  destruct (tick_times interval clk st) as [c lf]. simpl in Hlf |- *. subst lf.
  unfold sat_sub in T'.
  destruct T' as (_ & _ & [(-> & -> & Hgt) | (-> & -> & _)]); unfold count_true; simpl; lia.
Qed.

Lemma run_events_spec jitter T evs : forall (st st' : LoopState S) ticks,
  ctx_wf (ctx st) -> run_events interval evs st = Some (st', ticks) ->
  ctx_wf (ctx st') /\
  frame (ctx st') = (frame (ctx st) + Z.of_nat (length ticks)) mod U64_MOD /\
  (0 <= interval -> Forall (redraw_readings_ok jitter T) evs ->
   count_true ticks * (interval + 1 - jitter) <= last_fixed_tick st' - last_fixed_tick st /\
   (last_fixed_tick st' = last_fixed_tick st \/ last_fixed_tick st' <= T)).
Proof.
  induction evs as [|e evs IH]; intros st st' ticks Hwf Hrun; simpl in Hrun.
  - destruct (control_flow st); injection Hrun as <- <-; pose proof Hwf as [? Hf];
      rewrite Z.add_0_r, Z.mod_small by exact Hf; unfold count_true; simpl; split_and!; auto; lia.
  - destruct (control_flow st).
    2: { injection Hrun as <- <-. pose proof Hwf as [? Hf].
         rewrite Z.add_0_r, Z.mod_small by exact Hf. unfold count_true; simpl; split_and!; auto; lia. }
    destruct (handle_event interval e st) as [st1|] eqn:Hh; simpl in Hrun; [|discriminate].
    destruct (run_events interval evs st1) as [[st2 ticks2]|] eqn:Hr; simpl in Hrun; [|discriminate].
    injection Hrun as <- <-.
    destruct (handle_event_spec _ _ _ Hh) as [Hlen Hs].
    destruct Hwf as [Hl0 Hf0].
    assert (Hf1 : frame (ctx st1) =
              (frame (ctx st) + Z.of_nat (length (tick_of interval st e))) mod U64_MOD).
    { unfold tick_of. destruct (is_redraw_of st e); destruct Hs as [_ ->]; simpl;
        [reflexivity | rewrite Z.add_0_r, Z.mod_small; auto]. }
    assert (Hwf1 : ctx_wf (ctx st1)).
    { split; [congruence|]. rewrite Hf1. apply Z.mod_pos_bound. unfold U64_MOD; lia. }
    destruct (IH st1 st2 ticks2 Hwf1 Hr) as (Hwf2 & Hf2 & C2).
    rewrite count_true_app, length_app. split_and!; [exact Hwf2| |].
    + rewrite Hf2, Hf1, Z.add_mod_idemp_l by (unfold U64_MOD; lia). f_equal. lia.
    + intros HI Hok. apply Forall_cons in Hok as [Hoke Hok].
      destruct (handle_event_cadence jitter T e st st1 HI Hoke Hh) as [C1 L1].
      destruct (C2 HI Hok) as [C2' L2]. lia.
Qed.

(** Counting along a run: a quantity that each event raises by the
    length of its ghost record ends raised by the length of the whole
    record. *)
(** An invariant of every event is one of every run. *)
Lemma run_events_invariant (I : LoopState S -> Prop) :
  (forall e st st', I st -> handle_event interval e st = Some st' -> I st') ->
  forall evs st st' ticks, I st -> run_events interval evs st = Some (st', ticks) -> I st'.
Proof.
  intros Hstep evs. induction evs as [|e evs IH]; intros st st' ticks HI Hrun; simpl in Hrun.
  - destruct (control_flow st); injection Hrun as <- <-; exact HI.
  - destruct (control_flow st); [|injection Hrun as <- <-; exact HI].
    destruct (handle_event interval e st) as [st1|] eqn:Hh; simpl in Hrun; [|discriminate].
    destruct (run_events interval evs st1) as [[st2 ticks2]|] eqn:Hr; simpl in Hrun; [|discriminate].
    injection Hrun as <- <-. exact (IH st1 st2 ticks2 (Hstep e st st1 HI Hh) Hr).
Qed.

Lemma run_events_count (g : LoopState S -> nat) :
  (forall e st st', handle_event interval e st = Some st' ->
     g st' = (g st + length (tick_of interval st e))%nat) ->
  forall evs st st' ticks, run_events interval evs st = Some (st', ticks) ->
  g st' = (g st + length ticks)%nat.
Proof.
  intros Hstep evs. induction evs as [|e evs IH]; intros st st' ticks Hrun; simpl in Hrun.
  - destruct (control_flow st); injection Hrun as <- <-; simpl; lia.
  - destruct (control_flow st); [|injection Hrun as <- <-; simpl; lia].
    destruct (handle_event interval e st) as [st1|] eqn:Hh; simpl in Hrun; [|discriminate].
    destruct (run_events interval evs st1) as [[st2 ticks2]|] eqn:Hr; simpl in Hrun; [|discriminate].
    injection Hrun as <- <-. rewrite (IH st1 st2 ticks2 Hr), (Hstep e st st1 Hh), length_app. lia.
Qed.

End Props.

Lemma count_true_repeat k : count_true (repeat true k) = Z.of_nat k.
Proof.
  unfold count_true. induction k as [|k IH]; [reflexivity|].
  cbn [repeat]. rewrite filter_cons_True by reflexivity. simpl length. lia.
Qed.

Section Claims.
Context {AppT : Type} `{ClientAppLaws AppT}.
Variable interval : Z.

(** C24: the frame counter counts redraws.  Over any run from the initial
    context, the key table keeps its 163 entries, and the frame counter
    is 1 plus the number of redraws of the window handled, modulo
    [2^64]. *)
Theorem client_loop_frames evs (s : AppT) t0 st' ticks :
  run_events interval evs (initial_loop_state s t0) = Some (st', ticks) ->
  ctx_wf (ctx st') /\ frame (ctx st') = (1 + Z.of_nat (length ticks)) mod U64_MOD.
Proof.
  intros Hrun. destruct (run_events_spec interval 0 0 evs (initial_loop_state s t0) st' ticks initial_ctx_wf Hrun)
    as (? & ? & _).
  auto.
Qed.

(** C5: fixed-tick cadence.  Over any run from the initial state at
    [t0] whose clock readings stay below [T] and whose readings within
    one redraw are at most [jitter] apart, the number of fixed ticks
    [n] satisfies [n * (interval + 1 - jitter) <= T - t0]; with one
    reading per redraw ([jitter = 0]), [n <= (T - t0) / interval]. *)
Theorem fixed_tick_cadence evs (s : AppT) t0 T jitter st' ticks :
  0 <= interval -> t0 <= T -> Forall (redraw_readings_ok jitter T) evs ->
  run_events interval evs (initial_loop_state s t0) = Some (st', ticks) ->
  count_true ticks * (interval + 1 - jitter) <= T - t0.
Proof.
  intros HI HT Hok Hrun.
  destruct (run_events_spec interval jitter T evs (initial_loop_state s t0) st' ticks
              initial_ctx_wf Hrun) as (_ & _ & C).
  destruct (C HI Hok) as [C1 [L|L]]; simpl in *; lia.
Qed.

(** Redraws [period > interval] apart are each a fixed tick, one each. *)
Lemma periodic_redraws_run t0 period k : forall i (st : LoopState AppT),
  0 <= interval < period -> control_flow st = Poll ->
  length (key_states (ctx st)) = KEY_COUNT ->
  last_fixed_tick st = t0 + period * Z.of_nat i ->
  exists st', run_events interval (periodic_redraws (app_window_id (app st)) t0 period i k) st
              = Some (st', repeat true k).
Proof.
  induction k as [|k IH]; intros i st Hp Hc Hl Hlf; [simpl; rewrite Hc; eauto|].
  set (t := t0 + period * Z.of_nat (Datatypes.S i)).
  set (clk := {| t_now := t; t_delta := t; t_check := t; t_fixed := t |}).
  destruct (redraw_total interval clk st Hl) as [st1 Hr].
  destruct (redraw_spec interval clk st st1 Hr) as (Hlf1 & Hk1 & _ & Hc1 & Hw1).
  unfold periodic_redraws. simpl. rewrite Hc, Nat.eqb_refl. fold t clk. rewrite Hr. simpl.
  unfold tick_of; simpl; rewrite Nat.eqb_refl.
  unfold tick_times in *. rewrite Hlf in *. subst t. unfold sat_sub in *; simpl in *.
  destruct (Z.ltb_spec interval (Z.max 0 (t0 + period * Z.of_nat (Datatypes.S i) -
                                          (t0 + period * Z.of_nat i)))); [|lia].
  simpl in *.
  destruct (IH (Datatypes.S i) st1) as [st' Hst']; [lia|congruence|congruence|exact Hlf1|].
  rewrite Hw1 in Hst'. unfold periodic_redraws in Hst'. rewrite Hst'. simpl. eauto.
Qed.

(** C14: the scheduler does not catch up.  With redraws [2 (interval + 1)]
    nanoseconds apart, each of [k] redraws is one fixed tick: [k] fixed
    ticks over [k * 2 (interval + 1)] nanoseconds, i.e. at least [2 k]
    intervals, so for [k >= 2] the count is below the spec's
    [floor(N / I) - 1]. *)
Theorem fixed_ticks_no_catch_up (s : AppT) t0 k :
  0 < interval -> (2 <= k)%nat ->
  exists st' ticks,
    run_events interval (periodic_redraws (app_window_id s) t0 (2 * (interval + 1)) 0 k)
      (initial_loop_state s t0) = Some (st', ticks) /\
    count_true ticks = Z.of_nat k /\
    count_true ticks < (Z.of_nat k * (2 * (interval + 1))) / interval - 1.
Proof.
  intros HI Hk.
  destruct (periodic_redraws_run t0 (2 * (interval + 1)) k 0 (initial_loop_state s t0))
    as [st' Hst']; [lia|reflexivity|apply initial_ctx_wf|simpl; lia|].
  exists st', (repeat true k). split; [exact Hst'|].
  rewrite count_true_repeat. split; [reflexivity|].
  assert (2 * Z.of_nat k <= Z.of_nat k * (2 * (interval + 1)) / interval); [|lia].
  apply Z.div_le_lower_bound; [lia|]. nia.
Qed.

End Claims.
