(* ===== verification/ClientMain.v ===== *)
(** * The client application ([src/client/src/state.rs], [player.rs], [main.rs])

    [Module Client] holds the client's state and the three callbacks
    [main.rs] passes to [client_game_loop], and makes them the
    [ClientApp] instance the scheduler of [ClientLoop] runs.
    - [ClientState] keeps the player's movement, the window id, the
      [Renderer] of the [Renderer] file (a resize that wgpu refuses is
      a panic of the event), the queues of inbound events
      and the outbound [PacketAction] queue.  The outbound queue is the
      list of actions sent so far: [Sender::send] appends; its [unwrap]
      would panic only once the receiving transport task is gone, which
      the model does not represent (the task runs for the whole
      process).
    - The key codes are winit 0.27's [VirtualKeyCode] discriminants, the
      indices [keycode as usize] takes. *)

From S2P Require Import Prelude Protocol InputState Renderer ClientLoop.

Module Client.

Inductive TcpEvent := TcpPacketReceived (packet : ReliablePacket).
Inductive UdpEvent := UdpPacketReceived (packet : UnreliablePacket).

Record PlayerMovement := { directions : list bool; rotations : list Z }.
Record Player := { id : Z; movement : PlayerMovement }.

(** [Player::new] (player.rs, lines 17-25). *)
Definition Player_new (id : Z) : Player :=
  {| id := id; movement := {| directions := replicate 6 false; rotations := replicate 2 0 |} |}.

Record ClientState := {
  renderer : Renderer;
  player : Player;
  window_id : nat;
  redraw_requested : bool;
  tcp_receiver : list TcpEvent;
  udp_receiver : list UdpEvent;
  packet_action_sender : list PacketAction;
}.

Definition set_renderer (r : Renderer) (s : ClientState) : ClientState :=
  {| renderer := r; player := player s; window_id := window_id s;
     redraw_requested := redraw_requested s; tcp_receiver := tcp_receiver s;
     udp_receiver := udp_receiver s; packet_action_sender := packet_action_sender s |}.

Definition set_player (p : Player) (s : ClientState) : ClientState :=
  {| renderer := renderer s; player := p; window_id := window_id s;
     redraw_requested := redraw_requested s; tcp_receiver := tcp_receiver s;
     udp_receiver := udp_receiver s; packet_action_sender := packet_action_sender s |}.

(** [window.request_redraw()]: winit queues a [RedrawRequested]. *)
Definition request_redraw (s : ClientState) : ClientState :=
  {| renderer := renderer s; player := player s; window_id := window_id s;
     redraw_requested := true; tcp_receiver := tcp_receiver s;
     udp_receiver := udp_receiver s; packet_action_sender := packet_action_sender s |}.

(** [ClientState::send_packet_action] and the two wrappers (state.rs,
    lines 19-29). *)
Definition send_packet_action (a : PacketAction) (s : ClientState) : ClientState :=
  {| renderer := renderer s; player := player s; window_id := window_id s;
     redraw_requested := redraw_requested s; tcp_receiver := tcp_receiver s;
     udp_receiver := udp_receiver s; packet_action_sender := packet_action_sender s ++ [a] |}.

Definition send_reliable_packet (p : ReliablePacket) (s : ClientState) : ClientState :=
  send_packet_action (Reliable p) s.

Definition send_unreliable_packet (p : UnreliablePacket) (s : ClientState) : ClientState :=
  send_packet_action (Unreliable p) s.

Definition VK_A : nat := 10.
Definition VK_D : nat := 13.
Definition VK_S : nat := 28.
Definition VK_W : nat := 32.
Definition VK_Space : nat := 76.
Definition VK_LShift : nat := 118.

(** [update_player_movement] (player.rs, lines 28-40): six [pressed]
    queries written into [directions] in order, both rotations zeroed.
    A query out of the table's range panics. *)
Definition update_player_movement (ctx : FrameContext) (state : ClientState)
  : option ClientState :=
  let m := movement (player state) in
  d0 ← pressed ctx VK_A; let ds := <[0%nat := d0]> (directions m) in
  d1 ← pressed ctx VK_W; let ds := <[1%nat := d1]> ds in
  d2 ← pressed ctx VK_D; let ds := <[2%nat := d2]> ds in
  d3 ← pressed ctx VK_S; let ds := <[3%nat := d3]> ds in
  d4 ← pressed ctx VK_LShift; let ds := <[4%nat := d4]> ds in
  d5 ← pressed ctx VK_Space; let ds := <[5%nat := d5]> ds in
  let rs := <[1%nat := 0]> (<[0%nat := 0]> (rotations m)) in
  Some (set_player {| id := id (player state);
                      movement := {| directions := ds; rotations := rs |} |} state).

(** [send_player_movement_packet] (player.rs, lines 42-48). *)
Definition send_player_movement_packet (ctx : FrameContext) (state : ClientState) : ClientState :=
  let m := movement (player state) in
  send_reliable_packet (MovementInput (directions m) (rotations m)) state.

(** [update], [ui] and [render] of main.rs (lines 54-68): [update] runs
    on every frame, fixed tick or not; [ui] only draws; [render] is
    empty. *)
Definition update (ctx : FrameContext) (state : ClientState) : option (FrameContext * ClientState) :=
  state ← update_player_movement ctx state;
  Some (ctx, send_player_movement_packet ctx state).

Definition ui (ctx : FrameContext) (state : ClientState) : option (FrameContext * ClientState) :=
  Some (ctx, state).

Definition render (ctx : FrameContext) (state : ClientState) : option (FrameContext * ClientState) :=
  Some (ctx, state).

#[export] Instance client_app : ClientApp ClientState := {|
  app_window_id := window_id;
  app_resize w h s :=
    match resize w h (renderer s) with Ok r => Some (set_renderer r s) | Err _ => None end;
  app_request_redraw := request_redraw;
  on_update := update;
  on_ui := ui;
  on_render := render;
|}.

Definition movement_keys : list nat := [VK_A; VK_W; VK_D; VK_S; VK_LShift; VK_Space].

Definition movement_wf (m : PlayerMovement) : Prop :=
  length (directions m) = 6%nat /\ length (rotations m) = 2%nat.

(** A client state as [main.rs] would build it (its commented-out
    lines 35-42) for player 0 in window 1, used by the witnesses. *)
Definition sample_client_state : ClientState := {|
  renderer := sample_renderer;
  player := Player_new 0; window_id := 1%nat; redraw_requested := false;
  tcp_receiver := []; udp_receiver := []; packet_action_sender := [] |}.

(** [client_game_loop]'s interval in main.rs: [1000 / 30] ms in ns. *)
Definition CLIENT_INTERVAL : Z := 33000000.

Definition sample_clock (t : Z) : RedrawClock :=
  {| t_now := t; t_delta := t; t_check := t; t_fixed := t |}.

(** W pressed, then a redraw 10 ms in (render-only) and one 40 ms in
    (fixed tick). *)
Definition sample_events : list Event :=
  [WindowEv 1 (KeyboardInputEvent (InputState.press VK_W)); MainEventsCleared;
   RedrawRequested 1 (sample_clock 10000000); MainEventsCleared;
   RedrawRequested 1 (sample_clock 40000000)].

(** ** Lemmas. *)

Lemma pressed_total c k : (k < length (key_states c))%nat -> exists b, pressed c k = Some b.
Proof.
  intros Hk. unfold pressed. destruct (lookup_lt_is_Some_2 _ _ Hk) as [x Hx]. rewrite Hx. eauto.
Qed.

Ltac pressed_some c k :=
  let d := fresh "d" in let E := fresh "E" in
  destruct (pressed_total c k) as [d E]; [unfold KEY_COUNT, k in *; lia|]; rewrite ?E.

(** [update] hands back the frame context untouched, keeps the window
    and appends exactly one action to the outbound queue; on a table of
    163 entries it does not panic. *)
Lemma update_shape c s c' s' :
  update c s = Some (c', s') ->
  c' = c /\ window_id s' = window_id s /\
  packet_action_sender s' = packet_action_sender s ++
    [Reliable (MovementInput (directions (movement (player s'))) (rotations (movement (player s'))))].
Proof.
  unfold update, update_player_movement.
  destruct (pressed c VK_A), (pressed c VK_W), (pressed c VK_D), (pressed c VK_S),
    (pressed c VK_LShift), (pressed c VK_Space); simpl; try discriminate.
  intros [= <- <-]. auto.
Qed.

Lemma update_total c s :
  length (key_states c) = KEY_COUNT -> exists r, update c s = Some r.
Proof.
  intros Hl. unfold update, update_player_movement.
  pressed_some c VK_A. pressed_some c VK_W. pressed_some c VK_D. pressed_some c VK_S.
  pressed_some c VK_LShift. pressed_some c VK_Space. simpl. eauto.
Qed.

#[export] Instance client_app_laws : ClientAppLaws ClientState.
Proof.
  split; unfold keeps_table, keeps_window, total_on_wf; simpl;
    try (intros c s c' s' H; injection H as <- <-; auto; fail);
    try (intros c s Hl; eexists; reflexivity).
  - intros c s c' s' H. destruct (update_shape _ _ _ _ H) as (-> & _). auto.
  - intros c s c' s' H. destruct (update_shape _ _ _ _ H) as (_ & ? & _). auto.
  - apply update_total.
Qed.

(** Each event adds to the outbound queue one action per redraw of the
    window, and none otherwise. *)
Lemma handle_event_sender interval e (st st' : LoopState ClientState) :
  handle_event interval e st = Some st' ->
  length (packet_action_sender (app st')) =
    (length (packet_action_sender (app st)) + length (tick_of interval st e))%nat.
Proof.
  unfold tick_of. destruct e as [wid [w h| |input|]| |wid clk|]; simpl;
    try destruct (Nat.eqb wid (window_id (app st))); simpl;
    try (destruct (resize w h (renderer (app st))); simpl; [intros [= <-]; simpl; lia|discriminate]; fail);
    try (intros [= <-]; simpl; lia).
  - destruct (handle_keyboard_event (ctx st) input); simpl; [intros [= <-]; simpl; lia|discriminate].
  - unfold redraw. destruct (tick_times interval clk st) as [c lf]. simpl.
    destruct (update c (app st)) as [[c1 s1]|] eqn:E; simpl; [|discriminate].
    intros [= <-]. simpl. destruct (update_shape _ _ _ _ E) as (_ & _ & ->).
    rewrite length_app. simpl. lia.
Qed.

Lemma update_renderer c s c' s' : update c s = Some (c', s') -> renderer s' = renderer s.
Proof.
  unfold update, update_player_movement.
  destruct (pressed c VK_A), (pressed c VK_W), (pressed c VK_D), (pressed c VK_S),
    (pressed c VK_LShift), (pressed c VK_Space); simpl; try discriminate.
  intros [= <- <-]. reflexivity.
Qed.

(** One event leaves the renderer as it was or resizes it. *)
Lemma handle_event_renderer_cases interval e (st st' : LoopState ClientState) :
  handle_event interval e st = Some st' ->
  renderer (app st') = renderer (app st) \/
  exists w h, resize w h (renderer (app st)) = Ok (renderer (app st')).
Proof.
  destruct e as [wid [w h| |input|]| |wid clk|]; simpl;
    try destruct (Nat.eqb wid (window_id (app st))); simpl; try (intros [= <-]; auto; fail).
  - destruct (resize w h (renderer (app st))) as [r|] eqn:E; simpl; [|discriminate].
    intros [= <-]. simpl. eauto.
  - destruct (handle_keyboard_event (ctx st) input); simpl; [|discriminate].
    intros [= <-]. auto.
  - unfold redraw. destruct (tick_times interval clk st) as [c lf]. simpl.
    destruct (update c (app st)) as [[c1 s1]|] eqn:E; simpl; [|discriminate].
    intros [= <-]. simpl. left. exact (update_renderer _ _ _ _ E).
Qed.

(** One event keeps the renderer well formed and only appends to the
    configurations applied. *)
Lemma handle_event_renderer interval e (st st' : LoopState ClientState) :
  renderer_wf (renderer (app st)) -> handle_event interval e st = Some st' ->
  renderer_wf (renderer (app st')) /\
  prefix (configured (renderer (app st))) (configured (renderer (app st'))).
Proof.
  intros Hwf Hh. destruct (handle_event_renderer_cases _ _ _ _ Hh) as [->|(w & h & E)].
  - split; [exact Hwf|reflexivity].
  - exact (resize_preserves_wf _ _ _ _ Hwf E).
Qed.

(** No event changes the surface's texture format. *)
Lemma handle_event_format interval e (st st' : LoopState ClientState) :
  handle_event interval e st = Some st' ->
  format (surface_configuration (renderer (app st'))) = format (surface_configuration (renderer (app st))).
Proof.
  intros Hh. destruct (handle_event_renderer_cases _ _ _ _ Hh) as [->|(w & h & E)];
    [reflexivity|exact (resize_format _ _ _ _ E)].
Qed.

(** C21: the renderer's invariant holds over every client run: from a
    well-formed renderer, whatever the events, including resizes of
    every size, a run that returns leaves a well-formed renderer whose
    configurations applied extend the earlier ones, every one of them
    within wgpu's limits (a resize it refuses is a panic, not a run
    that returns). *)
Theorem client_run_renderer_wf interval evs (st st' : LoopState ClientState) ticks :
  renderer_wf (renderer (app st)) -> run_events interval evs st = Some (st', ticks) ->
  renderer_wf (renderer (app st')) /\
  prefix (configured (renderer (app st))) (configured (renderer (app st'))).
Proof.
  intros Hwf Hrun.
  eapply (run_events_invariant interval
           (fun st1 => renderer_wf (renderer (app st1)) /\
                       prefix (configured (renderer (app st))) (configured (renderer (app st1)))));
    [|split; [exact Hwf|reflexivity]|exact Hrun].
  intros e st1 st2 [Hw1 Hp1] Hh. destruct (handle_event_renderer _ _ _ _ Hw1 Hh) as [Hw2 Hp2].
  split; [exact Hw2|]. etransitivity; eassumption.
Qed.

(** C25: [update] samples the six movement keys and sends them on every
    frame: on any context whose table has its 163 entries, and whether
    or not the frame is a fixed tick, it stores the [pressed] state of
    A, W, D, S, LShift and Space (in that order) and zero rotations in
    the player's movement, and appends one reliable [MovementInput]
    carrying them to the outbound queue. *)
Theorem update_sends_movement c s :
  length (key_states c) = KEY_COUNT -> movement_wf (movement (player s)) ->
  exists dirs,
    Forall2 (fun k d => pressed c k = Some d) movement_keys dirs /\
    update c s =
      Some (c, send_reliable_packet (MovementInput dirs [0; 0])
                 (set_player {| id := id (player s);
                                movement := {| directions := dirs; rotations := [0; 0] |} |} s)).
Proof.
  intros Hl [Hd Hr]. unfold update, update_player_movement.
  pressed_some c VK_A. pressed_some c VK_W. pressed_some c VK_D. pressed_some c VK_S.
  pressed_some c VK_LShift. pressed_some c VK_Space.
  eexists. split; [repeat constructor; eassumption|]. simpl.
  destruct (movement (player s)) as [ds rs]. simpl in *.
  do 6 (destruct ds as [|? ds]; [discriminate|]); destruct ds; [|discriminate].
  do 2 (destruct rs as [|? rs]; [discriminate|]); destruct rs; [|discriminate].
  reflexivity.
Qed.

(** C10: the client sends one movement packet per rendered frame, not per
    fixed tick: over any run of the client loop, the outbound queue
    grows by exactly the number of redraws of the window, of which only
    [count_true ticks] were fixed ticks. *)
Theorem client_sends_one_packet_per_frame interval evs (s : ClientState) t0 st' ticks :
  run_events interval evs (initial_loop_state s t0) = Some (st', ticks) ->
  length (packet_action_sender (app st')) = (length (packet_action_sender s) + length ticks)%nat.
Proof.
  intros Hrun.
  exact (run_events_count interval (fun st => length (packet_action_sender (app st)))
           (handle_event_sender interval) evs _ _ _ Hrun).
Qed.

(** ** Witnesses at concrete inputs. *)

Lemma update_sends_movement_witness :
  exists dirs,
    Forall2 (fun k d => pressed initial_ctx k = Some d) movement_keys dirs /\
    update initial_ctx sample_client_state =
      Some (initial_ctx,
            send_reliable_packet (MovementInput dirs [0; 0])
              (set_player {| id := id (player sample_client_state);
                             movement := {| directions := dirs; rotations := [0; 0] |} |}
                 sample_client_state)).
Proof. apply update_sends_movement; [apply length_replicate | split; reflexivity]. Defined.

Lemma client_sends_one_packet_per_frame_witness :
  exists st' ticks,
    run_events CLIENT_INTERVAL sample_events (initial_loop_state sample_client_state 0)
      = Some (st', ticks) /\
    length (packet_action_sender (app st')) =
      (length (packet_action_sender sample_client_state) + length ticks)%nat.
Proof.
  eexists _, _. split; [reflexivity|].
  apply (client_sends_one_packet_per_frame CLIENT_INTERVAL sample_events sample_client_state 0).
  reflexivity.
Defined.

Lemma client_loop_frames_witness :
  exists st' ticks,
    run_events CLIENT_INTERVAL sample_events (initial_loop_state sample_client_state 0)
      = Some (st', ticks) /\
    ctx_wf (ctx st') /\ frame (ctx st') = (1 + Z.of_nat (length ticks)) mod U64_MOD.
Proof.
  eexists _, _. split; [reflexivity|].
  apply (client_loop_frames CLIENT_INTERVAL sample_events sample_client_state 0). reflexivity.
Defined.

Lemma fixed_tick_cadence_witness :
  exists st' ticks,
    run_events CLIENT_INTERVAL sample_events (initial_loop_state sample_client_state 0)
      = Some (st', ticks) /\
    count_true ticks * (CLIENT_INTERVAL + 1 - 0) <= 40000000 - 0.
Proof.
  eexists _, _. split; [reflexivity|].
  eapply (fixed_tick_cadence CLIENT_INTERVAL sample_events sample_client_state 0 40000000 0).
  - unfold CLIENT_INTERVAL; lia.
  - lia.
  - repeat constructor; unfold clock_ok; simpl; lia.
  - reflexivity.
Defined.

Lemma fixed_ticks_no_catch_up_witness :
  exists st' ticks,
    run_events CLIENT_INTERVAL
      (periodic_redraws (app_window_id sample_client_state) 0 (2 * (CLIENT_INTERVAL + 1)) 0 3)
      (initial_loop_state sample_client_state 0) = Some (st', ticks) /\
    count_true ticks = Z.of_nat 3 /\
    count_true ticks < (Z.of_nat 3 * (2 * (CLIENT_INTERVAL + 1))) / CLIENT_INTERVAL - 1.
Proof. apply fixed_ticks_no_catch_up; unfold CLIENT_INTERVAL; lia. Defined.

(** Resizes to 1024x768, to a minimised window, and a redraw. *)
Definition resize_events : list Event :=
  [WindowEv 1 (Resized 1024 768); WindowEv 1 (Resized 0 0); MainEventsCleared;
   RedrawRequested 1 (sample_clock 10000000)].

Lemma client_run_renderer_wf_witness :
  exists st' ticks,
    run_events CLIENT_INTERVAL resize_events (initial_loop_state sample_client_state 0) = Some (st', ticks) /\
    renderer_wf (renderer (app st')) /\
    prefix (configured sample_renderer) (configured (renderer (app st'))).
Proof.
  destruct (run_events CLIENT_INTERVAL resize_events (initial_loop_state sample_client_state 0))
    as [[st' ticks]|] eqn:E; [|vm_compute in E; discriminate].
  exists st', ticks. split; [reflexivity|].
  apply (client_run_renderer_wf CLIENT_INTERVAL resize_events
           (initial_loop_state sample_client_state 0) st' ticks); [|exact E].
  split; [reflexivity|split; [reflexivity|repeat constructor; simpl; unfold MAX_TEXTURE_DIMENSION_2D; lia]].
Defined.

End Client.
