(* ===== verification/FramePipeline.v ===== *)
(** * The frame pipeline: the GPU side of [client_game_loop]
      ([src/client/src/game_loop.rs] lines 91-154, [src/client/src/ui_renderer.rs],
      [src/client/src/renderer.rs] lines 90-134)

    [ClientLoop] abstracts a redraw to the three callbacks.  Here the
    same closure is run with the calls it makes on the GPU and on imgui,
    recorded in order as a trace of [GpuCmd]s ([Pipeline] carries the
    scheduler's [LoopState], the [UiRenderer]'s state and the trace).
    The callbacks' own calls appear as the markers [CallOnUpdate],
    [CallOnUi] and [CallOnRender] at the points the code calls them.

    The environment of one event ([FrameEnv]) gives what the GPU and
    imgui answer: [get_current_texture]'s result, whether
    [prepare_frame] and the imgui renderer succeed (each is
    [expect]ed), and the mouse cursor imgui reports after [on_ui].  Any
    panic ends the process ([FramePanic]); [LoopPanic] is a panic the
    scheduler's model already has (a key code out of range, a resize
    wgpu refuses, a callback's).

    The refinement theorem shows that a run of this pipeline reaches
    the scheduler state [run_events] computes, and panics exactly when
    it does once the GPU never fails: the scheduler's theorems hold of
    the program with its GPU work in place. *)

From Stdlib Require Import QArith.
From stdpp Require Import strings.
From S2P Require Import Prelude InputState Renderer ClientLoop ClientMain.

Inductive MouseCursor :=
| Arrow | TextInput | ResizeAll | ResizeNS | ResizeEW | ResizeNESW | ResizeNWSE | Hand | NotAllowed.

#[export] Instance MouseCursor_eq_dec : EqDecision MouseCursor.
Proof. solve_decision. Defined.

(** imgui's set-up as [UiRenderer::new] leaves it: the ini file, the
    platform's DPI mode, the global font scale, the fonts added and the
    texture format the imgui renderer draws in. *)
Inductive HiDpiMode := HiDpiDefault | HiDpiRounded | HiDpiLocked (factor : Q).

Record FontConfig := { oversample_h : Z; pixel_snap_h : bool; size_pixels : Q }.

Record ImguiSetup := {
  ini_filename : option string;
  hidpi_mode : HiDpiMode;
  font_global_scale : Q;
  fonts : list FontConfig;
  texture_format : TextureFormat;
}.

(** [UiRenderer] (lines 12-17): the imgui context, platform and renderer
    as their set-up, and the cached cursor. *)
Record UiRenderer := { imgui : ImguiSetup; last_cursor : option (option MouseCursor) }.

(** [UiRenderer::new] (lines 20-56) for a window of scale factor
    [scale_factor]: the two [f64] results are converted by [as f32],
    which [to_f32] stands for (rounding to the nearest [f32]). *)
Definition UiRenderer_new (to_f32 : Q -> Q) (scale_factor : Q) (renderer : Renderer) : UiRenderer :=
  let font_size := to_f32 (13 * scale_factor)%Q in
  {| imgui := {| ini_filename := None;
                 hidpi_mode := HiDpiDefault;
                 font_global_scale := to_f32 (1 / scale_factor)%Q;
                 fonts := [{| oversample_h := 1; pixel_snap_h := true; size_pixels := font_size |}];
                 texture_format := format (surface_configuration renderer) |};
     last_cursor := None |}.

Inductive GpuCmd :=
| ImguiHandleEvent
| CallOnUpdate
| GetCurrentTexture
| CreateView
| CreateCommandEncoder
| BeginRenderPass (clear : Color)
| ImguiPrepareFrame
| ImguiNewFrame
| CallOnUi
| ImguiPrepareRender (cursor : option MouseCursor)
| ImguiRender
| CallOnRender
| EndRenderPass
| Submit
| Present.

Inductive FramePanic :=
| LoopPanic
| GpuPanic (p : RendererPanic)
| ImguiPrepareFrameFailed
| ImguiRenderFailed.

Record FrameEnv := {
  fe_surface : result unit SurfaceError;
  fe_prepare_frame : bool;
  fe_cursor : option MouseCursor;
  fe_imgui_render : bool;
}.

Record Pipeline (S : Type) := {
  pl_loop : LoopState S;
  pl_ui : UiRenderer;
  pl_trace : list GpuCmd;
}.
Arguments pl_loop {S}. Arguments pl_ui {S}. Arguments pl_trace {S}.

(** The [prepare_render] call of a frame, if the cursor changed. *)
Definition prepare_cmd (prepare : option (option MouseCursor)) : list GpuCmd :=
  match prepare with Some c => [ImguiPrepareRender c] | None => [] end.

(** The commands of one redraw of the window. *)
Definition frame_cmds (prepare : option (option MouseCursor)) : list GpuCmd :=
  [CallOnUpdate; GetCurrentTexture; CreateView; CreateCommandEncoder;
   BeginRenderPass CLEAR_COLOR; ImguiPrepareFrame; ImguiNewFrame; CallOnUi] ++
  prepare_cmd prepare ++
  [ImguiRender; CallOnRender; EndRenderPass; Submit; Present].

(** The [Renderer] methods of a frame (renderer.rs lines 94-134), each
    recording its GPU call; the render pass ends when it goes out of
    scope (game_loop.rs line 150). *)
Definition create_texture_view (tr : list GpuCmd) : list GpuCmd := tr ++ [CreateView].
Definition create_command_encoder (tr : list GpuCmd) : list GpuCmd := tr ++ [CreateCommandEncoder].
Definition create_render_pass (tr : list GpuCmd) : list GpuCmd := tr ++ [BeginRenderPass CLEAR_COLOR].
Definition present (tr : list GpuCmd) : list GpuCmd := tr ++ [Submit; Present].

(** [UiRenderer::handle_event] (ui_renderer.rs lines 120-123). *)
Definition ui_handle_event (tr : list GpuCmd) : list GpuCmd := tr ++ [ImguiHandleEvent].

Section Pipeline.
Context {S : Type} `{ClientApp S}.
Variable interval : Z.

(** [UiRenderer::render] (lines 89-118): prepare the imgui frame, run
    [on_ui], tell the platform about a changed cursor, render imgui into
    the pass. *)
Definition ui_render (fe : FrameEnv) (c : FrameContext) (s : S) (ui : UiRenderer)
  (tr : list GpuCmd) : result (FrameContext * S * UiRenderer * list GpuCmd) FramePanic :=
  if negb (fe_prepare_frame fe) then Err ImguiPrepareFrameFailed else
  let tr := tr ++ [ImguiPrepareFrame; ImguiNewFrame; CallOnUi] in
  let! (c, s) := ok_or LoopPanic (on_ui c s) in
  let mouse_cursor_option := fe_cursor fe in
  let '(ui, tr) :=
    if decide (last_cursor ui = Some mouse_cursor_option) then (ui, tr)
    else ({| imgui := imgui ui; last_cursor := Some mouse_cursor_option |},
          tr ++ [ImguiPrepareRender mouse_cursor_option]) in
  if negb (fe_imgui_render fe) then Err ImguiRenderFailed else
  Ok (c, s, ui, tr ++ [ImguiRender]).

(** The redraw branch (game_loop.rs lines 122-155) with its GPU work:
    [get_output], the view, the encoder and the render pass
    (renderer.rs lines 90-129), the UI, [on_render], the pass's end and
    [present] (lines 131-134). *)
Definition redraw_pipeline (clk : RedrawClock) (fe : FrameEnv) (pl : Pipeline S)
  : result (Pipeline S) FramePanic :=
  let st := pl_loop pl in
  let '(c, last_fixed) := tick_times interval clk st in
  let! (c, s) := ok_or LoopPanic (on_update c (app st)) in
  let! _ := res_map_err GpuPanic (get_output (fe_surface fe)) in
  let tr := pl_trace pl ++ [CallOnUpdate; GetCurrentTexture] in
  let tr := create_render_pass (create_command_encoder (create_texture_view tr)) in
  let! (c, s, ui, tr) := ui_render fe c s (pl_ui pl) tr in
  let! (c, s) := ok_or LoopPanic (on_render c s) in
  Ok {| pl_loop := {| ctx := advance_frame c; app := s; last_tick := t_now clk;
                      last_fixed_tick := last_fixed; control_flow := control_flow st |};
        pl_ui := ui;
        pl_trace := present ((tr ++ [CallOnRender]) ++ [EndRenderPass]) |}.

(** The closure (lines 96-159): [ui_renderer.handle_event] first, then
    the event; every arm but the redraw is [ClientLoop]'s. *)
Definition handle_event_pipeline (e : Event) (fe : FrameEnv) (pl : Pipeline S)
  : result (Pipeline S) FramePanic :=
  let pl := {| pl_loop := pl_loop pl; pl_ui := pl_ui pl; pl_trace := ui_handle_event (pl_trace pl) |} in
  match e with
  | RedrawRequested wid clk =>
      if Nat.eqb wid (app_window_id (app (pl_loop pl))) then redraw_pipeline clk fe pl else Ok pl
  | _ =>
      let! st := ok_or LoopPanic (handle_event interval e (pl_loop pl)) in
      Ok {| pl_loop := st; pl_ui := pl_ui pl; pl_trace := pl_trace pl |}
  end.

(** [event_loop.run] until [ControlFlow::Exit]. *)
Fixpoint run_pipeline (evs : list (Event * FrameEnv)) (pl : Pipeline S)
  : result (Pipeline S) FramePanic :=
  match control_flow (pl_loop pl), evs with
  | Exit, _ | _, [] => Ok pl
  | Poll, (e, fe) :: rest =>
      let! pl' := handle_event_pipeline e fe pl in
      run_pipeline rest pl'
  end.

End Pipeline.

(** The GPU and imgui answer without error. *)
Definition frame_env_ok (fe : FrameEnv) : bool :=
  match fe_surface fe with Ok _ => fe_prepare_frame fe && fe_imgui_render fe | Err _ => false end.

Definition is_present (c : GpuCmd) : bool := match c with Present => true | _ => false end.
Definition is_submit (c : GpuCmd) : bool := match c with Submit => true | _ => false end.

Definition count_cmd (p : GpuCmd -> bool) (tr : list GpuCmd) : nat := length (List.filter p tr).

(** The trace of one event: imgui's [handle_event], then, for a redraw of
    the window, one frame. *)
Definition event_segment (seg : list GpuCmd) : Prop :=
  seg = [ImguiHandleEvent] \/ exists b, seg = ImguiHandleEvent :: frame_cmds b.

(** The cursors [platform.prepare_render] was called for, in order. *)
Fixpoint prepared_cursors (tr : list GpuCmd) : list (option MouseCursor) :=
  match tr with
  | [] => []
  | ImguiPrepareRender c :: tr => c :: prepared_cursors tr
  | _ :: tr => prepared_cursors tr
  end.

Fixpoint no_repeat_adjacent {A} (l : list A) : Prop :=
  match l with
  | x :: ((y :: _) as rest) => x <> y /\ no_repeat_adjacent rest
  | _ => True
  end.

(** The pipeline's start (lines 83-94): the scheduler's initial state,
    the [UiRenderer] built at line 91, no command yet. *)
Definition initial_pipeline {S} (s : S) (ui : UiRenderer) (t0 : Z) : Pipeline S :=
  {| pl_loop := initial_loop_state s t0; pl_ui := ui; pl_trace := [] |}.

(** ** Lemmas. *)

Section Props.
Context {S : Type} `{ClientApp S}.
Variable interval : Z.

Lemma ui_render_spec fe c s ui tr c' s' ui' tr' :
  ui_render fe c s ui tr = Ok (c', s', ui', tr') ->
  on_ui c s = Some (c', s') /\ imgui ui' = imgui ui /\
  exists b, tr' = tr ++ [ImguiPrepareFrame; ImguiNewFrame; CallOnUi] ++ prepare_cmd b ++ [ImguiRender] /\
    (b = None /\ ui' = ui /\ last_cursor ui = Some (fe_cursor fe) \/
     b = Some (fe_cursor fe) /\ last_cursor ui' = Some (fe_cursor fe) /\
     last_cursor ui <> Some (fe_cursor fe)).
Proof.
  unfold ui_render. destruct (fe_prepare_frame fe); simpl; [|discriminate].
  destruct (on_ui c s) as [[c1 s1]|]; simpl; [|discriminate].
  case_decide; destruct (fe_imgui_render fe); simpl; try discriminate;
    intros Hok; apply Ok_inj in Hok; inversion Hok; subst; split; auto; split; auto.
  - exists None. simpl. rewrite <- !app_assoc. auto.
  - exists (Some (fe_cursor fe)). simpl. rewrite <- !app_assoc. auto.
Qed.

Lemma ui_render_complete fe c s ui tr :
  fe_prepare_frame fe = true -> fe_imgui_render fe = true ->
  match on_ui c s with
  | None => ui_render fe c s ui tr = Err LoopPanic
  | Some (c', s') => exists ui' tr', ui_render fe c s ui tr = Ok (c', s', ui', tr')
  end.
Proof.
  intros Hp Hr. unfold ui_render. rewrite Hp. simpl.
  destruct (on_ui c s) as [[c1 s1]|]; simpl; [|reflexivity].
  case_decide; rewrite Hr; simpl; eauto.
Qed.

Lemma redraw_pipeline_spec clk fe (pl pl' : Pipeline S) :
  redraw_pipeline interval clk fe pl = Ok pl' ->
  redraw interval clk (pl_loop pl) = Some (pl_loop pl') /\ imgui (pl_ui pl') = imgui (pl_ui pl) /\
  exists b, pl_trace pl' = pl_trace pl ++ frame_cmds b /\
    (b = None /\ pl_ui pl' = pl_ui pl /\ last_cursor (pl_ui pl) = Some (fe_cursor fe) \/
     b = Some (fe_cursor fe) /\ last_cursor (pl_ui pl') = Some (fe_cursor fe) /\
     last_cursor (pl_ui pl) <> Some (fe_cursor fe)).
Proof.
  unfold redraw_pipeline, redraw. destruct (tick_times interval clk (pl_loop pl)) as [c lf].
  destruct (on_update c (app (pl_loop pl))) as [[c1 s1]|]; simpl; [|discriminate].
  destruct (fe_surface fe); simpl; [|discriminate].
  destruct (ui_render fe c1 s1 _ _) as [[[[c2 s2] ui2] tr2]|] eqn:Eu; simpl; [|discriminate].
  apply ui_render_spec in Eu as [Eui [Him [b [Etr Hui]]]]. rewrite Eui. simpl.
  destruct (on_render c2 s2) as [[c3 s3]|]; simpl; [|discriminate].
  intros Hok. apply Ok_inj in Hok. subst pl'. simpl. split; [reflexivity|].
  split; [exact Him|]. exists b. split; [|exact Hui]. rewrite Etr. unfold present, create_render_pass, create_command_encoder, create_texture_view, frame_cmds.
  rewrite <- !app_assoc. reflexivity.
Qed.

Lemma redraw_pipeline_complete clk fe (pl : Pipeline S) :
  frame_env_ok fe = true ->
  match redraw interval clk (pl_loop pl) with
  | None => redraw_pipeline interval clk fe pl = Err LoopPanic
  | Some st' => exists pl', redraw_pipeline interval clk fe pl = Ok pl' /\ pl_loop pl' = st'
  end.
Proof.
  unfold frame_env_ok. destruct (fe_surface fe) as [[]|] eqn:Es; [|discriminate].
  intros Hok. apply andb_true_iff in Hok as [Hp Hr].
  unfold redraw_pipeline, redraw. destruct (tick_times interval clk (pl_loop pl)) as [c lf].
  destruct (on_update c (app (pl_loop pl))) as [[c1 s1]|]; simpl; [|reflexivity].
  rewrite Es. simpl.
  pose proof (ui_render_complete fe c1 s1 (pl_ui pl)
    (create_render_pass (create_command_encoder (create_texture_view
       (pl_trace pl ++ [CallOnUpdate; GetCurrentTexture])))) Hp Hr) as Hu.
  destruct (on_ui c1 s1) as [[c2 s2]|]; simpl; [|rewrite Hu; reflexivity].
  destruct Hu as (ui' & tr' & ->). simpl.
  destruct (on_render c2 s2) as [[c3 s3]|]; simpl; eauto.
Qed.

Lemma handle_event_pipeline_spec e fe (pl pl' : Pipeline S) :
  handle_event_pipeline interval e fe pl = Ok pl' ->
  handle_event interval e (pl_loop pl) = Some (pl_loop pl') /\
  exists seg, pl_trace pl' = pl_trace pl ++ seg /\ event_segment seg /\
    count_cmd is_present seg = length (tick_of interval (pl_loop pl) e) /\
    count_cmd is_submit seg = length (tick_of interval (pl_loop pl) e).
Proof.
  unfold handle_event_pipeline, tick_of.
  destruct e as [wid we| |wid clk|]; cbv beta iota zeta; cbn [pl_loop pl_ui pl_trace is_redraw_of];
    try (destruct (handle_event interval _ (pl_loop pl)) as [st|] eqn:E; simpl; [|discriminate];
         intros Hok; apply Ok_inj in Hok; subst pl'; simpl; split; [reflexivity|];
         exists [ImguiHandleEvent]; split; [reflexivity|]; split; [left; reflexivity|];
         unfold count_cmd; simpl; split; reflexivity).
  cbn [handle_event]. destruct (Nat.eqb wid (app_window_id (app (pl_loop pl)))).
  - intros Hr. apply redraw_pipeline_spec in Hr as [Hr [_ [b [Htr _]]]]. cbn [pl_loop pl_trace] in Hr, Htr. unfold ui_handle_event in Htr.
    split; [exact Hr|]. exists (ImguiHandleEvent :: frame_cmds b).
    rewrite Htr, <- app_assoc. split; [reflexivity|]. split; [right; eauto|].
    unfold count_cmd, frame_cmds. destruct b; simpl; split; reflexivity.
  - intros Hok. apply Ok_inj in Hok. subst pl'. simpl. split; [reflexivity|].
    exists [ImguiHandleEvent]. split; [reflexivity|]. split; [left; reflexivity|].
    unfold count_cmd; simpl; split; reflexivity.
Qed.

Lemma handle_event_pipeline_complete e fe (pl : Pipeline S) :
  frame_env_ok fe = true ->
  match handle_event interval e (pl_loop pl) with
  | None => handle_event_pipeline interval e fe pl = Err LoopPanic
  | Some st' => exists pl', handle_event_pipeline interval e fe pl = Ok pl' /\ pl_loop pl' = st'
  end.
Proof.
  intros Hok. unfold handle_event_pipeline.
  destruct e as [wid we| |wid clk|]; cbv beta iota zeta; cbn [pl_loop pl_ui pl_trace];
    try (destruct (handle_event interval _ (pl_loop pl)); simpl; eauto; fail).
  cbn [handle_event]. destruct (Nat.eqb wid (app_window_id (app (pl_loop pl)))); [|eauto].
  exact (redraw_pipeline_complete clk fe
           {| pl_loop := pl_loop pl; pl_ui := pl_ui pl; pl_trace := ui_handle_event (pl_trace pl) |} Hok).
Qed.

Lemma count_cmd_app p t1 t2 : count_cmd p (t1 ++ t2) = (count_cmd p t1 + count_cmd p t2)%nat.
Proof. unfold count_cmd. rewrite List.filter_app, length_app. reflexivity. Qed.

End Props.

Section Runs.
Context {S : Type} `{ClientApp S}.
Variable interval : Z.

(** A run of the pipeline that returns reaches the scheduler's state,
    one trace segment per event handled. *)
Lemma run_pipeline_trace evs : forall (pl pl' : Pipeline S),
  run_pipeline interval evs pl = Ok pl' ->
  exists ticks segs,
    run_events interval (map fst evs) (pl_loop pl) = Some (pl_loop pl', ticks) /\
    pl_trace pl' = pl_trace pl ++ concat segs /\ Forall event_segment segs /\
    count_cmd is_present (concat segs) = length ticks /\
    count_cmd is_submit (concat segs) = length ticks.
Proof.
  induction evs as [|[e fe] evs IH]; intros pl pl' Hr; simpl in *.
  - destruct (control_flow (pl_loop pl)); apply Ok_inj in Hr; subst pl';
      exists [], []; rewrite app_nil_r; repeat split; auto.
  - destruct (control_flow (pl_loop pl)).
    + destruct (handle_event_pipeline interval e fe pl) as [pl1|] eqn:E; simpl in Hr; [|discriminate].
      apply handle_event_pipeline_spec in E as [He (seg & Ht & Hseg & Hp & Hs)].
      destruct (IH _ _ Hr) as (ticks & segs & Hrun & Ht' & Hsegs & Hp' & Hs').
      rewrite He. simpl. rewrite Hrun. simpl.
      exists (tick_of interval (pl_loop pl) e ++ ticks), (seg :: segs).
      rewrite Ht', Ht, <- app_assoc. simpl. rewrite !count_cmd_app, length_app.
      repeat split; auto; lia.
    + apply Ok_inj in Hr; subst pl'. exists [], []. rewrite app_nil_r. repeat split; auto.
Qed.

(** When the GPU never fails, the pipeline panics exactly where the
    scheduler's model does. *)
Lemma run_pipeline_complete evs : forall (pl : Pipeline S),
  Forall (fun x => frame_env_ok x.2 = true) evs ->
  match run_events interval (map fst evs) (pl_loop pl) with
  | Some (st', _) => exists pl', run_pipeline interval evs pl = Ok pl' /\ pl_loop pl' = st'
  | None => run_pipeline interval evs pl = Err LoopPanic
  end.
Proof.
  induction evs as [|[e fe] evs IH]; intros pl Hok; simpl.
  - destruct (control_flow (pl_loop pl)); eauto.
  - apply Forall_cons in Hok as [Hfe Hok]. simpl in Hfe.
    destruct (control_flow (pl_loop pl)); [|eauto].
    pose proof (handle_event_pipeline_complete interval e fe pl Hfe) as Hc.
    destruct (handle_event interval e (pl_loop pl)) as [st1|]; simpl; [|rewrite Hc; reflexivity].
    destruct Hc as (pl1 & -> & <-). simpl. specialize (IH pl1 Hok).
    destruct (run_events interval (map fst evs) (pl_loop pl1)) as [[st2 ticks]|]; exact IH.
Qed.

Lemma prepared_cursors_app t1 t2 :
  prepared_cursors (t1 ++ t2) = prepared_cursors t1 ++ prepared_cursors t2.
Proof. induction t1 as [|[] t1 IH]; simpl; try rewrite IH; reflexivity. Qed.

Lemma no_repeat_adjacent_snoc {A} (l : list A) x :
  no_repeat_adjacent l -> last l <> Some x -> no_repeat_adjacent (l ++ [x]).
Proof.
  induction l as [|y [|z l] IH]; simpl; intros Hl Hx; auto.
  - split; [congruence|exact I].
  - destruct Hl as [Hyz Hl]. split; [exact Hyz|]. apply IH; assumption.
Qed.

(** The cursor cache of [UiRenderer]: [last_cursor] is the cursor of
    the last [prepare_render], and no two consecutive calls share one. *)
Lemma handle_event_pipeline_cursor e fe (pl pl' : Pipeline S) :
  no_repeat_adjacent (prepared_cursors (pl_trace pl)) ->
  last_cursor (pl_ui pl) = last (prepared_cursors (pl_trace pl)) ->
  handle_event_pipeline interval e fe pl = Ok pl' ->
  no_repeat_adjacent (prepared_cursors (pl_trace pl')) /\
  last_cursor (pl_ui pl') = last (prepared_cursors (pl_trace pl')).
Proof.
  intros Hn Hl Hh.
  assert (Hb : prepared_cursors (ui_handle_event (pl_trace pl)) = prepared_cursors (pl_trace pl))
    by (unfold ui_handle_event; rewrite prepared_cursors_app, app_nil_r; reflexivity).
  revert Hh. unfold handle_event_pipeline.
  destruct e as [wid we| |wid clk|]; cbv beta iota zeta; cbn [pl_loop pl_ui pl_trace];
    try (destruct (handle_event interval _ (pl_loop pl)); simpl; [|discriminate];
         intros Hok; apply Ok_inj in Hok; subst pl'; simpl; rewrite Hb; auto; fail).
  destruct (Nat.eqb wid (app_window_id (app (pl_loop pl)))).
  - intros Hr. apply redraw_pipeline_spec in Hr as [_ [_ [b [Htr Hui]]]]. cbn [pl_ui pl_trace] in Htr, Hui.
    rewrite Htr, prepared_cursors_app, Hb.
    destruct Hui as [(-> & -> & _)|(-> & Hc & Hne)]; simpl.
    + rewrite app_nil_r. auto.
    + rewrite last_snoc. split; [|exact Hc]. apply no_repeat_adjacent_snoc; [exact Hn|congruence].
  - intros Hok. apply Ok_inj in Hok. subst pl'. simpl. rewrite Hb. auto.
Qed.

(** No event changes imgui's set-up. *)
Lemma handle_event_pipeline_imgui e fe (pl pl' : Pipeline S) :
  handle_event_pipeline interval e fe pl = Ok pl' -> imgui (pl_ui pl') = imgui (pl_ui pl).
Proof.
  unfold handle_event_pipeline.
  destruct e as [wid we| |wid clk|]; cbv beta iota zeta; cbn [pl_loop pl_ui pl_trace];
    try (destruct (handle_event interval _ (pl_loop pl)); simpl; [|discriminate];
         intros Hok; apply Ok_inj in Hok; subst pl'; reflexivity).
  destruct (Nat.eqb wid (app_window_id (app (pl_loop pl)))).
  - intros Hr. apply redraw_pipeline_spec in Hr as [_ [Him _]]. exact Him.
  - intros Hok. apply Ok_inj in Hok. subst pl'. reflexivity.
Qed.

Lemma run_pipeline_invariant (I : Pipeline S -> Prop) :
  (forall e fe pl pl', I pl -> handle_event_pipeline interval e fe pl = Ok pl' -> I pl') ->
  forall evs pl pl', I pl -> run_pipeline interval evs pl = Ok pl' -> I pl'.
Proof.
  intros Hstep evs. induction evs as [|[e fe] evs IH]; intros pl pl' HI Hr; simpl in Hr.
  - destruct (control_flow (pl_loop pl)); apply Ok_inj in Hr; subst; exact HI.
  - destruct (control_flow (pl_loop pl)); [|apply Ok_inj in Hr; subst; exact HI].
    destruct (handle_event_pipeline interval e fe pl) as [pl1|] eqn:E; simpl in Hr; [|discriminate].
    exact (IH pl1 pl' (Hstep e fe pl pl1 HI E) Hr).
Qed.

End Runs.

(** ** Theorems. *)

Section Claims.
Context {S : Type} `{ClientApp S}.
Variable interval : Z.

(** C8: the GPU-level event loop refines the scheduler's: every run of
    the pipeline that returns reaches the very loop state [run_events]
    computes on the same events; and when [get_current_texture],
    imgui's frame preparation and imgui's renderer never fail, the
    pipeline returns exactly when [run_events] does, with the same
    state, and otherwise panics where the scheduler's model panics. *)
Theorem pipeline_refines_scheduler evs (pl : Pipeline S) :
  (forall pl', run_pipeline interval evs pl = Ok pl' ->
   exists ticks, run_events interval (map fst evs) (pl_loop pl) = Some (pl_loop pl', ticks)) /\
  (Forall (fun x => frame_env_ok x.2 = true) evs ->
   match run_events interval (map fst evs) (pl_loop pl) with
   | Some (st', _) => exists pl', run_pipeline interval evs pl = Ok pl' /\ pl_loop pl' = st'
   | None => run_pipeline interval evs pl = Err LoopPanic
   end).
Proof.
  split; [|apply run_pipeline_complete].
  intros pl' Hr. destruct (run_pipeline_trace interval evs pl pl' Hr) as (ticks & _ & Hrun & _). eauto.
Qed.

(** C17: what the client sends to the GPU, in order.  From the loop's
    start, a run that returns records, for each event, imgui's
    [handle_event] followed, for a redraw of the window, by exactly one
    frame: [on_update], acquire the texture, view, encoder, a render pass
    cleared to (0.1, 0.2, 0.3, 1.0), imgui's frame and [on_ui], imgui's
    draw commands, then [on_render]'s, end of pass, one submit and one
    present.  So the frames presented are the redraws, one each, and
    the UI callback runs before the render callback, as the spec's step
    4 orders them. *)
Theorem pipeline_frames evs (s : S) ui t0 (pl' : Pipeline S) :
  run_pipeline interval evs (initial_pipeline s ui t0) = Ok pl' ->
  exists ticks segs,
    run_events interval (map fst evs) (initial_loop_state s t0) = Some (pl_loop pl', ticks) /\
    pl_trace pl' = concat segs /\ Forall event_segment segs /\
    count_cmd is_present (pl_trace pl') = length ticks /\
    count_cmd is_submit (pl_trace pl') = length ticks.
Proof.
  intros Hr. destruct (run_pipeline_trace interval evs _ _ Hr) as (ticks & segs & Hrun & Ht & Hrest).
  simpl in Ht. exists ticks, segs. rewrite Ht. auto.
Qed.

(** C18: the [UiRenderer]'s cursor cache (ui_renderer.rs lines 104-108)
    does its job over every run from the loop's start: the platform's
    [prepare_render] is never called twice in a row for the same
    cursor, and [last_cursor] always holds the cursor of the last call
    ([None] before the first). *)
Theorem pipeline_cursor_cache evs (s : S) to_f32 scale r t0 (pl' : Pipeline S) :
  run_pipeline interval evs (initial_pipeline s (UiRenderer_new to_f32 scale r) t0) = Ok pl' ->
  no_repeat_adjacent (prepared_cursors (pl_trace pl')) /\
  last_cursor (pl_ui pl') = last (prepared_cursors (pl_trace pl')).
Proof.
  apply (run_pipeline_invariant interval
           (fun pl => no_repeat_adjacent (prepared_cursors (pl_trace pl)) /\
                      last_cursor (pl_ui pl) = last (prepared_cursors (pl_trace pl)))).
  - intros e fe pl pl1 [Hn Hl]. exact (handle_event_pipeline_cursor interval e fe pl pl1 Hn Hl).
  - simpl. auto.
Qed.

End Claims.

(** ** Witnesses, on the client's own callbacks. *)

Import Client.

(** The UI renderer of an 800x600 window at scale factor 1, with [as f32]
    exact on the values involved (13 and 1). *)
Definition sample_ui : UiRenderer := UiRenderer_new (fun q => q) 1 sample_renderer.

Definition ok_frame_env : FrameEnv :=
  {| fe_surface := Ok tt; fe_prepare_frame := true; fe_cursor := Some Arrow; fe_imgui_render := true |}.

Definition sample_frames : list (Event * FrameEnv) := map (fun e => (e, ok_frame_env)) sample_events.

Lemma pipeline_refines_scheduler_witness :
  match run_events CLIENT_INTERVAL (map fst sample_frames) (initial_loop_state sample_client_state 0) with
  | Some (st', _) => exists pl', run_pipeline CLIENT_INTERVAL sample_frames
                                   (initial_pipeline sample_client_state sample_ui 0) = Ok pl' /\ pl_loop pl' = st'
  | None => run_pipeline CLIENT_INTERVAL sample_frames (initial_pipeline sample_client_state sample_ui 0) = Err LoopPanic
  end.
Proof.
  apply (proj2 (pipeline_refines_scheduler CLIENT_INTERVAL sample_frames (initial_pipeline sample_client_state sample_ui 0))).
  repeat constructor.
Defined.

Lemma pipeline_frames_witness :
  exists pl', run_pipeline CLIENT_INTERVAL sample_frames (initial_pipeline sample_client_state sample_ui 0) = Ok pl' /\
  exists ticks segs,
    run_events CLIENT_INTERVAL (map fst sample_frames) (initial_loop_state sample_client_state 0)
      = Some (pl_loop pl', ticks) /\
    pl_trace pl' = concat segs /\ Forall event_segment segs /\
    count_cmd is_present (pl_trace pl') = length ticks /\
    count_cmd is_submit (pl_trace pl') = length ticks.
Proof.
  destruct (run_pipeline CLIENT_INTERVAL sample_frames (initial_pipeline sample_client_state sample_ui 0))
    as [pl'|e] eqn:E; [|vm_compute in E; discriminate].
  exists pl'. split; [reflexivity|].
  exact (pipeline_frames CLIENT_INTERVAL sample_frames sample_client_state sample_ui 0 pl' E).
Defined.

(** Two redraws with the cursor changing between them, then one without. *)
Definition cursor_frames : list (Event * FrameEnv) :=
  [(RedrawRequested 1 (sample_clock 10000000), ok_frame_env);
   (RedrawRequested 1 (sample_clock 20000000),
      {| fe_surface := Ok tt; fe_prepare_frame := true; fe_cursor := Some Hand; fe_imgui_render := true |});
   (RedrawRequested 1 (sample_clock 30000000),
      {| fe_surface := Ok tt; fe_prepare_frame := true; fe_cursor := Some Hand; fe_imgui_render := true |})].

Lemma pipeline_cursor_cache_witness :
  exists pl', run_pipeline CLIENT_INTERVAL cursor_frames (initial_pipeline sample_client_state sample_ui 0) = Ok pl' /\
    no_repeat_adjacent (prepared_cursors (pl_trace pl')) /\
    last_cursor (pl_ui pl') = last (prepared_cursors (pl_trace pl')).
Proof.
  destruct (run_pipeline CLIENT_INTERVAL cursor_frames (initial_pipeline sample_client_state sample_ui 0))
    as [pl'|e] eqn:E; [|vm_compute in E; discriminate].
  exists pl'. split; [reflexivity|].
  exact (pipeline_cursor_cache CLIENT_INTERVAL cursor_frames sample_client_state (fun q => q) 1 sample_renderer 0 pl' E).
Defined.

(** ** The client's UI and surface formats. *)

(** C19: imgui draws in the surface's format for the whole run: the
    [UiRenderer] built at line 91 takes its texture format from the
    renderer's surface configuration, no event changes imgui's set-up,
    and no event, resizes included, changes the surface's format; so
    after every run that returns, imgui's pipelines and the render
    pass's target still agree on the format (wgpu refuses a pass whose
    pipelines target another format). *)
Theorem imgui_format_matches_surface interval evs to_f32 scale (s : ClientState) t0 pl' :
  run_pipeline interval evs (initial_pipeline s (UiRenderer_new to_f32 scale (renderer s)) t0) = Ok pl' ->
  texture_format (imgui (pl_ui pl')) = format (surface_configuration (renderer (app (pl_loop pl')))) /\
  texture_format (imgui (pl_ui pl')) = format (surface_configuration (renderer s)).
Proof.
  intros Hr.
  assert (Hinv : texture_format (imgui (pl_ui pl')) = format (surface_configuration (renderer s)) /\
                 format (surface_configuration (renderer (app (pl_loop pl')))) =
                 format (surface_configuration (renderer s))).
  { apply (run_pipeline_invariant interval
             (fun pl => texture_format (imgui (pl_ui pl)) = format (surface_configuration (renderer s)) /\
                        format (surface_configuration (renderer (app (pl_loop pl)))) =
                        format (surface_configuration (renderer s))) ) with (evs := evs)
      (pl := initial_pipeline s (UiRenderer_new to_f32 scale (renderer s)) t0); [|split; reflexivity|exact Hr].
    intros e fe pl pl1 [H1 H2] Hh.
    rewrite (handle_event_pipeline_imgui interval e fe pl pl1 Hh).
    destruct (handle_event_pipeline_spec interval e fe pl pl1 Hh) as [He _].
    rewrite (handle_event_format interval e _ _ He). auto. }
  destruct Hinv as [H1 H2]. split; congruence.
Qed.

Lemma imgui_format_matches_surface_witness :
  exists pl', run_pipeline CLIENT_INTERVAL cursor_frames (initial_pipeline sample_client_state sample_ui 0) = Ok pl' /\
    texture_format (imgui (pl_ui pl')) = format (surface_configuration (renderer (app (pl_loop pl')))) /\
    texture_format (imgui (pl_ui pl')) = format (surface_configuration (renderer sample_client_state)).
Proof.
  destruct (run_pipeline CLIENT_INTERVAL cursor_frames (initial_pipeline sample_client_state sample_ui 0))
    as [pl'|e] eqn:E; [|vm_compute in E; discriminate].
  exists pl'. split; [reflexivity|].
  exact (imgui_format_matches_surface CLIENT_INTERVAL cursor_frames (fun q => q) 1 sample_client_state 0 pl' E).
Defined.
