(* ===== verification/ServerLoop.v ===== *)
(** * The server scheduler: [server_game_loop] ([src/server/src/game_loop.rs])

    The loop never returns ([-> Infallible]); the model runs a finite
    prefix of it, one [server_iteration] per clock sample.  An
    iteration reads the clock twice, as the code does: [Instant::now()]
    (line 15) and [last_fixed_tick.elapsed()] (line 20); a
    [ServerClock] carries both readings.  The callbacks are the
    Section's variables [update] and [fixed_update]; each iteration
    also reports, as a ghost list of [Call]s, the duration argument it
    passed to each callback, which is what the theorems are about.
    [Instant - Instant] saturates at zero ([sat_sub]). *)

From S2P Require Import Prelude.

Record ServerClock := { s_now : Z; s_check : Z }.

Inductive Call := CallUpdate (dt : Z) | CallFixedUpdate (dt : Z).

Record ServerLoopState (S : Type) := {
  state : S;
  last_tick : Z;
  last_fixed_tick : Z;
}.
Arguments state {S}. Arguments last_tick {S}. Arguments last_fixed_tick {S}.

Section ServerGameLoop.
Context {S : Type}.
Variable update : S -> Z -> S.
Variable fixed_update : S -> Z -> S.
Variable interval : Z.

(** One turn of [loop { ... }] (lines 14-26): [update] with
    [last_tick - now], then, unless [last_fixed_tick.elapsed() <
    interval] [continue]s, [fixed_update] with [last_fixed_tick - now]. *)
Definition server_iteration (clk : ServerClock) (st : ServerLoopState S)
  : ServerLoopState S * list Call :=
  let now := s_now clk in
  let dt := sat_sub (last_tick st) now in
  let s := update (state st) dt in
  if sat_sub (s_check clk) (last_fixed_tick st) <? interval then
    ({| state := s; last_tick := now; last_fixed_tick := last_fixed_tick st |}, [CallUpdate dt])
  else
    let fdt := sat_sub (last_fixed_tick st) now in
    ({| state := fixed_update s fdt; last_tick := now; last_fixed_tick := now |},
     [CallUpdate dt; CallFixedUpdate fdt]).

Fixpoint run_server (clks : list ServerClock) (st : ServerLoopState S)
  : ServerLoopState S * list Call :=
  match clks with
  | [] => (st, [])
  | clk :: rest =>
      let '(st', calls) := server_iteration clk st in
      let '(st'', calls') := run_server rest st' in
      (st'', calls ++ calls')
  end.

End ServerGameLoop.

(** Lines 11-13: both instants start at the loop's start. *)
Definition initial_server_loop {S} (s : S) (t0 : Z) : ServerLoopState S :=
  {| state := s; last_tick := t0; last_fixed_tick := t0 |}.

(** A monotone clock: each iteration's two readings in order, each
    iteration no earlier than the previous one, none before [t0]. *)
Fixpoint clock_monotone (t0 : Z) (clks : list ServerClock) : Prop :=
  match clks with
  | [] => True
  | clk :: rest => t0 <= s_now clk <= s_check clk /\ clock_monotone (s_now clk) rest
  end.

Definition call_dt (c : Call) : Z := match c with CallUpdate dt | CallFixedUpdate dt => dt end.

Definition is_fixed_call (c : Call) : bool := match c with CallFixedUpdate _ => true | _ => false end.

Definition count_fixed (calls : list Call) : Z := Z.of_nat (length (List.filter is_fixed_call calls)).
Definition count_update (calls : list Call) : Z :=
  Z.of_nat (length (List.filter (fun c => negb (is_fixed_call c)) calls)).

Section Props.
Context {S : Type}.
Variable update : S -> Z -> S.
Variable fixed_update : S -> Z -> S.
Variable interval : Z.

Lemma count_fixed_app c1 c2 : count_fixed (c1 ++ c2) = count_fixed c1 + count_fixed c2.
Proof. unfold count_fixed. rewrite List.filter_app, length_app. lia. Qed.

Lemma count_update_app c1 c2 : count_update (c1 ++ c2) = count_update c1 + count_update c2.
Proof. unfold count_update. rewrite List.filter_app, length_app. lia. Qed.

(** One iteration: its calls, how it moves the two instants. *)
Lemma server_iteration_spec clk (st : ServerLoopState S) :
  let '(st', calls) := server_iteration update fixed_update interval clk st in
  last_tick st' = s_now clk /\ count_update calls = 1 /\
  ((calls = [CallUpdate (sat_sub (last_tick st) (s_now clk))] /\
    last_fixed_tick st' = last_fixed_tick st /\
    sat_sub (s_check clk) (last_fixed_tick st) < interval) \/
   (calls = [CallUpdate (sat_sub (last_tick st) (s_now clk));
             CallFixedUpdate (sat_sub (last_fixed_tick st) (s_now clk))] /\
    last_fixed_tick st' = s_now clk /\
    interval <= sat_sub (s_check clk) (last_fixed_tick st))).
Proof.
  unfold server_iteration.
  destruct (Z.ltb_spec (sat_sub (s_check clk) (last_fixed_tick st)) interval);
    simpl; unfold count_update; simpl; auto 10.
Qed.

(** Over a monotone clock, every duration handed to a callback is zero,
    and the run's two instants stay at or below the latest reading. *)
Lemma run_server_dt clks : forall t (st : ServerLoopState S),
  last_tick st <= t -> last_fixed_tick st <= t -> clock_monotone t clks ->
  Forall (fun c => call_dt c = 0) (run_server update fixed_update interval clks st).2.
Proof.
  induction clks as [|clk clks IH]; intros t st Ht Hf Hm; simpl; [constructor|].
  destruct Hm as [[Hn Hc] Hm].
  pose proof (server_iteration_spec clk st) as Hs.
  destruct (server_iteration update fixed_update interval clk st) as [st1 calls] eqn:E.
  destruct (run_server update fixed_update interval clks st1) as [st2 calls2] eqn:E2. simpl.
  destruct Hs as (Hl & _ & [(-> & Hf1 & _) | (-> & Hf1 & _)]);
    apply Forall_app; (split; [repeat constructor; simpl; unfold sat_sub; lia|]);
    (replace calls2 with (run_server update fixed_update interval clks st1).2 by (rewrite E2; reflexivity));
    apply (IH (s_now clk)); lia || exact Hm.
Qed.

Lemma run_server_counts jitter clks : forall t (st : ServerLoopState S),
  0 <= interval -> last_fixed_tick st <= t -> clock_monotone t clks ->
  Forall (fun clk => s_check clk <= s_now clk + jitter) clks ->
  let '(st', calls) := run_server update fixed_update interval clks st in
  count_update calls = Z.of_nat (length clks) /\
  count_fixed calls * (interval - jitter) <= last_fixed_tick st' - last_fixed_tick st /\
  (last_fixed_tick st' = last_fixed_tick st \/ exists clk, In clk clks /\ last_fixed_tick st' = s_now clk).
Proof.
  induction clks as [|clk clks IH]; intros t st HI Hf Hm Hj; simpl.
  { unfold count_update, count_fixed; simpl. lia. }
  destruct Hm as [[Hn Hc] Hm]. apply Forall_cons in Hj as [Hj1 Hj].
  pose proof (server_iteration_spec clk st) as Hs.
  destruct (server_iteration update fixed_update interval clk st) as [st1 calls] eqn:E.
  destruct Hs as (Hl & Hu & Hcase).
  assert (Hf1 : last_fixed_tick st1 <= s_now clk) by (destruct Hcase as [(_ & -> & _)|(_ & -> & _)]; lia).
  specialize (IH (s_now clk) st1 HI Hf1 Hm Hj).
  destruct (run_server update fixed_update interval clks st1) as [st2 calls2].
  destruct IH as (Hu2 & Hc2 & Hl2).
  rewrite count_update_app, count_fixed_app, Hu, Hu2. split; [simpl length; lia|].
  unfold sat_sub in Hcase.
  destruct Hcase as [(-> & Hf1' & _)|(-> & Hf1' & Hge)]; unfold count_fixed at 1; simpl.
  - split; [lia|]. destruct Hl2 as [->|(c & Hin & ->)]; [left; exact Hf1'|right; eauto].
  - split; [lia|]. right. destruct Hl2 as [->|(c & Hin & ->)]; [exists clk|exists c]; auto.
Qed.

End Props.

Section Claims.
Context {S : Type}.
Variable update : S -> Z -> S.
Variable fixed_update : S -> Z -> S.
Variable interval : Z.

(** C7: the server hands its callbacks no elapsed time: [update] gets
    [last_tick - now] and [fixed_update] gets [last_fixed_tick - now],
    the operands in the wrong order, which [Instant]'s saturating
    subtraction turns into zero for every call of every run on a
    monotone clock. *)
Theorem server_dt_always_zero (s : S) t0 clks :
  clock_monotone t0 clks ->
  Forall (fun c => call_dt c = 0)
    (run_server update fixed_update interval clks (initial_server_loop s t0)).2.
Proof. intros Hm. apply (run_server_dt update fixed_update interval clks t0); simpl; lia || exact Hm. Qed.

(** C23: fixed-rate cadence of the server.  Over a run on a monotone clock
    whose readings stay below [T] and whose two readings per iteration
    are at most [jitter] apart, [update] runs once per iteration and the
    number [n] of [fixed_update] calls satisfies
    [n * (interval - jitter) <= T - t0]: with [jitter = 0],
    [n <= (T - t0) / interval]. *)
Theorem server_fixed_cadence (s : S) t0 T jitter clks :
  0 <= interval -> t0 <= T -> clock_monotone t0 clks ->
  Forall (fun clk => s_check clk <= s_now clk + jitter /\ s_now clk <= T) clks ->
  count_update (run_server update fixed_update interval clks (initial_server_loop s t0)).2
    = Z.of_nat (length clks) /\
  count_fixed (run_server update fixed_update interval clks (initial_server_loop s t0)).2
    * (interval - jitter) <= T - t0.
Proof.
  intros HI HT Hm Hok.
  pose proof (run_server_counts update fixed_update interval jitter clks t0
                (initial_server_loop s t0) HI ltac:(simpl; lia) Hm
                ltac:(eapply Forall_impl; [exact Hok|]; intros ? []; assumption)) as C.
  destruct (run_server update fixed_update interval clks (initial_server_loop s t0))
    as [st' calls]. simpl in *. destruct C as (Cu & Cf & [L|(clk & Hin & L)]); split; auto.
  - lia.
  - rewrite List.Forall_forall in Hok. destruct (Hok clk Hin). lia.
Qed.

End Claims.
