(* ===== verification/ServerState.v ===== *)
(** * The server's state and tick handlers ([src/server/src/state.rs], [player.rs],
      [networking.rs] lines 11-25, [main.rs] lines 21 and 42-79)

    [Module Server] holds the session registry: [players] is the
    [HashMap<u32, Player>] as a [gmap Z Player] (only lookups matter,
    not the iteration order).  A [Sender<PacketAction>] is the id of
    the channel it feeds; the channels' queues form a store shared by
    every sender of the same channel ([Channels]), where a missing
    entry is a channel whose receiver is gone, and [send().unwrap()]
    panics.  The inbound [Receiver<TcpEvent>] is the list of events
    queued when the tick starts; [try_recv] pops them in order and
    fails on the empty queue, which ends the [while let] loop (events
    that transport tasks enqueue during the drain are the subject of
    [ServerDrain]).
    Logging ([info!], [warn!]) has no effect on the state and is left
    out. *)

From S2P Require Import Prelude Protocol PacketExt ServerLoop.

Module Server.

Abbreviation ChannelId := nat (only parsing).
Abbreviation Channels := (gmap nat (list PacketAction)) (only parsing).

Record Player := {
  id : Z;
  tcp_addr : SocketAddr;
  udp_addr : SocketAddr;
  packet_action_sender : ChannelId;
}.

Inductive TcpEvent :=
| NewConnection (id : Z) (tcp_addr udp_addr : SocketAddr) (packet_action_sender : ChannelId)
| PacketReceived (addr : SocketAddr) (packet : ReliablePacket).

Inductive UdpEvent := .

Record ServerState := {
  tcp_receiver : list TcpEvent;
  udp_receiver : list UdpEvent;
  players : gmap Z Player;
}.

(** [Player::new] (player.rs, lines 14-26). *)
Definition Player_new (id : Z) (tcp_addr udp_addr : SocketAddr) (sender : ChannelId) : Player :=
  {| id := id; tcp_addr := tcp_addr; udp_addr := udp_addr; packet_action_sender := sender |}.

(** [Player::send_packet_action] and its two wrappers (lines 36-46). *)
Definition send_packet_action (p : Player) (action : PacketAction) (chans : Channels)
  : option Channels :=
  q ← chans !! packet_action_sender p;
  Some (<[packet_action_sender p := q ++ [action]]> chans).

Definition send_reliable_packet (p : Player) (message : ReliablePacket) (chans : Channels)
  : option Channels :=
  send_packet_action p (Reliable message) chans.

Definition send_unreliable_packet (p : Player) (message : UnreliablePacket) (chans : Channels)
  : option Channels :=
  send_packet_action p (Unreliable message) chans.

Definition set_players (ps : gmap Z Player) (st : ServerState) : ServerState :=
  {| tcp_receiver := tcp_receiver st; udp_receiver := udp_receiver st; players := ps |}.

(** [handle_tcp_packet_received] (main.rs, lines 72-79): every packet
    falls into the [_] arm, which only logs. *)
Definition handle_tcp_packet_received (st : ServerState) (addr : SocketAddr)
  (packet : ReliablePacket) : ServerState :=
  match packet with
  | _ => st
  end.

(** The body of the [while let] loop (main.rs, lines 54-68). *)
Definition handle_tcp_event (e : TcpEvent) (st : ServerState) : ServerState :=
  match e with
  | NewConnection id tcp_addr udp_addr sender =>
      let player := Player_new id tcp_addr udp_addr sender in
      set_players (<[id := player]> (players st)) st
  | PacketReceived addr packet => handle_tcp_packet_received st addr packet
  end.

(** [receive_tcp_packets] (main.rs, lines 52-70): [try_recv] pops the
    queue's head until the queue is empty. *)
Fixpoint receive_tcp_loop (q : list TcpEvent) (st : ServerState) : ServerState :=
  match q with
  | [] => {| tcp_receiver := []; udp_receiver := udp_receiver st; players := players st |}
  | e :: rest => receive_tcp_loop rest (handle_tcp_event e st)
  end.

Definition receive_tcp_packets (st : ServerState) (dt : Z) : ServerState :=
  receive_tcp_loop (tcp_receiver st) st.

Definition receive_packets (st : ServerState) (dt : Z) : ServerState :=
  receive_tcp_packets st dt.

(** [update] and [fixed_update] (main.rs, lines 42-46). *)
Definition update (st : ServerState) (dt : Z) : ServerState := st.
Definition fixed_update (st : ServerState) (dt : Z) : ServerState := receive_packets st dt.

(** [INTERVAL = Duration::from_millis(1000 / 60)]: integer division,
    16 ms, in ns. *)
Definition INTERVAL : Z := (1000 / 60) * 1000000.

(** The registry's invariant: every session is filed under its own id. *)
Definition players_wf (ps : gmap Z Player) : Prop :=
  forall k p, ps !! k = Some p -> id p = k.

(** The last [NewConnection] for [k] in a queue, if any. *)
Fixpoint last_connection (k : Z) (q : list TcpEvent) : option Player :=
  match q with
  | [] => None
  | NewConnection i t u s :: rest =>
      match last_connection k rest with
      | Some p => Some p
      | None => if decide (i = k) then Some (Player_new i t u s) else None
      end
  | PacketReceived _ _ :: rest => last_connection k rest
  end.

(** The ids of the [NewConnection] events of a queue, in order. *)
Fixpoint connection_ids (q : list TcpEvent) : list Z :=
  match q with
  | [] => []
  | NewConnection i _ _ _ :: rest => i :: connection_ids rest
  | PacketReceived _ _ :: rest => connection_ids rest
  end.

(** A server state with one session (id 0) and a queue holding a movement
    packet from it and a new connection (id 1), for the witnesses. *)
Definition sample_addr (port : Z) : SocketAddr := {| addr_ip := 2130706433; addr_port := port |}.

Definition sample_server_state : ServerState := {|
  tcp_receiver := [PacketReceived (sample_addr 50000)
                     (MovementInput [true; false; false; false; false; false] [0; 0]);
                   NewConnection 1 (sample_addr 50001) (sample_addr 50002) 1%nat];
  udp_receiver := [];
  players := {[0 := Player_new 0 (sample_addr 50000) (sample_addr 50003) 0%nat]} |}.

(** ** Lemmas. *)

Lemma receive_tcp_loop_lookup q : forall st k,
  players (receive_tcp_loop q st) !! k =
  match last_connection k q with Some p => Some p | None => players st !! k end.
Proof.
  induction q as [|[i t u snd|addr pk] q IH]; intros st k; simpl; [reflexivity| |].
  - rewrite IH. destruct (last_connection k q); [reflexivity|]. simpl.
    rewrite lookup_insert. case_decide; reflexivity.
  - rewrite IH. destruct pk; reflexivity.
Qed.

Lemma receive_tcp_loop_queue q st : tcp_receiver (receive_tcp_loop q st) = [].
Proof. revert st; induction q as [|e q IH]; intros st; [reflexivity | apply IH]. Qed.

Lemma last_connection_id k q p : last_connection k q = Some p -> id p = k.
Proof.
  induction q as [|[i t u snd|addr pk] q IH]; simpl; [discriminate| |exact IH].
  destruct (last_connection k q); [exact IH|]. case_decide; [intros [= <-]; done | discriminate].
Qed.

Lemma last_connection_none k q : k ∉ connection_ids q -> last_connection k q = None.
Proof.
  induction q as [|[i t u snd|addr pk] q IH]; simpl; intros Hk; [reflexivity| |auto].
  rewrite elem_of_cons in Hk. rewrite IH by tauto. case_decide as Hik; [subst; tauto|reflexivity].
Qed.

Lemma receive_tcp_loop_size q : forall st,
  NoDup (connection_ids q) -> Forall (fun i => players st !! i = None) (connection_ids q) ->
  size (players (receive_tcp_loop q st)) = (size (players st) + length (connection_ids q))%nat.
Proof.
  induction q as [|[i t u snd|addr pk] q IH]; intros st Hnd Hfr; simpl in *; [lia| |].
  - apply NoDup_cons in Hnd as [Hi Hnd]. apply Forall_cons in Hfr as [Hi0 Hfr].
    rewrite IH; simpl.
    + rewrite map_size_insert_None by exact Hi0. lia.
    + exact Hnd.
    + rewrite Forall_forall in Hfr |- *. intros j Hj. simpl.
      rewrite lookup_insert_ne; [apply Hfr, Hj|]. intros ->. contradiction.
  - apply IH; destruct pk; assumption.
Qed.
(** C6: one server tick applies the queued connection events to the
    registry and nothing else: afterwards the queue is empty, a session
    id with a [NewConnection] in the queue maps to the session of its
    last such event (a repeated id silently replaces the earlier
    session), and every other id, including that of any player whose
    packets were received, keeps its session. *)
Theorem fixed_update_registry st dt :
  tcp_receiver (fixed_update st dt) = [] /\
  forall k, players (fixed_update st dt) !! k =
            match last_connection k (tcp_receiver st) with
            | Some p => Some p
            | None => players st !! k
            end.
Proof.
  split; [apply receive_tcp_loop_queue|]. intros k. apply receive_tcp_loop_lookup.
Qed.

(** The registry's invariant: if every session is filed under its own
    id before a tick, it is after. *)
Theorem fixed_update_players_wf st dt :
  players_wf (players st) -> players_wf (players (fixed_update st dt)).
Proof.
  intros Hwf k p. unfold fixed_update, receive_packets, receive_tcp_packets.
  rewrite receive_tcp_loop_lookup.
  destruct (last_connection k (tcp_receiver st)) eqn:E.
  - intros [= <-]. eapply last_connection_id; eauto.
  - apply Hwf.
Qed.

(** C28: with fresh, pairwise distinct connection ids (what the spec's
    id allocator promises), a tick adds exactly one session per
    [NewConnection] and removes none; the sessions of the queue's ids
    are the ones the events carried. *)
Theorem fixed_update_fresh_sessions st dt :
  NoDup (connection_ids (tcp_receiver st)) ->
  Forall (fun i => players st !! i = None) (connection_ids (tcp_receiver st)) ->
  size (players (fixed_update st dt)) =
    (size (players st) + length (connection_ids (tcp_receiver st)))%nat /\
  (forall k, k ∉ connection_ids (tcp_receiver st) ->
     players (fixed_update st dt) !! k = players st !! k).
Proof.
  intros Hnd Hfr. split; [apply receive_tcp_loop_size; assumption|].
  intros k Hk. unfold fixed_update, receive_packets, receive_tcp_packets.
  rewrite receive_tcp_loop_lookup, last_connection_none by exact Hk. reflexivity.
Qed.

(** ** Witnesses at concrete inputs. *)

Definition sample_server_clocks : list ServerClock :=
  [{| s_now := 5000000; s_check := 5000000 |}; {| s_now := 20000000; s_check := 20000000 |};
   {| s_now := 30000000; s_check := 30000000 |}; {| s_now := 40000000; s_check := 40000000 |}].

Lemma server_dt_always_zero_witness :
  Forall (fun c => call_dt c = 0)
    (run_server update fixed_update INTERVAL sample_server_clocks
       (initial_server_loop sample_server_state 0)).2.
Proof. apply server_dt_always_zero. unfold sample_server_clocks; simpl; lia. Defined.

Lemma server_fixed_cadence_witness :
  count_update (run_server update fixed_update INTERVAL sample_server_clocks
                  (initial_server_loop sample_server_state 0)).2 = Z.of_nat 4 /\
  count_fixed (run_server update fixed_update INTERVAL sample_server_clocks
                 (initial_server_loop sample_server_state 0)).2 * (INTERVAL - 0) <= 40000000 - 0.
Proof.
  apply (server_fixed_cadence update fixed_update INTERVAL sample_server_state 0 40000000 0);
    [change INTERVAL with 16000000; lia | lia | unfold sample_server_clocks; simpl; lia
    | unfold sample_server_clocks; repeat constructor; simpl; lia].
Defined.

Lemma fixed_update_players_wf_witness :
  players_wf (players (fixed_update sample_server_state 0)).
Proof.
  apply fixed_update_players_wf. intros k p Hk.
  unfold sample_server_state in Hk; simpl in Hk.
  apply lookup_singleton_Some in Hk as [<- <-]. reflexivity.
Defined.

Lemma fixed_update_fresh_sessions_witness :
  size (players (fixed_update sample_server_state 0)) =
    (size (players sample_server_state) +
     length (connection_ids (tcp_receiver sample_server_state)))%nat /\
  (forall k, k ∉ connection_ids (tcp_receiver sample_server_state) ->
     players (fixed_update sample_server_state 0) !! k = players sample_server_state !! k).
Proof.
  apply fixed_update_fresh_sessions; simpl.
  - constructor; [apply not_elem_of_nil | constructor].
  - constructor; [|constructor]. apply lookup_singleton_ne. lia.
Defined.

End Server.
