(* ===== verification/Orchestrator.v ===== *)
(** * The connection orchestrator ([src/server/src/networking.rs] lines 27-71,
      [src/client/src/networking.rs] lines 21-71, [src/shared/src/lib.rs])

    The server's [networking::init] spawns one task that loops on
    [server.accept()]; the client's [networking::init] connects, opens
    a bidirectional stream, writes ["hello"] and spins.  Neither hands
    the game loop a channel: the [TcpEvent] queue of [ServerState] and
    the [Arc<AtomicU32>] id counter are never written.

    - The network is the environment: every [await] whose result the
      code inspects is an input of the model ([AcceptEvent] for
      [server.accept()], the [result] fields of [Incoming],
      [Connection], [RecvStream] for the later awaits, [ClientNetEnv]
      for the client's four awaits).  Errors are quinn's, by their
      variants; every [unwrap] of one is a [NetPanic].
    - A tokio task that panics ends: [accept_loop] stops at the first
      panic and returns it with the state reached, log lines included
      ([info!] and [dbg!] are recorded as structured [LogLine]s, the
      only observable effect of the task).
    - [RecvStream::read] writes at most [buf.len()] bytes into the
      slice it is given ([quic_read]); [SendStream::write] writes a
      prefix of its argument and returns its length, which the client
      ignores.
    - [loop {}] after the client's write, and the [loop] of the accept
      task, never return: the model returns the state the task has
      reached over a finite prefix of its inputs. *)

From stdpp Require Import strings.
From S2P Require Import Prelude PacketExt.

(** ** quinn's error types. *)

Inductive ConnectionError :=
| VersionMismatch | TransportError | ConnectionClosed | ApplicationClosed
| Reset | TimedOut | LocallyClosed.

Inductive ConnectError :=
| EndpointStopping | TooManyConnections | InvalidDnsName | InvalidRemoteAddress
| NoDefaultClientConfig | UnsupportedVersion.

Inductive ReadError :=
| ReadReset (code : Z) | ReadConnectionLost (e : ConnectionError)
| ReadUnknownStream | ReadZeroRttRejected.

Inductive WriteError :=
| WriteStopped (code : Z) | WriteConnectionLost (e : ConnectionError)
| WriteUnknownStream | WriteZeroRttRejected.

(** The panics of the two tasks: an [unwrap] on each kind of error. *)
Inductive NetPanic :=
| unwrap_connect_error (e : ConnectError)
| unwrap_connection_error (e : ConnectionError)
| unwrap_read_error (e : ReadError)
| unwrap_write_error (e : WriteError).

(** ** Endpoint configuration ([create_server], [create_client], lib.rs). *)

(** [shared::TCP_ADDRESS] and [shared::UDP_ADDRESS] (lib.rs, lines 6-7). *)
Definition TCP_ADDRESS : string := "127.0.0.1:8080".
Definition UDP_ADDRESS : string := "127.0.0.1:8081".

Record ServerConfig := {
  cert_subject_alt_names : list string;
  max_concurrent_uni_streams : Z;
  server_bind : string;
}.

(** [create_server] (server networking.rs, lines 59-71): a self-signed
    certificate for ["localhost"], no unidirectional streams, bound to
    [TCP_ADDRESS]. *)
Definition create_server : ServerConfig := {|
  cert_subject_alt_names := ["localhost"];
  max_concurrent_uni_streams := 0;
  server_bind := TCP_ADDRESS;
|}.

(** A certificate as its DER bytes; rustls' error type is left abstract
    behind the one verifier the code installs. *)
Record Certificate := { cert_der : list Z }.

(** [SkipServerVerification::verify_server_cert] (client networking.rs,
    lines 59-71): every certificate chain, name and time is accepted. *)
Definition verify_server_cert (end_entity : Certificate) (intermediates : list Certificate)
  (server_name : string) (ocsp_response : list Z) (now : Z) : result unit string :=
  Ok tt.

Record ClientConfig := {
  client_bind : string;
  verifier : Certificate -> list Certificate -> string -> list Z -> Z -> result unit string;
}.

(** [create_client] (client networking.rs, lines 38-49). *)
Definition create_client : ClientConfig := {|
  client_bind := "127.0.0.1:0";
  verifier := verify_server_cert;
|}.

(** ** Streams. *)

(** How the peer's side of a receive stream stands when [read] runs. *)
Inductive ReadOutcome := ReadData | ReadFinished | ReadFailed (e : ReadError).

Record RecvStream := { rs_data : list Z; rs_read : ReadOutcome }.

(** [RecvStream::read(&mut buf)]: at most [buf_len] of the available
    bytes, [None] on a finished stream. *)
Definition quic_read (buf_len : nat) (r : RecvStream) : result (option nat * list Z) ReadError :=
  match rs_read r with
  | ReadData => Ok (Some (length (take buf_len (rs_data r))), take buf_len (rs_data r))
  | ReadFinished => Ok (None, [])
  | ReadFailed e => Err e
  end.

(** The bytes [read] stores land at the front of the slice. *)
Definition fill_slice (bytes buf : list Z) : list Z := bytes ++ drop (length bytes) buf.

(** ** The server's accept task (server networking.rs, lines 27-57). *)

Record Connection := {
  conn_remote : SocketAddr;
  conn_bi : result RecvStream ConnectionError;
}.

Record Incoming := {
  inc_remote : SocketAddr;
  inc_outcome : result Connection ConnectionError;
}.

Inductive AcceptEvent := AcceptNone | AcceptSome (inc : Incoming).

Inductive LogLine :=
| LogIncoming (a : SocketAddr)
| LogConnected (a : SocketAddr)
| LogSent (a : SocketAddr) (data : list Z)
| LogDbg (e : ConnectionError).

(** The task's state: the id counter handed to [init] and the log. *)
Record OrchState := { ids : Z; log : list LogLine }.

Definition log_line (l : LogLine) (st : OrchState) : OrchState :=
  {| ids := ids st; log := log st ++ [l] |}.

(** Lines 37-47: accept the handshake stream, read into [Vec::new()],
    log what was read; the send half is dropped unused. *)
Definition handle_connection (c : Connection) (st : OrchState) : OrchState * option NetPanic :=
  let st := log_line (LogConnected (conn_remote c)) st in
  match conn_bi c with
  | Err e => (st, Some (unwrap_connection_error e))
  | Ok recv =>
      let buf : list Z := [] in
      match quic_read (length buf) recv with
      | Err e => (st, Some (unwrap_read_error e))
      | Ok (_, bytes) =>
          let buf := fill_slice bytes buf in
          (log_line (LogSent (conn_remote c) buf) st, None)
      end
  end.

(** One turn of the [loop] (lines 32-53). *)
Definition accept_step (a : AcceptEvent) (st : OrchState) : OrchState * option NetPanic :=
  match a with
  | AcceptNone => (st, None)
  | AcceptSome inc =>
      let st := log_line (LogIncoming (inc_remote inc)) st in
      match inc_outcome inc with
      | Ok c => handle_connection c st
      | Err e => (log_line (LogDbg e) st, None)
      end
  end.

(** The spawned task over a finite prefix of [accept()]'s results; a
    panic ends it. *)
Fixpoint accept_loop (evs : list AcceptEvent) (st : OrchState) : OrchState * option NetPanic :=
  match evs with
  | [] => (st, None)
  | a :: rest =>
      match accept_step a st with
      | (st', None) => accept_loop rest st'
      | (st', Some p) => (st', Some p)
      end
  end.

(** [networking::init(ids)] with [Arc::new(AtomicU32::new(0))] from
    server main.rs (lines 27-28). *)
Definition server_init (evs : list AcceptEvent) : OrchState * option NetPanic :=
  accept_loop evs {| ids := 0; log := [] |}.

(** ** The client's [networking::init] (client networking.rs, lines 21-36). *)

(** The results of its four awaits: [connect] (and its [unwrap]), the
    connection, [open_bi], and [write] with the count it wrote. *)
Record ClientNetEnv := {
  env_connect : result unit ConnectError;
  env_connection : result unit ConnectionError;
  env_open_bi : result unit ConnectionError;
  env_write : result nat WriteError;
}.

(** ["hello".as_bytes()]. *)
Definition HELLO : list Z := [104; 101; 108; 108; 111].

Definition unwrap_with {T E} (f : E -> NetPanic) (r : result T E) : result T NetPanic :=
  res_map_err f r.

(** The bytes the client puts on the handshake stream before [loop {}]. *)
Definition client_init (env : ClientNetEnv) : result (list Z) NetPanic :=
  let! _ := unwrap_with unwrap_connect_error (env_connect env) in
  let! _ := unwrap_with unwrap_connection_error (env_connection env) in
  let! _ := unwrap_with unwrap_connection_error (env_open_bi env) in
  let! n := unwrap_with unwrap_write_error (env_write env) in
  Ok (take n HELLO).

(** ** The two [main]s. *)

(** Client [main] (client main.rs lines 22-52): [tracing::init()],
    [networking::init().await], then [loop {}]; the rest of its body is
    commented out, so no window, renderer or game loop is ever created.
    Its observable outcome is that of [networking::init] up to the
    client's own [loop {}]. *)
Definition client_main (env : ClientNetEnv) : result (list Z) NetPanic := client_init env.

(** Server [main] (server main.rs lines 23-40): [tracing::init()], a
    counter [Arc::new(AtomicU32::new(0))], [networking::init(ids).await]
    (which spawns the accept task and returns), then [loop {}] on the
    main task; [ServerState] and [server_game_loop] are commented out.
    Its observable outcome is the spawned accept task's. *)
Definition server_main (evs : list AcceptEvent) : OrchState * option NetPanic := server_init evs.

(** ** The handshake exchange: the client's stream is the server's
    accepted stream. *)

Definition handshake_exchange (env : ClientNetEnv) (remote : SocketAddr) (st : OrchState)
  : result (OrchState * option NetPanic) NetPanic :=
  let! bytes := client_main env in
  Ok (accept_step (AcceptSome {| inc_remote := remote;
                                 inc_outcome := Ok {| conn_remote := remote;
                                                      conn_bi := Ok {| rs_data := bytes; rs_read := ReadData |} |} |}) st).

(** Every [LogSent] line carries no byte. *)
Definition sent_empty (l : LogLine) : Prop :=
  match l with LogSent _ data => data = [] | _ => True end.

(** The incoming connections a log reports. *)
Definition logged_incoming (l : list LogLine) : list SocketAddr :=
  omap (fun x => match x with LogIncoming a => Some a | _ => None end) l.

Definition sample_remote : SocketAddr := {| addr_ip := 2130706433; addr_port := 40000 |}.

(** ** Lemmas. *)

Lemma fill_slice_nil bytes : length bytes = 0%nat -> fill_slice bytes [] = [].
Proof. destruct bytes; simpl; [reflexivity|discriminate]. Qed.

Lemma quic_read_length n r k bytes : quic_read n r = Ok (k, bytes) -> (length bytes <= n)%nat.
Proof.
  unfold quic_read. destruct (rs_read r); intros H; apply Ok_inj in H || discriminate;
    inversion H; subst; simpl; [rewrite length_take|]; lia.
Qed.

(** One turn keeps the counter, extends the log, and every line it
    writes is an empty [LogSent] or not a [LogSent]. *)
Lemma accept_step_log a st :
  let '(st', _) := accept_step a st in
  ids st' = ids st /\ exists l, log st' = log st ++ l /\ Forall sent_empty l.
Proof.
  destruct a as [|[r [c|e]]]; simpl.
  - split; [reflexivity|]. exists []. rewrite app_nil_r. auto.
  - unfold handle_connection. destruct (conn_bi c) as [recv|e]; simpl.
    + destruct (quic_read 0 recv) as [[k bytes]|e] eqn:E; simpl.
      * apply quic_read_length in E. rewrite fill_slice_nil by lia.
        split; [reflexivity|]. eexists. rewrite <- !app_assoc. split; [reflexivity|].
        repeat constructor.
      * split; [reflexivity|]. eexists. rewrite <- app_assoc. split; [reflexivity|].
        repeat constructor.
    + split; [reflexivity|]. eexists. rewrite <- app_assoc. split; [reflexivity|].
      repeat constructor.
  - split; [reflexivity|]. eexists. rewrite <- app_assoc. split; [reflexivity|].
    repeat constructor.
Qed.

Lemma accept_loop_app pre post st st1 :
  accept_loop pre st = (st1, None) -> accept_loop (pre ++ post) st = accept_loop post st1.
Proof.
  revert st. induction pre as [|a pre IH]; intros st H; simpl in *.
  - congruence.
  - destruct (accept_step a st) as [st' [p|]]; [discriminate|]. exact (IH st' H).
Qed.

Lemma accept_loop_log evs : forall st,
  let '(st', _) := accept_loop evs st in
  ids st' = ids st /\ exists l, log st' = log st ++ l /\ Forall sent_empty l.
Proof.
  induction evs as [|a evs IH]; intros st; simpl.
  - split; [reflexivity|]. exists []. rewrite app_nil_r. auto.
  - pose proof (accept_step_log a st) as Hs.
    destruct (accept_step a st) as [st1 [p|]]; [exact Hs|].
    destruct Hs as (Hi & l1 & Hl1 & Hf1). specialize (IH st1).
    destruct (accept_loop evs st1) as [st2 r]. destruct IH as (Hi2 & l2 & Hl2 & Hf2).
    split; [congruence|]. exists (l1 ++ l2). rewrite Hl2, Hl1, app_assoc.
    split; [reflexivity|]. apply Forall_app; auto.
Qed.

(** ** Theorems. *)

(** C32: the server process never allocates a session id and never
    reads a byte of a handshake: running [main], over every sequence of
    [accept()] results, the [AtomicU32] counter stays at 0, and every
    "sent" line
    it logs reports an empty message, because the handshake is read
    into [Vec::new()], a zero-length slice. *)
Theorem accept_task_reads_nothing evs :
  let '(st, _) := server_main evs in ids st = 0 /\ Forall sent_empty (log st).
Proof.
  unfold server_main, server_init. pose proof (accept_loop_log evs {| ids := 0; log := [] |}) as H.
  destruct (accept_loop evs _) as [st r]. destruct H as (Hi & l & Hl & Hf).
  simpl in *. rewrite Hl. auto.
Qed.

(** C15: one client that connects and closes before opening its stream
    ends the server's accept task: [accept_bi().await.unwrap()] panics,
    the task stops after logging the connection, and no later incoming
    connection is ever accepted or logged, whatever it is. *)
Theorem accept_task_dies_on_failed_bi pre inc c e post st st1 :
  accept_loop pre st = (st1, None) ->
  inc_outcome inc = Ok c -> conn_bi c = Err e ->
  accept_loop (pre ++ AcceptSome inc :: post) st =
    (log_line (LogConnected (conn_remote c)) (log_line (LogIncoming (inc_remote inc)) st1),
     Some (unwrap_connection_error e)).
Proof.
  intros Hpre Hinc Hbi. rewrite (accept_loop_app _ _ _ _ Hpre). simpl.
  rewrite Hinc. unfold handle_connection. rewrite Hbi. reflexivity.
Qed.

(** C9: the handshake message is lost.  Whenever the client's
    [networking::init] gets as far as writing, it puts a prefix of
    ["hello"] on the stream, and the server, accepting that stream,
    logs that the client sent nothing: the message is never read, no
    id is allocated and no reply is written. *)
Theorem handshake_message_dropped env remote st bytes :
  client_init env = Ok bytes ->
  prefix bytes HELLO /\
  handshake_exchange env remote st =
    Ok (log_line (LogSent remote []) (log_line (LogConnected remote) (log_line (LogIncoming remote) st)),
        None).
Proof.
  intros H. split.
  - unfold client_init, unwrap_with, res_map_err, res_bind in H.
    destruct (env_connect env), (env_connection env), (env_open_bi env), (env_write env);
      try discriminate. apply Ok_inj in H. subst. apply prefix_take.
  - unfold handshake_exchange, client_main. rewrite H. reflexivity.
Qed.

(** ** Witnesses. *)

Definition sample_client_env : ClientNetEnv :=
  {| env_connect := Ok tt; env_connection := Ok tt; env_open_bi := Ok tt; env_write := Ok 5%nat |}.

Definition sample_failed_incoming : Incoming :=
  {| inc_remote := sample_remote;
     inc_outcome := Ok {| conn_remote := sample_remote; conn_bi := Err ConnectionClosed |} |}.

Lemma accept_task_dies_on_failed_bi_witness :
  accept_loop ([] ++ AcceptSome sample_failed_incoming
                  :: [AcceptSome {| inc_remote := sample_remote;
                                    inc_outcome := Err TimedOut |}]) {| ids := 0; log := [] |}
  = (log_line (LogConnected sample_remote)
       (log_line (LogIncoming sample_remote) {| ids := 0; log := [] |}),
     Some (unwrap_connection_error ConnectionClosed)).
Proof.
  apply (accept_task_dies_on_failed_bi [] sample_failed_incoming
           {| conn_remote := sample_remote; conn_bi := Err ConnectionClosed |} ConnectionClosed);
    reflexivity.
Defined.

Lemma handshake_message_dropped_witness :
  client_init sample_client_env = Ok HELLO /\
  prefix HELLO HELLO /\
  handshake_exchange sample_client_env sample_remote {| ids := 0; log := [] |} =
    Ok (log_line (LogSent sample_remote [])
          (log_line (LogConnected sample_remote)
             (log_line (LogIncoming sample_remote) {| ids := 0; log := [] |})), None).
Proof.
  split; [reflexivity|]. apply handshake_message_dropped. reflexivity.
Defined.
