(* ===== verification/ServerDrain.v ===== *)
(** * The tick's queue drain, against a map reference and concurrent producers
      ([src/server/src/main.rs] lines 52-70)

    [receive_tcp_loop] of [ServerState] drains the events queued when
    the tick starts.  Here:
    - the registry a tick leaves is characterised as a stdpp map
      expression ([registry_after]): the [NewConnection] sessions of
      the queue, later ones first, in a left-biased union over the old
      registry; this is the measure the whole-run theorem is stated in;
    - the [while let Ok(packet) = state.tcp_receiver.try_recv()] loop
      is run against transport tasks that keep sending while it runs
      ([drain_racing]): before each [try_recv] they append a batch of
      events (one [list TcpEvent] per iteration, [arrivals]).  The loop
      is a [Fixpoint] on fuel, one unit per [try_recv]; [None] means the
      fuel ran out with the loop still running;
    - the whole [server_game_loop] with the program's [update] and
      [fixed_update] is run against transport tasks that send between
      its iterations ([run_server_fed]: before each iteration a batch of
      events joins the queue), to show that no event is lost or applied
      twice across ticks. *)

From S2P Require Import Prelude Protocol PacketExt ServerLoop ServerState.
Import Server.

Definition set_queue (q : list TcpEvent) (st : ServerState) : ServerState :=
  {| tcp_receiver := q; udp_receiver := udp_receiver st; players := players st |}.

(** [try_recv] after the producers' sends of this iteration: the head
    of the queue, or [Err(Empty)]. *)
Definition try_recv_racing (push : list TcpEvent) (st : ServerState)
  : option (TcpEvent * ServerState) :=
  match tcp_receiver st ++ push with
  | [] => None
  | e :: q => Some (e, set_queue q st)
  end.

(** The [while let] loop with producers racing it. *)
Fixpoint drain_racing (fuel : nat) (arrivals : list (list TcpEvent)) (st : ServerState)
  : option ServerState :=
  match fuel with
  | O => None
  | S fuel =>
      match try_recv_racing (default [] (head arrivals)) st with
      | None => Some st
      | Some (e, st) => drain_racing fuel (tail arrivals) (handle_tcp_event e st)
      end
  end.

(** The sessions a queue's [NewConnection] events create, in order. *)
Fixpoint connection_pairs (q : list TcpEvent) : list (Z * Player) :=
  match q with
  | [] => []
  | NewConnection i t u s :: rest => (i, Player_new i t u s) :: connection_pairs rest
  | PacketReceived _ _ :: rest => connection_pairs rest
  end.

(** The reference registry: later sessions win, then the old registry. *)
Definition registry_after (q : list TcpEvent) (ps : gmap Z Player) : gmap Z Player :=
  list_to_map (reverse (connection_pairs q)) ∪ ps.

(** The transport tasks' sends since the previous iteration join the
    queue. *)
Definition enqueue (arr : list TcpEvent) (st : ServerLoopState ServerState)
  : ServerLoopState ServerState :=
  {| state := set_queue (tcp_receiver (state st) ++ arr) (state st);
     last_tick := last_tick st; last_fixed_tick := last_fixed_tick st |}.

(** [server_game_loop] with [main.rs]'s callbacks, fed by the transport
    tasks: each step is the batch sent before an iteration and the
    iteration's clock readings. *)
Fixpoint run_server_fed (steps : list (list TcpEvent * ServerClock))
  (st : ServerLoopState ServerState) : ServerLoopState ServerState * list Call :=
  match steps with
  | [] => (st, [])
  | (arr, clk) :: rest =>
      let '(st', calls) := server_iteration update fixed_update INTERVAL clk (enqueue arr st) in
      let '(st'', calls') := run_server_fed rest st' in
      (st'', calls ++ calls')
  end.

(** ** Lemmas. *)

Lemma handle_tcp_event_queue e st : tcp_receiver (handle_tcp_event e st) = tcp_receiver st.
Proof. destruct e as [i t u s|a p]; [reflexivity|destruct p; reflexivity]. Qed.

Lemma registry_map_lookup q k :
  (list_to_map (reverse (connection_pairs q)) : gmap Z Player) !! k = last_connection k q.
Proof.
  induction q as [|[i t u s|a p] q IH]; simpl; [reflexivity| |exact IH].
  rewrite reverse_cons, list_to_map_app. simpl.
  destruct (last_connection k q) as [p|].
  { apply lookup_union_Some_l. exact IH. }
  rewrite lookup_union_r by exact IH.
  rewrite insert_empty, lookup_singleton. reflexivity.
Qed.

(** One iteration consumes one event of the queue or of this
    iteration's batch. *)
Lemma try_recv_racing_length push st e st' :
  try_recv_racing push st = Some (e, st') ->
  (length (tcp_receiver st') + 1 = length (tcp_receiver st) + length push)%nat.
Proof.
  unfold try_recv_racing. destruct (tcp_receiver st ++ push) as [|x q] eqn:E; [discriminate|].
  intros H. inversion H; subst. simpl. rewrite <- length_app, E. simpl. lia.
Qed.

Lemma try_recv_racing_none push st : try_recv_racing push st = None -> tcp_receiver st = [].
Proof.
  unfold try_recv_racing. destruct (tcp_receiver st ++ push) eqn:E; [|discriminate].
  apply app_nil in E. tauto.
Qed.

Lemma length_concat_tail (arrivals : list (list TcpEvent)) :
  length (concat arrivals) = (length (default [] (head arrivals)) + length (concat (tail arrivals)))%nat.
Proof. destruct arrivals; simpl; [reflexivity|]. rewrite length_app. reflexivity. Qed.

Lemma fixed_update_players st dt :
  players (fixed_update st dt) = registry_after (tcp_receiver st) (players st).
Proof.
  apply map_eq. intros k. unfold fixed_update, receive_packets, receive_tcp_packets, registry_after.
  rewrite receive_tcp_loop_lookup. pose proof (registry_map_lookup (tcp_receiver st) k) as H.
  destruct (last_connection k (tcp_receiver st)) as [p|].
  - symmetry. apply lookup_union_Some_l. exact H.
  - rewrite lookup_union_r by exact H. reflexivity.
Qed.

Lemma fixed_update_queue st dt : tcp_receiver (fixed_update st dt) = [].
Proof. apply receive_tcp_loop_queue. Qed.

Lemma connection_pairs_app q1 q2 :
  connection_pairs (q1 ++ q2) = connection_pairs q1 ++ connection_pairs q2.
Proof. induction q1 as [|[i t u snd|a p] q1 IH]; simpl; [reflexivity| |]; rewrite ?IH; reflexivity. Qed.

(** Applying two queues one after the other is applying their
    concatenation. *)
Lemma registry_after_app q1 q2 ps :
  registry_after (q1 ++ q2) ps = registry_after q2 (registry_after q1 ps).
Proof.
  unfold registry_after. rewrite connection_pairs_app, reverse_app, list_to_map_app.
  symmetry. apply map_union_assoc.
Qed.

Lemma registry_after_nil ps : registry_after [] ps = ps.
Proof. unfold registry_after. simpl. apply (left_id _ _). Qed.

(** One iteration with [main.rs]'s callbacks: [update] leaves the state
    alone; a fixed tick drains the whole queue. *)
Lemma server_iteration_state clk (st : ServerLoopState ServerState) :
  let '(st', calls) := server_iteration update fixed_update INTERVAL clk st in
  (state st' = state st /\ exists dt, calls = [CallUpdate dt]) \/
  (state st' = fixed_update (state st) 0 /\ exists dt fdt, calls = [CallUpdate dt; CallFixedUpdate fdt]).
Proof. unfold server_iteration. destruct (_ <? INTERVAL); [left|right]; eauto. Qed.

Lemma server_iteration_registry clk (st : ServerLoopState ServerState) :
  let '(st', _) := server_iteration update fixed_update INTERVAL clk st in
  registry_after (tcp_receiver (state st')) (players (state st')) =
  registry_after (tcp_receiver (state st)) (players (state st)).
Proof.
  pose proof (server_iteration_state clk st) as H. destruct (server_iteration _ _ _ _ _) as [st' calls].
  destruct H as [(-> & _)|(-> & _)]; [reflexivity|].
  rewrite fixed_update_players, fixed_update_queue, registry_after_nil. reflexivity.
Qed.

Lemma run_server_fed_nil steps st : (run_server_fed steps st).2 = [] -> steps = [].
Proof.
  destruct steps as [|[arr clk] rest]; [reflexivity|]. simpl.
  pose proof (server_iteration_state clk (enqueue arr st)) as H.
  destruct (server_iteration _ _ _ _ _) as [st1 calls]. destruct (run_server_fed rest st1) as [st2 calls2].
  simpl. destruct H as [(_ & dt & ->)|(_ & dt & fdt & ->)]; discriminate.
Qed.

(** The fed loop's invariant: the pending queue applied to the registry
    is every event queued so far applied to the initial registry; and a
    run ending on a fixed tick ends with the queue empty. *)
Lemma run_server_fed_inv steps : forall st,
  let '(st', calls) := run_server_fed steps st in
  registry_after (tcp_receiver (state st')) (players (state st')) =
    registry_after (tcp_receiver (state st) ++ concat (map fst steps)) (players (state st)) /\
  ((exists fdt, last calls = Some (CallFixedUpdate fdt)) -> tcp_receiver (state st') = []).
Proof.
  induction steps as [|[arr clk] rest IH]; intros st; simpl.
  - rewrite app_nil_r. split; [reflexivity|]. intros [fdt H]. discriminate.
  - pose proof (server_iteration_state clk (enqueue arr st)) as Hs.
    pose proof (server_iteration_registry clk (enqueue arr st)) as Hr.
    destruct (server_iteration _ _ _ _ _) as [st1 calls].
    specialize (IH st1). destruct (run_server_fed rest st1) as [st2 calls2] eqn:E2.
    destruct IH as [Hinv Hlast]. split.
    + rewrite Hinv, registry_after_app, Hr. simpl. rewrite <- registry_after_app, app_assoc. reflexivity.
    + intros [fdt Hf]. apply last_app_Some in Hf as [Hf|[Hn Hf]]; [apply Hlast; eauto|].
      apply last_None in Hn. subst calls2.
      assert (rest = []) as -> by (apply (run_server_fed_nil rest st1); rewrite E2; reflexivity).
      simpl in E2. injection E2 as <-.
      destruct Hs as [(_ & dt & ->)|(-> & _)]; [discriminate|apply fixed_update_queue].
Qed.

(** ** Theorems. *)

(** C16: the drain terminates whatever the producers do, once they stop:
    with [n] events queued and [m] sent during the drain in all, the
    [while let] loop ends within [n + m + 1] calls of [try_recv], with
    the queue empty. *)
Theorem drain_racing_terminates fuel : forall arrivals st,
  (length (tcp_receiver st) + length (concat arrivals) < fuel)%nat ->
  exists st', drain_racing fuel arrivals st = Some st' /\ tcp_receiver st' = [].
Proof.
  induction fuel as [|fuel IH]; intros arrivals st Hf; [lia|]. simpl.
  destruct (try_recv_racing (default [] (head arrivals)) st) as [[e st1]|] eqn:E.
  - apply try_recv_racing_length in E. apply IH.
    rewrite handle_tcp_event_queue. rewrite length_concat_tail in Hf. lia.
  - exists st. split; [reflexivity|]. exact (try_recv_racing_none _ _ E).
Qed.

(** C26: no bound on a tick's drain holds independently of the senders:
    for every [n], transport tasks that send one event per iteration
    keep the loop running through [n] calls of [try_recv], so a fixed
    tick can be held in its drain as long as the senders keep up. *)
Theorem drain_racing_unbounded n : forall st e,
  drain_racing n (repeat [e] n) st = None.
Proof.
  induction n as [|n IH]; intros st e; simpl; [reflexivity|].
  unfold try_recv_racing.
  destruct (tcp_receiver st ++ [e]) eqn:E; [apply app_nil in E; destruct E; discriminate|].
  apply IH.
Qed.

(** C12: no connection event is lost or applied twice across ticks.
    Over every run of [server_game_loop] with [main.rs]'s callbacks, fed
    by transport tasks that send between its iterations, the registry
    with the still-pending queue applied to it is the initial registry
    with every event ever queued applied in the order queued (a later
    session for an id winning); after a run whose last iteration was a
    fixed tick, the queue is empty and the registry is exactly that. *)
Theorem server_run_applies_events (s : ServerState) t0 steps :
  let '(st', calls) := run_server_fed steps (initial_server_loop s t0) in
  registry_after (tcp_receiver (state st')) (players (state st')) =
    registry_after (tcp_receiver s ++ concat (map fst steps)) (players s) /\
  ((exists fdt, last calls = Some (CallFixedUpdate fdt)) ->
   tcp_receiver (state st') = [] /\
   players (state st') = registry_after (tcp_receiver s ++ concat (map fst steps)) (players s)).
Proof.
  pose proof (run_server_fed_inv steps (initial_server_loop s t0)) as H.
  destruct (run_server_fed steps _) as [st' calls]. simpl in H. destruct H as [Hinv Hlast].
  split; [exact Hinv|]. intros Hf. specialize (Hlast Hf). split; [exact Hlast|].
  rewrite <- Hinv, Hlast, registry_after_nil. reflexivity.
Qed.

(** ** Witnesses. *)

Lemma drain_racing_terminates_witness :
  exists st', drain_racing 5 [[]; [NewConnection 2 (sample_addr 50004) (sample_addr 50005) 2%nat]]
                sample_server_state = Some st' /\ tcp_receiver st' = [].
Proof. apply drain_racing_terminates. simpl. lia. Defined.


(** Two iterations from [sample_server_state]: a render-only one at
    5 ms, then a new connection sent and a fixed tick at 20 ms. *)
Definition sample_server_steps : list (list TcpEvent * ServerClock) :=
  [([], {| s_now := 5000000; s_check := 5000000 |});
   ([NewConnection 2 (sample_addr 50004) (sample_addr 50005) 2%nat],
    {| s_now := 20000000; s_check := 20000000 |})].

Lemma server_run_applies_events_witness :
  tcp_receiver (state (run_server_fed sample_server_steps (initial_server_loop sample_server_state 0)).1) = [] /\
  players (state (run_server_fed sample_server_steps (initial_server_loop sample_server_state 0)).1) =
    registry_after (tcp_receiver sample_server_state ++ concat (map fst sample_server_steps))
      (players sample_server_state).
Proof.
  pose proof (server_run_applies_events sample_server_state 0 sample_server_steps) as H.
  destruct (run_server_fed sample_server_steps _) as [st' calls] eqn:E. simpl.
  apply (proj2 H). exists 0.
  replace calls with (run_server_fed sample_server_steps (initial_server_loop sample_server_state 0)).2
    by (rewrite E; reflexivity).
  reflexivity.
Defined.
